(** * Knowledge indexing and retrieval engine (KnowledgeBaseService)

    A shallow embedding of the document indexing service: the paragraph
    chunker, the relational store with its full-text mirror, the concept
    graph builder, the directory orchestrator and the two search helpers.

    JavaScript strings are sequences of UTF-16 code units; the SQLite tables
    are association lists kept in rowid order; effects are threaded through a
    state-and-exception monad. *)

From Stdlib Require Import List NArith ZArith Arith Lia Bool String Ascii.
From Stdlib Require Import DecimalString DecimalNat QArith Reals Lra Permutation Sorted.
From Stdlib Require Floats.
Import ListNotations.

Set Implicit Arguments.
Unset Strict Implicit.

Local Open Scope nat_scope.

Abbreviation length := List.length (only parsing).

(* ================================================================== *)
(** ** JavaScript strings *)

Module JS.

(** A string is its list of UTF-16 code units; [length] is [String.length]. *)
Definition jsstring := list N.

Definition str (s : string) : jsstring :=
  map N_of_ascii (list_ascii_of_string s).

Definition LF : N := 10%N.
Definition SPACE : N := 32%N.

(** The class [\s] of regular expressions, which is also what
    [String.prototype.trim] strips: white space and line terminators. *)
Definition isWhiteSpace (c : N) : bool :=
  ((9 <=? c) && (c <=? 13) || (c =? 32) || (c =? 160) || (c =? 5760)
   || (8192 <=? c) && (c <=? 8202) || (c =? 8232) || (c =? 8233)
   || (c =? 8239) || (c =? 8287) || (c =? 12288) || (c =? 65279))%N.

Fixpoint trimStart (s : jsstring) : jsstring :=
  match s with
  | c :: r => if isWhiteSpace c then trimStart r else s
  | [] => []
  end.

Definition trim (s : jsstring) : jsstring :=
  rev (trimStart (rev (trimStart s))).

(** Truthiness of a string: non-empty. *)
Definition truthy (s : jsstring) : bool :=
  match s with [] => false | _ => true end.

(** [l.join(sep)] *)
Fixpoint join (sep : jsstring) (l : list jsstring) : jsstring :=
  match l with
  | [] => []
  | x :: t => match t with [] => x | _ => x ++ sep ++ join sep t end
  end.

(** [s.split(d)] for a one-unit separator, as (first piece, other pieces). *)
Fixpoint splitOn (d : N) (s : jsstring) : jsstring * list jsstring :=
  match s with
  | [] => ([], [])
  | c :: r =>
      let (h, t) := splitOn d r in
      if (c =? d)%N then ([], h :: t) else (c :: h, t)
  end.

Definition split (d : N) (s : jsstring) : list jsstring :=
  let (h, t) := splitOn d s in h :: t.

(** The longest run of [\s] at the head of [s]. *)
Fixpoint spanWhite (s : jsstring) : jsstring :=
  match s with
  | c :: r => if isWhiteSpace c then c :: spanWhite r else []
  | [] => []
  end.

(** Offset just past the last line feed of [w], if it has one. *)
Fixpoint lastLF (w : jsstring) : option nat :=
  match w with
  | [] => None
  | c :: r =>
      match lastLF r with
      | Some k => Some (S k)
      | None => if (c =? LF)%N then Some 1 else None
      end
  end.

(** Length of the match of [/\n\s*\n/] anchored at the head of [s]: a line
    feed, then the greedy [\s*] backtracked to the last line feed of the
    white-space run that follows. *)
Definition matchBlankLine (s : jsstring) : option nat :=
  match s with
  | c :: r =>
      if (c =? LF)%N then
        match lastLF (spanWhite r) with
        | Some k => Some (S k)
        | None => None
        end
      else None
  | [] => None
  end.

(** [s.split(/\n\s*\n/)], as (first piece, other pieces).  [skip] counts the
    code units of the current match still to be dropped. *)
Fixpoint splitBlankGo (skip : nat) (s : jsstring) : jsstring * list jsstring :=
  match s with
  | [] => ([], [])
  | c :: r =>
      match skip with
      | S k => splitBlankGo k r
      | O =>
          match matchBlankLine (c :: r) with
          | Some n => let (h, t) := splitBlankGo (pred n) r in ([], h :: t)
          | None => let (h, t) := splitBlankGo 0 r in (c :: h, t)
          end
      end
  end.

Definition splitBlankLines (s : jsstring) : list jsstring :=
  let (h, t) := splitBlankGo 0 s in h :: t.

(** [words.slice(Math.max(0, words.length - n))] *)
Definition lastN {A} (n : nat) (l : list A) : list A :=
  skipn (length l - n) l.

End JS.

Import JS.

(* ================================================================== *)
(** ** Configuration (constructor defaults) *)

(** [options.x || dflt] on an optional number: absent and [0] give [dflt]. *)
Definition orDefault (o : option nat) (dflt : nat) : nat :=
  match o with
  | Some (S n) => S n
  | _ => dflt
  end.

Record Config := {
  chunkSize : nat;
  chunkOverlap : nat;
  maxConcurrentProcessing : nat
}.

Definition mkConfig (size overlap conc : option nat) : Config :=
  {| chunkSize := orDefault size 1000;
     chunkOverlap := orDefault overlap 200;
     maxConcurrentProcessing := orDefault conc 5 |}.

(* ================================================================== *)
(** ** Documents and chunks *)

Inductive DocumentType :=
  | TPdf | TExcel | TCsv | TWord | TText | TMarkdown | TUnknown.

Definition typeName (t : DocumentType) : jsstring :=
  match t with
  | TPdf => str "pdf" | TExcel => str "excel" | TCsv => str "csv"
  | TWord => str "word" | TText => str "text" | TMarkdown => str "markdown"
  | TUnknown => str "unknown"
  end.

Definition DocumentType_eqb (a b : DocumentType) : bool :=
  match a, b with
  | TPdf, TPdf | TExcel, TExcel | TCsv, TCsv | TWord, TWord
  | TText, TText | TMarkdown, TMarkdown | TUnknown, TUnknown => true
  | _, _ => false
  end.

(** [Date] values, as milliseconds since the epoch. *)
Definition Date := N.

Record DocumentMetadata := {
  md_id : jsstring;
  md_title : jsstring;
  md_path : jsstring;
  md_type : DocumentType;
  md_size : nat;
  md_created : Date;
  md_modified : Date;
  md_indexed : Date;
  md_author : option jsstring;
  md_tags : option (list jsstring);
  md_summary : option jsstring;
  md_keyPoints : option (list jsstring);
  md_pageCount : option nat;
  md_wordCount : option nat
}.

(** The [metadata] object of a chunk: [{title, type}]. *)
Record ChunkMeta := {
  cm_title : jsstring;
  cm_type : DocumentType
}.

Record DocumentChunk := {
  ch_id : jsstring;
  ch_documentId : jsstring;
  ch_content : jsstring;
  ch_index : nat;
  ch_embedding : option (list Q);
  ch_metadata : option ChunkMeta
}.

(** Decimal rendering of an array index in a template string. *)
Definition numToString (n : nat) : jsstring :=
  str (NilZero.string_of_uint (Nat.to_uint n)).

(* ================================================================== *)
(** ** The chunker *)

Module Chunker.

Section WithConfig.

Variable cfg : Config.

Definition mkChunk (md : DocumentMetadata) (text : jsstring) (i : nat)
  : DocumentChunk :=
  {| ch_id := str "chunk_" ++ md_id md ++ str "_" ++ numToString i;
     ch_documentId := md_id md;
     ch_content := text;
     ch_index := i;
     ch_embedding := None;
     ch_metadata := Some {| cm_title := md_title md; cm_type := md_type md |} |}.

(** Loop state of [chunkDocument]: chunks pushed so far, [currentChunk],
    [chunkIndex]. *)
Definition LoopState := (list DocumentChunk * jsstring * nat)%type.

Definition overlapSeed (currentChunk : jsstring) : jsstring :=
  join [SPACE] (lastN (chunkOverlap cfg) (split SPACE currentChunk)).

Definition chunkStep (md : DocumentMetadata) (st : LoopState)
  (paragraph : jsstring) : LoopState :=
  let '(chunks, currentChunk, chunkIndex) := st in
  if negb (truthy (trim paragraph)) then st
  else if (chunkSize cfg <? length currentChunk + length paragraph)
          && (0 <? length currentChunk)
  then (chunks ++ [mkChunk md currentChunk chunkIndex],
        overlapSeed currentChunk ++ [SPACE] ++ paragraph,
        S chunkIndex)
  else (chunks,
        currentChunk
          ++ (if truthy currentChunk then [LF; LF] else []) ++ paragraph,
        chunkIndex).

Definition chunkLoop (md : DocumentMetadata) (paragraphs : list jsstring)
  : LoopState :=
  fold_left (chunkStep md) paragraphs ([], [], 0).

Definition chunkDocument (content : jsstring) (md : DocumentMetadata)
  : list DocumentChunk :=
  let '(chunks, currentChunk, chunkIndex) :=
    chunkLoop md (splitBlankLines content) in
  if truthy (trim currentChunk)
  then chunks ++ [mkChunk md currentChunk chunkIndex]
  else chunks.

End WithConfig.

End Chunker.

(* ================================================================== *)
(** ** Exceptions *)

Inductive Error :=
  | KnowledgeBaseError      (* the service's root error class *)
  | FileProcessingError     (* extends KnowledgeBaseError *)
  | DatabaseError           (* extends KnowledgeBaseError *)
  | EmbeddingError          (* extends KnowledgeBaseError *)
  | SqliteError             (* raised by the database driver *)
  | TypeError               (* raised by the language runtime *)
  | SyntaxError             (* raised by [JSON.parse] *)
  | CollaboratorError       (* raised by the completion service *)
  | FsError                 (* raised by the [fs] module *)
  | CallbackError           (* raised by a caller's callback *)
  | PlainError.             (* [new Error(...)] *)

(** [error instanceof KnowledgeBaseError] *)
Definition isKnowledgeBaseError (e : Error) : bool :=
  match e with
  | KnowledgeBaseError | FileProcessingError | DatabaseError
  | EmbeddingError => true
  | _ => false
  end.

Inductive Result (A : Type) :=
  | Ok (a : A)
  | Throw (e : Error).

Arguments Ok {A} a.
Arguments Throw {A} e.

(* ================================================================== *)
(** ** JSON values *)

Unset Elimination Schemes.

Inductive json :=
  | JNull
  | JBool (b : bool)
  | JNum (q : Q)
  | JStr (s : jsstring)
  | JArr (items : list json)
  | JObj (fields : list (jsstring * json)).

Set Elimination Schemes.

(* ================================================================== *)
(** ** Numbers and vectors *)

(** The arithmetic of [number] that the service uses.  [fofQ] reads a
    decimal literal, [fofJson] is the conversion [ToNumber] of a parsed
    value. *)
Class Number (F : Type) := {
  fzero : F;
  fadd : F -> F -> F;
  fmul : F -> F -> F;
  fdiv : F -> F -> F;
  fsqrt : F -> F;
  fisZero : F -> bool;
  flt : F -> F -> bool;
  fofQ : Q -> F;
  fofJson : json -> F
}.

Module Vector.

Section WithNumber.

Context {F : Type} {num : Number F}.

(** Loop body of [cosineSimilarity] on [(dotProduct, normA, normB)]. *)
Definition accumulate (acc : F * F * F) (xy : F * F) : F * F * F :=
  let '(dotProduct, normA, normB) := acc in
  let (x, y) := xy in
  (fadd dotProduct (fmul x y), fadd normA (fmul x x), fadd normB (fmul y y)).

Definition cosineSimilarity (vecA vecB : list F) : Result F :=
  if negb (length vecA =? length vecB) then Throw PlainError
  else
    let '(dotProduct, normA, normB) :=
      fold_left accumulate (combine vecA vecB) (fzero, fzero, fzero) in
    if fisZero normA || fisZero normB then Ok fzero
    else Ok (fdiv dotProduct (fmul (fsqrt normA) (fsqrt normB))).

End WithNumber.

(** Exact arithmetic on the reals. *)
#[export] Instance RNumber : Number R := {|
  fzero := 0%R;
  fadd := Rplus;
  fmul := Rmult;
  fdiv := Rdiv;
  fsqrt := sqrt;
  fisZero := fun x => if Req_dec_T x 0%R then true else false;
  flt := fun x y => if Rlt_dec x y then true else false;
  fofQ := Q2R;
  fofJson := fun v =>
    match v with
    | JNum q => Q2R q
    | JBool true => 1%R
    | _ => 0%R
    end
|}.

(** The arithmetic of the code: IEEE 754 binary64, rounding to nearest,
    ties to even.  [x === 0] holds of both zeros and not of [NaN].  Text,
    arrays and objects are converted to [NaN], which is what [ToNumber]
    gives unless the text is blank or a numeral or the array has fewer
    than two elements. *)
Section Binary64.

Import Stdlib.Floats.Floats.

(** The binary64 number nearest to a rational: how a decimal literal is
    read. *)
Definition nearest (q : Q) : float :=
  match Qnum q with
  | Z0 => PrimFloat.zero
  | Zpos n =>
      SF2Prim (SFdiv prec emax (S754_finite false n 0)
                 (S754_finite false (Qden q) 0))
  | Zneg n =>
      SF2Prim (SFdiv prec emax (S754_finite true n 0)
                 (S754_finite false (Qden q) 0))
  end.

#[export] Instance Binary64 : Number float := {|
  fzero := PrimFloat.zero;
  fadd := PrimFloat.add;
  fmul := PrimFloat.mul;
  fdiv := PrimFloat.div;
  fsqrt := PrimFloat.sqrt;
  fisZero := fun x => PrimFloat.eqb x PrimFloat.zero;
  flt := PrimFloat.ltb;
  fofQ := nearest;
  fofJson := fun v =>
    match v with
    | JNum q => nearest q
    | JBool true => PrimFloat.one
    | JBool false | JNull => PrimFloat.zero
    | _ => PrimFloat.nan
    end
|}.

End Binary64.

End Vector.

(* ================================================================== *)
(** ** Reading and writing JSON *)

Module Json.

Definition jsstring_eqb (a b : jsstring) : bool :=
  if list_eq_dec N.eq_dec a b then true else false.

(** [v.key]; [None] is [undefined].  Reading a property of [null] throws. *)
Definition getProp (v : json) (key : jsstring) : Result (option json) :=
  match v with
  | JNull => Throw TypeError
  | JObj fields =>
      Ok (option_map snd (find (fun kv => jsstring_eqb (fst kv) key) fields))
  | _ => Ok None
  end.

(** Truthiness of a property value. *)
Definition truthy (v : option json) : bool :=
  match v with
  | None | Some JNull | Some (JBool false) | Some (JStr []) => false
  | Some (JNum q) => negb (Qeq_bool q 0)
  | Some _ => true
  end.

Definition hexDigit (n : N) : N :=
  (if n <? 10 then 48 + n else 87 + n)%N.

Definition unicodeEscape (c : N) : jsstring :=
  [92; 117; hexDigit (c / 4096); hexDigit ((c / 256) mod 16);
   hexDigit ((c / 16) mod 16); hexDigit (c mod 16)]%N.

Definition isLeadSurrogate (c : N) : bool := ((55296 <=? c) && (c <=? 56319))%N.
Definition isTrailSurrogate (c : N) : bool := ((56320 <=? c) && (c <=? 57343))%N.

Definition escapeUnit (c : N) : jsstring :=
  (if c =? 8 then [92; 98]
   else if c =? 9 then [92; 116]
   else if c =? 10 then [92; 110]
   else if c =? 12 then [92; 102]
   else if c =? 13 then [92; 114]
   else if c =? 34 then [92; 34]
   else if c =? 92 then [92; 92]
   else if c <? 32 then unicodeEscape c
   else [c])%N.

(** The body of a quoted JSON string: short escapes, [\uXXXX] for the
    other control characters and for unpaired surrogates. *)
Fixpoint escapeUnits (s : jsstring) : jsstring :=
  match s with
  | [] => []
  | c :: r =>
      if isLeadSurrogate c then
        match r with
        | d :: r' =>
            if isTrailSurrogate d then c :: d :: escapeUnits r'
            else unicodeEscape c ++ escapeUnits r
        | [] => unicodeEscape c
        end
      else if isTrailSurrogate c then unicodeEscape c ++ escapeUnits r
      else escapeUnit c ++ escapeUnits r
  end.

(** [JSON.stringify] of a string. *)
Definition quote (s : jsstring) : jsstring :=
  [34%N] ++ escapeUnits s ++ [34%N].

(** [JSON.stringify] of an array of strings. *)
Definition stringifyStrings (l : list jsstring) : jsstring :=
  str "[" ++ join (str ",") (map quote l) ++ str "]".

(** [JSON.stringify({title, type})] *)
Definition stringifyChunkMeta (m : ChunkMeta) : jsstring :=
  str "{" ++ quote (str "title") ++ str ":" ++ quote (cm_title m)
  ++ str "," ++ quote (str "type") ++ str ":" ++ quote (typeName (cm_type m))
  ++ str "}".

End Json.

(* ================================================================== *)
(** ** The store *)

Inductive RelationshipType := CONTAINS | RELATED.

Definition RelationshipType_eqb (a b : RelationshipType) : bool :=
  match a, b with
  | CONTAINS, CONTAINS | RELATED, RELATED => true
  | _, _ => false
  end.

Record DocumentRow := {
  d_rowid : nat;
  d_id : jsstring;
  d_title : jsstring;
  d_path : jsstring;
  d_type : DocumentType;
  d_size : nat;
  d_created : Date;
  d_modified : Date;
  d_indexed : Date;
  d_author : option jsstring;
  d_tags : option jsstring;
  d_summary : option jsstring;
  d_key_points : option jsstring;
  d_page_count : option nat;
  d_word_count : option nat
}.

Record ChunkRow := {
  c_id : jsstring;
  c_document_id : jsstring;
  c_content : jsstring;
  c_index_num : nat;
  c_metadata : option jsstring
}.

Record FtsRow := {
  f_rowid : nat;
  f_title : jsstring;
  f_content : jsstring;
  f_tags : jsstring;
  f_summary : jsstring
}.

Record ConceptRow := {
  k_id : jsstring;
  k_name : jsstring;
  k_type : jsstring;
  k_description : option json;
  k_frequency : nat
}.

Record RelationshipRow := {
  r_id : jsstring;
  r_source_id : jsstring;
  r_source_type : jsstring;
  r_target_id : jsstring;
  r_target_type : jsstring;
  r_relationship_type : RelationshipType;
  r_weight : Q
}.

(** The tables, each in rowid order.  [documents_fts] is kept as the table of
    its rows; its ['delete'] command removes the entry of a rowid. *)
Record Tables := {
  documents : list DocumentRow;
  document_chunks : list ChunkRow;
  documents_fts : list FtsRow;
  concepts : list ConceptRow;
  relationships : list RelationshipRow
}.

Definition emptyTables : Tables :=
  {| documents := []; document_chunks := []; documents_fts := [];
     concepts := []; relationships := [] |}.

Inductive ProgressStatus := Idle | Indexing | Paused | Completed | Failed.

Record IndexingProgress := {
  total : nat;
  processed : nat;
  failed : nat;
  status : ProgressStatus;
  error : option Error;
  startTime : option Date;
  endTime : option Date
}.

(** An entry of the external vector index: id, values and metadata. *)
Record VectorEntry := {
  ve_id : jsstring;
  ve_values : list Q;
  ve_documentId : jsstring;
  ve_chunkIndex : nat;
  ve_title : jsstring;
  ve_path : jsstring;
  ve_type : DocumentType
}.

(** One reply of the completion service to [sendChatMessage]. *)
Inductive ChatReply :=
  | ChatText (text : jsstring)
  | ChatThrows.

(** The service object and what it talks to.
    - [txn]: the snapshot taken by [BEGIN TRANSACTION], while one is open;
    - [fuse]: when [Some n], the statement after the next [n] ones fails
      with a driver error and has no effect;
    - [vectorStore]: the entries of the external vector index, when one is
      configured;
    - [chat]: the replies the completion service will give, in order. *)
Record State := {
  tables : Tables;
  txn : option Tables;
  fuse : option nat;
  vectorStore : option (list VectorEntry);
  embeddingModel : bool;
  indexingProgress : IndexingProgress;
  clock : Date;
  chat : list ChatReply
}.

Definition setTables (t : Tables) (s : State) : State :=
  {| tables := t; txn := txn s; fuse := fuse s;
     vectorStore := vectorStore s; embeddingModel := embeddingModel s;
     indexingProgress := indexingProgress s; clock := clock s;
     chat := chat s |}.

Definition setTxn (x : option Tables) (s : State) : State :=
  {| tables := tables s; txn := x; fuse := fuse s;
     vectorStore := vectorStore s; embeddingModel := embeddingModel s;
     indexingProgress := indexingProgress s; clock := clock s;
     chat := chat s |}.

Definition setFuse (x : option nat) (s : State) : State :=
  {| tables := tables s; txn := txn s; fuse := x;
     vectorStore := vectorStore s; embeddingModel := embeddingModel s;
     indexingProgress := indexingProgress s; clock := clock s;
     chat := chat s |}.

Definition setVectorStore (x : option (list VectorEntry)) (s : State)
  : State :=
  {| tables := tables s; txn := txn s; fuse := fuse s;
     vectorStore := x; embeddingModel := embeddingModel s;
     indexingProgress := indexingProgress s; clock := clock s;
     chat := chat s |}.

Definition setEmbeddingModel (x : bool) (s : State) : State :=
  {| tables := tables s; txn := txn s; fuse := fuse s;
     vectorStore := vectorStore s; embeddingModel := x;
     indexingProgress := indexingProgress s; clock := clock s;
     chat := chat s |}.

Definition setProgress (x : IndexingProgress) (s : State) : State :=
  {| tables := tables s; txn := txn s; fuse := fuse s;
     vectorStore := vectorStore s; embeddingModel := embeddingModel s;
     indexingProgress := x; clock := clock s; chat := chat s |}.

Definition setClock (x : Date) (s : State) : State :=
  {| tables := tables s; txn := txn s; fuse := fuse s;
     vectorStore := vectorStore s; embeddingModel := embeddingModel s;
     indexingProgress := indexingProgress s; clock := x; chat := chat s |}.

Definition setChat (x : list ChatReply) (s : State) : State :=
  {| tables := tables s; txn := txn s; fuse := fuse s;
     vectorStore := vectorStore s; embeddingModel := embeddingModel s;
     indexingProgress := indexingProgress s; clock := clock s; chat := x |}.

(** A freshly constructed service on an empty database. *)
Definition initialState : State :=
  {| tables := emptyTables; txn := None; fuse := None; vectorStore := None;
     embeddingModel := false;
     indexingProgress :=
       {| total := 0; processed := 0; failed := 0; status := Idle;
          error := None; startTime := None; endTime := None |};
     clock := 0%N; chat := [] |}.

(* ================================================================== *)
(** ** The monad of service methods: state and exceptions *)

Definition M (A : Type) : Type := State -> Result A * State.

Definition ret {A} (a : A) : M A := fun s => (Ok a, s).

Definition throw {A} (e : Error) : M A := fun s => (Throw e, s).

Definition bind {A B} (m : M A) (k : A -> M B) : M B :=
  fun s =>
    match m s with
    | (Ok a, s') => k a s'
    | (Throw e, s') => (Throw e, s')
    end.

(** [try { m } catch (e) { h e }] *)
Definition tryCatch {A} (m : M A) (h : Error -> M A) : M A :=
  fun s =>
    match m s with
    | (Ok a, s') => (Ok a, s')
    | (Throw e, s') => h e s'
    end.

Definition gets {A} (f : State -> A) : M A := fun s => (Ok (f s), s).

Definition modify (f : State -> State) : M unit := fun s => (Ok tt, f s).

Definition liftResult {A} (r : Result A) : M A := fun s => (r, s).

Declare Scope monad_scope.
Delimit Scope monad_scope with monad.

Notation "x <- m ;; k" := (bind m (fun x => k))
  (at level 61, m at next level, right associativity) : monad_scope.
Notation "m ;; k" := (bind m (fun _ => k))
  (at level 61, right associativity) : monad_scope.

Local Open Scope monad_scope.

(** [for (const x of l) body(x)] *)
Fixpoint forEach {A} (l : list A) (body : A -> M unit) : M unit :=
  match l with
  | [] => ret tt
  | x :: r => body x ;; forEach r body
  end.

(** *** The database driver *)

(** Every statement may be the one that fails. *)
Definition tick : M unit :=
  fun s =>
    match fuse s with
    | None => (Ok tt, s)
    | Some (S n) => (Ok tt, setFuse (Some n) s)
    | Some O => (Throw SqliteError, setFuse None s)
    end.

(** A query: reads the tables. *)
Definition query {A} (f : Tables -> A) : M A :=
  tick ;; gets (fun s => f (tables s)).

(** A statement: changes the tables, or fails on a constraint. *)
Definition run (f : Tables -> Result Tables) : M unit :=
  tick ;;
  fun s =>
    match f (tables s) with
    | Ok t => (Ok tt, setTables t s)
    | Throw e => (Throw e, s)
    end.

(** [db.exec('BEGIN TRANSACTION')] *)
Definition execBegin : M unit :=
  tick ;;
  fun s =>
    match txn s with
    | Some _ => (Throw SqliteError, s)
    | None => (Ok tt, setTxn (Some (tables s)) s)
    end.

(** [db.exec('COMMIT')] *)
Definition execCommit : M unit :=
  tick ;;
  fun s =>
    match txn s with
    | Some _ => (Ok tt, setTxn None s)
    | None => (Throw SqliteError, s)
    end.

(** [db.exec('ROLLBACK')]: without an open transaction it is an error. *)
Definition execRollback : M unit :=
  tick ;;
  fun s =>
    match txn s with
    | Some snapshot => (Ok tt, setTxn None (setTables snapshot s))
    | None => (Throw SqliteError, s)
    end.

(* ================================================================== *)
(** ** What the service runs on *)

(** What a reader of the file's type returns. *)
Record FileData := {
  fd_content : jsstring;
  fd_pageCount : option nat;
  fd_author : option jsstring
}.

Record FileInfo := {
  fi_size : nat;
  fi_birthtime : Date;
  fi_mtime : Date;
  fi_type : DocumentType;          (* what [detectFileType] finds *)
  fi_read : Result FileData        (* what reading and parsing gives *)
}.

Unset Elimination Schemes.

Inductive FsNode :=
  | FsFile (info : FileInfo)
  | FsDir (entries : list (jsstring * FsNode))
  | FsSpecial                      (* neither a file nor a directory *)
  | FsBroken.                      (* [statSync] fails on it *)

Set Elimination Schemes.

Record SearchOptions := {
  so_limit : option nat;
  so_offset : option nat;
  so_types : option (list DocumentType);
  so_startDate : option Date;
  so_endDate : option Date;
  so_tags : option (list jsstring);
  so_useSemanticSearch : bool
}.

(** Library functions and collaborators the service calls. *)
Record Env := {
  sha256 : jsstring -> jsstring;              (* [CryptoJS.SHA256(s).toString()] *)
  toLowerCase : jsstring -> jsstring;
  toUpperCase : jsstring -> jsstring;
  JSON_parse : jsstring -> option json;       (* [None]: a [SyntaxError] *)
  basename : jsstring -> jsstring;
  pathJoin : jsstring -> jsstring -> jsstring;
  fsStat : jsstring -> option FsNode;         (* [None]: no such path *)
  pipelineLoads : bool;                       (* the embedding model loads *)
  embed : jsstring -> Result (list Q);        (* the embedding model *)
  vectorQuery :                               (* the external index's ranking *)
    list VectorEntry -> list Q -> nat -> option (list DocumentType) ->
    list (VectorEntry * Q);
  fullTextMatch :                             (* the full-text engine: rows *)
    Tables -> jsstring -> SearchOptions ->    (* with snippet and rank *)
    list (DocumentRow * jsstring * Q);
  extractiveSummary : jsstring -> jsstring;
  extractiveKeyPoints : jsstring -> list jsstring;
  bulletPoints : jsstring -> list jsstring;   (* the bullet lines of a reply *)
  extractSnippet : jsstring -> jsstring -> jsstring
}.

(* ================================================================== *)
(** ** SQL statements on the tables *)

Module Sql.

Import Json.

Definition withDocuments (x : list DocumentRow) (t : Tables) : Tables :=
  {| documents := x; document_chunks := document_chunks t;
     documents_fts := documents_fts t; concepts := concepts t;
     relationships := relationships t |}.

Definition withChunks (x : list ChunkRow) (t : Tables) : Tables :=
  {| documents := documents t; document_chunks := x;
     documents_fts := documents_fts t; concepts := concepts t;
     relationships := relationships t |}.

Definition withFts (x : list FtsRow) (t : Tables) : Tables :=
  {| documents := documents t; document_chunks := document_chunks t;
     documents_fts := x; concepts := concepts t;
     relationships := relationships t |}.

Definition withConcepts (x : list ConceptRow) (t : Tables) : Tables :=
  {| documents := documents t; document_chunks := document_chunks t;
     documents_fts := documents_fts t; concepts := x;
     relationships := relationships t |}.

Definition withRelationships (x : list RelationshipRow) (t : Tables) : Tables :=
  {| documents := documents t; document_chunks := document_chunks t;
     documents_fts := documents_fts t; concepts := concepts t;
     relationships := x |}.

(** [COALESCE(x, '')] *)
Definition coalesce (x : option jsstring) : jsstring :=
  match x with Some v => v | None => [] end.

(** *** documents and its full-text mirror *)

(** [SELECT .. FROM documents WHERE id = ?] *)
Definition selectDocument (id : jsstring) (t : Tables) : option DocumentRow :=
  find (fun d => jsstring_eqb (d_id d) id) (documents t).

Definition nextRowid (t : Tables) : nat :=
  S (fold_right (fun d m => Nat.max (d_rowid d) m) 0 (documents t)).

(** The ['delete'] command of the full-text table. *)
Definition ftsDelete (rowid : nat) (fts : list FtsRow) : list FtsRow :=
  filter (fun f => negb (f_rowid f =? rowid)) fts.

(** The row the triggers and [saveDocumentMetadata] insert: the content
    column starts empty. *)
Definition ftsRowOf (d : DocumentRow) : FtsRow :=
  {| f_rowid := d_rowid d; f_title := d_title d; f_content := [];
     f_tags := coalesce (d_tags d); f_summary := coalesce (d_summary d) |}.

(** Trigger [documents_ai]. *)
Definition documents_ai (new : DocumentRow) (fts : list FtsRow) : list FtsRow :=
  fts ++ [ftsRowOf new].

(** Trigger [documents_au]. *)
Definition documents_au (old new : DocumentRow) (fts : list FtsRow)
  : list FtsRow :=
  ftsDelete (d_rowid old) fts ++ [ftsRowOf new].

(** Trigger [documents_ad]. *)
Definition documents_ad (old : DocumentRow) (fts : list FtsRow) : list FtsRow :=
  ftsDelete (d_rowid old) fts.

(** [INSERT INTO documents (...) VALUES (...)] with its constraints (primary
    key, [UNIQUE] path) and trigger.  [row] carries no rowid yet. *)
Definition insertDocument (row : nat -> DocumentRow) (t : Tables)
  : Result Tables :=
  let new := row (nextRowid t) in
  if existsb (fun d => jsstring_eqb (d_id d) (d_id new)
                       || jsstring_eqb (d_path d) (d_path new)) (documents t)
  then Throw SqliteError
  else Ok (withFts (documents_ai new (documents_fts t))
             (withDocuments (documents t ++ [new]) t)).

(** [UPDATE documents SET ... WHERE id = ?] with its constraint and
    trigger. *)
Definition updateDocument (id : jsstring) (row : nat -> DocumentRow)
  (t : Tables) : Result Tables :=
  let hit d := jsstring_eqb (d_id d) id in
  if existsb (fun d => negb (hit d)
                       && jsstring_eqb (d_path d) (d_path (row 0)))
       (documents t)
  then Throw SqliteError
  else
    Ok (withFts
          (fold_left (fun fts d =>
                        if hit d then documents_au d (row (d_rowid d)) fts
                        else fts)
             (documents t) (documents_fts t))
          (withDocuments
             (map (fun d => if hit d then row (d_rowid d) else d)
                (documents t)) t)).

(** [INSERT INTO documents_fts(documents_fts, rowid, ...)
     VALUES('delete', (SELECT rowid FROM documents WHERE id = ?), ...)] *)
Definition ftsDeleteOf (id : jsstring) (t : Tables) : Result Tables :=
  match selectDocument id t with
  | Some d => Ok (withFts (ftsDelete (d_rowid d) (documents_fts t)) t)
  | None => Ok t
  end.

(** [INSERT INTO documents_fts(rowid, ...) SELECT rowid, title, '', ...
     FROM documents WHERE id = ?] *)
Definition ftsInsertOf (id : jsstring) (t : Tables) : Result Tables :=
  Ok (withFts
        (documents_fts t
         ++ map ftsRowOf
              (filter (fun d => jsstring_eqb (d_id d) id) (documents t)))
        t).

(** [UPDATE documents_fts SET content = content || ?
     WHERE rowid = (SELECT rowid FROM documents WHERE id = ?)].
    [documents_fts] is declared with [content='documents']: it keeps the
    index only and reads the text of a row from [documents].  An update
    reads the old values of the row, [content] among them, and [documents]
    has no column of that name: the statement fails whatever the row and
    whatever the text. *)
Definition ftsAppend (text : jsstring) (documentId : jsstring) (t : Tables)
  : Result Tables :=
  Throw SqliteError.

(** Some row of [documents] has the id: what [FOREIGN KEY (document_id)
    REFERENCES documents(id)] asks of a chunk row (the driver enforces
    foreign keys). *)
Definition hasDocument (id : jsstring) (t : Tables) : bool :=
  existsb (fun d => jsstring_eqb (d_id d) id) (documents t).

(** [ON DELETE CASCADE]: the chunk rows that are left when the document
    rows with the id go. *)
Definition cascade (id : jsstring) (t : Tables) : list ChunkRow :=
  if hasDocument id t
  then filter (fun c => negb (jsstring_eqb (c_document_id c) id))
         (document_chunks t)
  else document_chunks t.

(** [DELETE FROM documents WHERE id = ?]; also gives [changes]. *)
Definition deleteDocumentRow (id : jsstring) (t : Tables) : nat * Tables :=
  let hit d := jsstring_eqb (d_id d) id in
  (length (filter hit (documents t)),
   withChunks (cascade id t)
     (withFts
        (fold_left (fun fts d => if hit d then documents_ad d fts else fts)
           (documents t) (documents_fts t))
        (withDocuments (filter (fun d => negb (hit d)) (documents t)) t))).

(** *** document_chunks *)

Definition selectChunk (id : jsstring) (t : Tables) : option ChunkRow :=
  find (fun c => jsstring_eqb (c_id c) id) (document_chunks t).

(** [INSERT INTO document_chunks ...] with its primary key and its
    foreign key. *)
Definition insertChunk (row : ChunkRow) (t : Tables) : Result Tables :=
  if existsb (fun c => jsstring_eqb (c_id c) (c_id row)) (document_chunks t)
     || negb (hasDocument (c_document_id row) t)
  then Throw SqliteError
  else Ok (withChunks (document_chunks t ++ [row]) t).

(** [UPDATE document_chunks SET ... WHERE id = ?]: the foreign key is
    checked on the rows that are updated. *)
Definition updateChunk (row : ChunkRow) (t : Tables) : Result Tables :=
  let hit c := jsstring_eqb (c_id c) (c_id row) in
  if existsb hit (document_chunks t)
     && negb (hasDocument (c_document_id row) t)
  then Throw SqliteError
  else Ok (withChunks (map (fun c => if hit c then row else c)
                         (document_chunks t)) t).

(** [SELECT .. FROM document_chunks WHERE document_id = ?] *)
Definition chunksOf (documentId : jsstring) (t : Tables) : list ChunkRow :=
  filter (fun c => jsstring_eqb (c_document_id c) documentId)
    (document_chunks t).

(** [DELETE FROM document_chunks WHERE document_id = ?] *)
Definition deleteChunksOf (documentId : jsstring) (t : Tables) : Result Tables :=
  Ok (withChunks
        (filter (fun c => negb (jsstring_eqb (c_document_id c) documentId))
           (document_chunks t)) t).

(** *** concepts *)

Definition selectConcept (id : jsstring) (t : Tables) : option ConceptRow :=
  find (fun k => jsstring_eqb (k_id k) id) (concepts t).

(** [UPDATE concepts SET frequency = frequency + 1 WHERE id = ?] *)
Definition bumpFrequency (id : jsstring) (t : Tables) : Result Tables :=
  Ok (withConcepts
        (map (fun k =>
                if jsstring_eqb (k_id k) id
                then {| k_id := k_id k; k_name := k_name k;
                        k_type := k_type k;
                        k_description := k_description k;
                        k_frequency := k_frequency k + 1 |}
                else k)
           (concepts t)) t).

(** [INSERT INTO concepts ...]: primary key and [UNIQUE] name. *)
Definition insertConcept (row : ConceptRow) (t : Tables) : Result Tables :=
  if existsb (fun k => jsstring_eqb (k_id k) (k_id row)
                       || jsstring_eqb (k_name k) (k_name row)) (concepts t)
  then Throw SqliteError
  else Ok (withConcepts (concepts t ++ [row]) t).

(** *** relationships *)

Definition selectRelationship (id : jsstring) (t : Tables)
  : option RelationshipRow :=
  find (fun r => jsstring_eqb (r_id r) id) (relationships t).

(** Two rows clash on [UNIQUE(source_id, target_id, relationship_type)]. *)
Definition sameEdge (a b : RelationshipRow) : bool :=
  jsstring_eqb (r_source_id a) (r_source_id b)
  && jsstring_eqb (r_target_id a) (r_target_id b)
  && RelationshipType_eqb (r_relationship_type a) (r_relationship_type b).

Definition clashes (row r : RelationshipRow) : bool :=
  jsstring_eqb (r_id r) (r_id row) || sameEdge r row.

(** [INSERT OR REPLACE INTO relationships ...]: the clashing rows go. *)
Definition insertOrReplaceRelationship (row : RelationshipRow) (t : Tables)
  : Result Tables :=
  Ok (withRelationships
        (filter (fun r => negb (clashes row r)) (relationships t) ++ [row]) t).

(** [INSERT INTO relationships ...] *)
Definition insertRelationship (row : RelationshipRow) (t : Tables)
  : Result Tables :=
  if existsb (clashes row) (relationships t) then Throw SqliteError
  else Ok (withRelationships (relationships t ++ [row]) t).

(** [UPDATE relationships SET weight = weight + 0.5 WHERE id = ?] *)
Definition bumpWeight (id : jsstring) (t : Tables) : Result Tables :=
  Ok (withRelationships
        (map (fun r =>
                if jsstring_eqb (r_id r) id
                then {| r_id := r_id r; r_source_id := r_source_id r;
                        r_source_type := r_source_type r;
                        r_target_id := r_target_id r;
                        r_target_type := r_target_type r;
                        r_relationship_type := r_relationship_type r;
                        r_weight := r_weight r + (1 # 2) |}
                else r)
           (relationships t)) t).

(** [DELETE FROM relationships WHERE source_id = ? AND source_type =
    'DOCUMENT'] *)
Definition deleteRelationshipsOf (documentId : jsstring) (t : Tables)
  : Result Tables :=
  Ok (withRelationships
        (filter (fun r => negb (jsstring_eqb (r_source_id r) documentId
                                && jsstring_eqb (r_source_type r)
                                     (str "DOCUMENT")))
           (relationships t)) t).

End Sql.

(* ================================================================== *)
(** ** The service methods *)

Record IndexOptions := {
  generateEmbeddings : bool;
  extractKeyPointsOpt : bool;
  generateSummaryOpt : bool;
  tags : option (list jsstring)
}.

Module Service.

Import Json Sql.

Local Open Scope monad_scope.

Section WithEnv.

Variable env : Env.
Variable cfg : Config.

(** The model's input limit, and the size above which a document is
    summarised and mined for concepts slice by slice. *)
Definition embeddingInputLimit : nat := 8192.
Definition longDocument : nat := 10000.

(** [new Date()] *)
Definition newDate : M Date :=
  fun s => (Ok (clock s), setClock (clock s + 1)%N s).

(** [openAIService.sendChatMessage(messages, options)] *)
Definition sendChatMessage : M jsstring :=
  fun s =>
    match chat s with
    | ChatText text :: rest => (Ok text, setChat rest s)
    | ChatThrows :: rest => (Throw CollaboratorError, setChat rest s)
    | [] => (Throw CollaboratorError, s)
    end.

(** *** processFile *)

(** [content.split(/\s+/).filter(Boolean).length] *)
Fixpoint countWords (inWord : bool) (s : jsstring) : nat :=
  match s with
  | [] => 0
  | c :: r =>
      if isWhiteSpace c then countWords false r
      else if inWord then countWords true r
      else S (countWords true r)
  end.

Record PartialMetadata := {
  pm_size : nat;
  pm_created : Date;
  pm_modified : Date;
  pm_type : DocumentType;
  pm_pageCount : option nat;
  pm_author : option jsstring;
  pm_wordCount : nat
}.

Definition processFile (filePath : jsstring)
  : M (jsstring * PartialMetadata) :=
  match fsStat env filePath with
  | Some (FsFile info) =>
      match fi_read info with
      | Ok data =>
          ret (fd_content data,
               {| pm_size := fi_size info;
                  pm_created := fi_birthtime info;
                  pm_modified := fi_mtime info;
                  pm_type := fi_type info;
                  pm_pageCount := fd_pageCount data;
                  pm_author := fd_author data;
                  pm_wordCount := countWords false (fd_content data) |})
      | Throw _ => throw FileProcessingError
      end
  | _ => throw FileProcessingError
  end.

(** *** generateEmbedding *)

Definition initialize : M unit :=
  if pipelineLoads env then modify (setEmbeddingModel true)
  else throw KnowledgeBaseError.

Definition generateEmbedding (text : jsstring) : M (list Q) :=
  loaded <- gets embeddingModel ;;
  (if loaded then ret tt else initialize) ;;
  match embed env (firstn embeddingInputLimit text) with
  | Ok v => ret v
  | Throw _ => throw EmbeddingError
  end.

(** *** saveDocumentMetadata *)

(** [x || null] on an optional string. *)
Definition orNull (x : option jsstring) : option jsstring :=
  match x with Some [] => None | _ => x end.

(** [n || null] on an optional number. *)
Definition orNullNat (x : option nat) : option nat :=
  match x with Some O => None | _ => x end.

Definition documentRow (md : DocumentMetadata) (rowid : nat) : DocumentRow :=
  {| d_rowid := rowid;
     d_id := md_id md;
     d_title := md_title md;
     d_path := md_path md;
     d_type := md_type md;
     d_size := md_size md;
     d_created := md_created md;
     d_modified := md_modified md;
     d_indexed := md_indexed md;
     d_author := orNull (md_author md);
     d_tags := option_map stringifyStrings (md_tags md);
     d_summary := orNull (md_summary md);
     d_key_points := option_map stringifyStrings (md_keyPoints md);
     d_page_count := orNullNat (md_pageCount md);
     d_word_count := orNullNat (md_wordCount md) |}.

Definition saveDocumentMetadata (md : DocumentMetadata) : M unit :=
  tryCatch
    (existingDoc <- query (selectDocument (md_id md)) ;;
     match existingDoc with
     | Some _ => run (updateDocument (md_id md) (documentRow md))
     | None => run (insertDocument (documentRow md))
     end ;;
     run (ftsDeleteOf (md_id md)) ;;
     run (ftsInsertOf (md_id md)))
    (fun _ => throw DatabaseError).

(** *** saveDocumentChunk *)

Definition chunkRow (chunk : DocumentChunk) : ChunkRow :=
  {| c_id := ch_id chunk;
     c_document_id := ch_documentId chunk;
     c_content := ch_content chunk;
     c_index_num := ch_index chunk;
     c_metadata := option_map stringifyChunkMeta (ch_metadata chunk) |}.

Definition saveDocumentChunk (chunk : DocumentChunk) : M unit :=
  tryCatch
    (existingChunk <- query (selectChunk (ch_id chunk)) ;;
     match existingChunk with
     | Some _ => run (updateChunk (chunkRow chunk))
     | None => run (insertChunk (chunkRow chunk))
     end ;;
     run (ftsAppend (ch_content chunk ++ [SPACE]) (ch_documentId chunk)))
    (fun _ => throw DatabaseError).

(** *** splitTextIntoChunks *)

Definition splitStep (size overlap : nat) (st : list jsstring * jsstring)
  (paragraph : jsstring) : list jsstring * jsstring :=
  let (chunks, currentChunk) := st in
  if negb (JS.truthy (trim paragraph)) then st
  else if (size <? length currentChunk + length paragraph)
          && (0 <? length currentChunk)
  then (chunks ++ [currentChunk],
        if 0 <? overlap
        then join [SPACE] (lastN overlap (split SPACE currentChunk))
             ++ [SPACE] ++ paragraph
        else paragraph)
  else (chunks,
        currentChunk
          ++ (if JS.truthy currentChunk then [LF; LF] else []) ++ paragraph).

Definition splitTextIntoChunks (text : jsstring) (size overlap : nat)
  : list jsstring :=
  let (chunks, currentChunk) :=
    fold_left (splitStep size overlap) (splitBlankLines text) ([], []) in
  if JS.truthy (trim currentChunk) then chunks ++ [currentChunk] else chunks.

(** *** generateSummary and extractKeyPoints *)

(** The loop over the parts of a long document: the summaries, or [None]
    once a call has failed. *)
Fixpoint summarizeParts (parts : list jsstring) (summaries : list jsstring)
  : M (option (list jsstring)) :=
  match parts with
  | [] => ret (Some summaries)
  | _ :: rest =>
      r <- tryCatch (summary <- sendChatMessage ;; ret (Some summary))
             (fun _ => ret None) ;;
      match r with
      | Some summary => summarizeParts rest (summaries ++ [summary])
      | None => ret None
      end
  end.

Definition generateSummary (content : jsstring) : M jsstring :=
  if longDocument <? length content then
    r <- summarizeParts (splitTextIntoChunks content longDocument 0) [] ;;
    match r with
    | None => ret (extractiveSummary env content)
    | Some summaries =>
        if 1 <? length summaries then
          tryCatch sendChatMessage
            (fun _ => ret (join [LF; LF] summaries))
        else
          match summaries with
          | s0 :: _ =>
              ret (if JS.truthy s0 then s0 else extractiveSummary env content)
          | [] => ret (extractiveSummary env content)
          end
    end
  else
    tryCatch sendChatMessage (fun _ => ret (extractiveSummary env content)).

Definition extractKeyPoints (content : jsstring) : M (list jsstring) :=
  tryCatch
    (response <- sendChatMessage ;;
     let keyPoints := bulletPoints env response in
     ret (match keyPoints with
          | [] => extractiveKeyPoints env content
          | _ => keyPoints
          end))
    (fun _ => ret (extractiveKeyPoints env content)).

(** *** extractConcepts and processConceptsChunk *)

(** A string method called on a property value. *)
Definition stringMethod (f : jsstring -> jsstring) (v : option json)
  : Result jsstring :=
  match v with
  | Some (JStr s) => Ok (f s)
  | _ => Throw TypeError
  end.

(** What the driver accepts as the parameter [concept.description || null]. *)
Definition bindDescription (v : option json) : Result (option json) :=
  if truthy v then
    match v with
    | Some (JStr s) => Ok (Some (JStr s))
    | Some (JNum q) => Ok (Some (JNum q))
    | _ => Throw TypeError
    end
  else Ok None.

Definition containsId (documentId conceptId : jsstring) : jsstring :=
  sha256 env (documentId ++ str "_" ++ conceptId ++ str "_CONTAINS").

Definition relatedId (concept1Id concept2Id : jsstring) : jsstring :=
  sha256 env (concept1Id ++ str "_" ++ concept2Id ++ str "_RELATED").

Definition conceptIdOf (name : option json) : Result jsstring :=
  match stringMethod (toLowerCase env) name with
  | Ok lower => Ok (sha256 env lower)
  | Throw e => Throw e
  end.

Definition nameOf (v : option json) : jsstring :=
  match v with Some (JStr s) => s | _ => [] end.

(** Body of the loop over the extracted concepts. *)
Definition processConcept (documentId : jsstring) (concept : json) : M unit :=
  name <- liftResult (getProp concept (str "name")) ;;
  if negb (truthy name) then ret tt else
  type <- liftResult (getProp concept (str "type")) ;;
  if negb (truthy type) then ret tt else
  conceptId <- liftResult (conceptIdOf name) ;;
  existingConcept <- query (selectConcept conceptId) ;;
  match existingConcept with
  | Some _ => run (bumpFrequency conceptId)
  | None =>
      upper <- liftResult (stringMethod (toUpperCase env) type) ;;
      description <- liftResult (getProp concept (str "description")) ;;
      bound <- liftResult (bindDescription description) ;;
      run (insertConcept
             {| k_id := conceptId; k_name := nameOf name; k_type := upper;
                k_description := bound; k_frequency := 1 |})
  end ;;
  upper <- liftResult (stringMethod (toUpperCase env) type) ;;
  run (insertOrReplaceRelationship
         {| r_id := containsId documentId conceptId;
            r_source_id := documentId;
            r_source_type := str "DOCUMENT";
            r_target_id := conceptId;
            r_target_type := upper;
            r_relationship_type := CONTAINS;
            r_weight :=
              match existingConcept with
              | Some k => inject_Z (Z.of_nat (k_frequency k + 1))
              | None => 1
              end |}).

(** The pairs [(data[i], data[j])], [i < j], in loop order. *)
Fixpoint pairs {A} (l : list A) : list (A * A) :=
  match l with
  | [] => []
  | x :: r => map (pair x) r ++ pairs r
  end.

(** Body of the loop over the pairs of concepts. *)
Definition processPair (p : json * json) : M unit :=
  let (concept1, concept2) := p in
  name1 <- liftResult (getProp concept1 (str "name")) ;;
  if negb (truthy name1) then ret tt else
  name2 <- liftResult (getProp concept2 (str "name")) ;;
  if negb (truthy name2) then ret tt else
  concept1Id <- liftResult (conceptIdOf name1) ;;
  concept2Id <- liftResult (conceptIdOf name2) ;;
  let relationshipId := relatedId concept1Id concept2Id in
  existingRelationship <- query (selectRelationship relationshipId) ;;
  match existingRelationship with
  | Some _ => run (bumpWeight relationshipId)
  | None =>
      type1 <- liftResult (getProp concept1 (str "type")) ;;
      upper1 <- liftResult (stringMethod (toUpperCase env) type1) ;;
      type2 <- liftResult (getProp concept2 (str "type")) ;;
      upper2 <- liftResult (stringMethod (toUpperCase env) type2) ;;
      run (insertRelationship
             {| r_id := relationshipId;
                r_source_id := concept1Id;
                r_source_type := upper1;
                r_target_id := concept2Id;
                r_target_type := upper2;
                r_relationship_type := RELATED;
                r_weight := 1 |})
  end.

(** One extraction pass: the transaction over the parsed reply. *)
Definition graphMutation (documentId : jsstring) (conceptsData : list json)
  : M unit :=
  execBegin ;;
  forEach conceptsData (processConcept documentId) ;;
  forEach (pairs conceptsData) processPair ;;
  execCommit.

Definition processConceptsChunk (content documentId : jsstring) : M unit :=
  tryCatch
    (response <- sendChatMessage ;;
     tryCatch
       (match JSON_parse env response with
        | None => throw SyntaxError
        | Some (JArr conceptsData) => graphMutation documentId conceptsData
        | Some _ => ret tt
        end)
       (fun _ => execRollback))
    (fun _ => execRollback).

Definition extractConcepts (content documentId : jsstring) : M unit :=
  tryCatch
    (if longDocument <? length content
     then forEach (splitTextIntoChunks content longDocument 0)
            (fun chunk => processConceptsChunk chunk documentId)
     else processConceptsChunk content documentId)
    (fun _ => ret tt).

(** *** indexDocument *)

(** [index.upsert([{id, values, metadata}])] on the external index. *)
Definition vectorUpsert (entry : VectorEntry) (entries : list VectorEntry)
  : list VectorEntry :=
  filter (fun e => negb (jsstring_eqb (ve_id e) (ve_id entry))) entries
  ++ [entry].

Definition withEmbedding (chunk : DocumentChunk) (v : list Q) : DocumentChunk :=
  {| ch_id := ch_id chunk; ch_documentId := ch_documentId chunk;
     ch_content := ch_content chunk; ch_index := ch_index chunk;
     ch_embedding := Some v; ch_metadata := ch_metadata chunk |}.

(** Body of the loop over the chunks of a document. *)
Definition indexChunk (options : IndexOptions) (md : DocumentMetadata)
  (chunk : DocumentChunk) : M unit :=
  chunk' <-
    (if generateEmbeddings options then
       tryCatch
         (v <- generateEmbedding (ch_content chunk) ;;
          modify (fun s =>
                    match vectorStore s with
                    | Some entries =>
                        setVectorStore
                          (Some (vectorUpsert
                                   {| ve_id := ch_id chunk;
                                      ve_values := v;
                                      ve_documentId := ch_documentId chunk;
                                      ve_chunkIndex := ch_index chunk;
                                      ve_title := md_title md;
                                      ve_path := md_path md;
                                      ve_type := md_type md |} entries)) s
                    | None => s
                    end) ;;
          ret (withEmbedding chunk v))
         (fun _ => ret chunk)
     else ret chunk) ;;
  saveDocumentChunk chunk'.

Definition withSummary (md : DocumentMetadata) (x : jsstring)
  : DocumentMetadata :=
  {| md_id := md_id md; md_title := md_title md; md_path := md_path md;
     md_type := md_type md; md_size := md_size md;
     md_created := md_created md; md_modified := md_modified md;
     md_indexed := md_indexed md; md_author := md_author md;
     md_tags := md_tags md; md_summary := Some x;
     md_keyPoints := md_keyPoints md; md_pageCount := md_pageCount md;
     md_wordCount := md_wordCount md |}.

Definition withKeyPoints (md : DocumentMetadata) (x : list jsstring)
  : DocumentMetadata :=
  {| md_id := md_id md; md_title := md_title md; md_path := md_path md;
     md_type := md_type md; md_size := md_size md;
     md_created := md_created md; md_modified := md_modified md;
     md_indexed := md_indexed md; md_author := md_author md;
     md_tags := md_tags md; md_summary := md_summary md;
     md_keyPoints := Some x; md_pageCount := md_pageCount md;
     md_wordCount := md_wordCount md |}.

Definition indexDocument (filePath : jsstring) (options : IndexOptions)
  : M jsstring :=
  tryCatch
    (cm <- processFile filePath ;;
     let (content, metadata) := cm in
     let documentId := sha256 env filePath in
     indexed <- newDate ;;
     let documentMetadata :=
       {| md_id := documentId;
          md_title := basename env filePath;
          md_path := filePath;
          md_type := pm_type metadata;
          md_size := pm_size metadata;
          md_created := pm_created metadata;
          md_modified := pm_modified metadata;
          md_indexed := indexed;
          md_author := None;
          md_tags := Some (match tags options with Some l => l | None => [] end);
          md_summary := None;
          md_keyPoints := None;
          md_pageCount := pm_pageCount metadata;
          md_wordCount := Some (pm_wordCount metadata) |} in
     documentMetadata <-
       (if generateSummaryOpt options
        then x <- generateSummary content ;; ret (withSummary documentMetadata x)
        else ret documentMetadata) ;;
     documentMetadata <-
       (if extractKeyPointsOpt options
        then x <- extractKeyPoints content ;;
             ret (withKeyPoints documentMetadata x)
        else ret documentMetadata) ;;
     saveDocumentMetadata documentMetadata ;;
     forEach (Chunker.chunkDocument cfg content documentMetadata)
       (indexChunk options documentMetadata) ;;
     extractConcepts content documentId ;;
     ret documentId)
    (fun e =>
       if isKnowledgeBaseError e then throw e else throw KnowledgeBaseError).

(** *** getDocumentContent *)

(** [ORDER BY index_num]: a stable insertion sort of the selected rows. *)
Fixpoint insertByIndex (c : ChunkRow) (l : list ChunkRow) : list ChunkRow :=
  match l with
  | [] => [c]
  | d :: r =>
      if c_index_num c <=? c_index_num d then c :: d :: r
      else d :: insertByIndex c r
  end.

Definition orderByIndex (l : list ChunkRow) : list ChunkRow :=
  fold_right insertByIndex [] l.

Definition getDocumentContent (documentId : jsstring) : M jsstring :=
  tryCatch
    (chunks <- query (fun t => orderByIndex (chunksOf documentId t)) ;;
     ret (join [LF; LF] (map c_content chunks)))
    (fun _ => throw DatabaseError).

(** *** deleteDocument *)

(** [index.deleteMany(batch)] on the external index. *)
Definition vectorDeleteMany (ids : list jsstring)
  (entries : list VectorEntry) : list VectorEntry :=
  filter (fun e => negb (existsb (jsstring_eqb (ve_id e)) ids)) entries.

Definition deleteDocument (documentId : jsstring) : M bool :=
  tryCatch
    (execBegin ;;
     configured <- gets vectorStore ;;
     match configured with
     | Some _ =>
         tryCatch
           (chunks <- query (chunksOf documentId) ;;
            modify (fun s =>
                      match vectorStore s with
                      | Some entries =>
                          setVectorStore
                            (Some (vectorDeleteMany (map c_id chunks) entries))
                            s
                      | None => s
                      end))
           (fun _ => ret tt)
     | None => ret tt
     end ;;
     run (deleteRelationshipsOf documentId) ;;
     run (deleteChunksOf documentId) ;;
     changes <-
       (tick ;;
        fun s =>
          let (n, t) := deleteDocumentRow documentId (tables s) in
          (Ok n, setTables t s)) ;;
     execCommit ;;
     ret (0 <? changes))
    (fun _ => execRollback ;; throw DatabaseError).

(** *** searchDocuments *)

Section WithNumber.

Context {F : Type} {num : Number F}.

Record SearchResult := {
  sr_documentId : jsstring;
  sr_title : jsstring;
  sr_path : jsstring;
  sr_type : DocumentType;
  sr_relevance : F;
  sr_snippet : jsstring;
  sr_metadata : DocumentRow
}.

(** [x || y] on strings. *)
Definition orElse (x y : jsstring) : jsstring :=
  if JS.truthy x then x else y.

Definition fullTextSearch (text : jsstring) (options : SearchOptions)
  : M (list SearchResult) :=
  tryCatch
    (rows <- query (fun t => fullTextMatch env t text options) ;;
     ret (map (fun row =>
                 let '(d, snippet, rank) := row in
                 {| sr_documentId := d_id d;
                    sr_title := d_title d;
                    sr_path := d_path d;
                    sr_type := d_type d;
                    sr_relevance := fofQ (1 - rank);
                    sr_snippet :=
                      orElse snippet
                        (extractSnippet env (coalesce (d_summary d)) text);
                    sr_metadata := d |}) rows))
    (fun _ => throw KnowledgeBaseError).

(** Letters compare without case in [LIKE]. *)
Definition asciiLower (c : N) : N :=
  (if (65 <=? c) && (c <=? 90) then c + 32 else c)%N.

Fixpoint likePrefix (pattern s : jsstring) : bool :=
  match pattern, s with
  | [], _ => true
  | p :: pattern', c :: s' =>
      (asciiLower p =? asciiLower c)%N && likePrefix pattern' s'
  | _ :: _, [] => false
  end.

(** [s LIKE '%pattern%'] for a pattern without wildcards. *)
Fixpoint likeContains (pattern s : jsstring) : bool :=
  likePrefix pattern s
  || match s with
     | [] => false
     | _ :: r => likeContains pattern r
     end.

(** The text between the wildcards of the fallback's [LIKE]: the key
    [embedding] in quotes, then a colon. *)
Definition embeddingKey : jsstring :=
  [34%N] ++ str "embedding" ++ [34%N; 58%N].

(** [SELECT ... FROM document_chunks dc JOIN documents d
     ON dc.document_id = d.id WHERE dc.metadata LIKE ...] *)
Definition embeddingRows (t : Tables) : list (ChunkRow * DocumentRow) :=
  flat_map
    (fun c =>
       match c_metadata c with
       | Some m =>
           if likeContains embeddingKey m
           then map (pair c)
                  (filter (fun d => jsstring_eqb (d_id d) (c_document_id c))
                     (documents t))
           else []
       | None => []
       end)
    (document_chunks t).

(** The similarity of one row; every failure counts as [0]. *)
Definition similarityOf (queryEmbedding : list Q) (c : ChunkRow) : F :=
  match JSON_parse env (orElse (coalesce (c_metadata c)) (str "{}")) with
  | None => fzero
  | Some metadata =>
      match getProp metadata (str "embedding") with
      | Throw _ => fzero
      | Ok embedding =>
          match embedding with
          | Some (JArr items) =>
              match Vector.cosineSimilarity (map fofQ queryEmbedding)
                      (map fofJson items) with
              | Ok x => x
              | Throw _ => fzero
              end
          | _ => fzero
          end
      end
  end.

(** [results.sort((a, b) => b.similarity - a.similarity)]: stable. *)
Fixpoint insertBySimilarity {A} (x : A * F) (l : list (A * F))
  : list (A * F) :=
  match l with
  | [] => [x]
  | y :: r =>
      if flt (snd x) (snd y) then y :: insertBySimilarity x r
      else x :: y :: r
  end.

Definition sortBySimilarity {A} (l : list (A * F)) : list (A * F) :=
  fold_right insertBySimilarity [] l.

Definition includesType (types : list DocumentType) (t : DocumentType)
  : bool :=
  existsb (DocumentType_eqb t) types.

(** Body of the loop over the matches of the external index. *)
Definition hydrateMatch (text : jsstring) (acc : list SearchResult)
  (m : VectorEntry * Q) : M (list SearchResult) :=
  let (entry, score) := m in
  if negb (JS.truthy (ve_documentId entry)) then ret acc else
  document <- query (selectDocument (ve_documentId entry)) ;;
  match document with
  | None => ret acc
  | Some d =>
      chunk <- query (selectChunk (ve_id entry)) ;;
      ret (acc ++
           [{| sr_documentId := d_id d;
               sr_title := d_title d;
               sr_path := d_path d;
               sr_type := d_type d;
               sr_relevance := fofQ score;
               sr_snippet :=
                 extractSnippet env
                   (orElse (match chunk with
                            | Some c => c_content c
                            | None => []
                            end)
                      (coalesce (d_summary d))) text;
               sr_metadata := d |}])
  end.

Fixpoint foldM {A B} (f : B -> A -> M B) (l : list A) (acc : B) : M B :=
  match l with
  | [] => ret acc
  | x :: r => acc' <- f acc x ;; foldM f r acc'
  end.

Definition semanticSearch (text : jsstring) (options : SearchOptions)
  : M (list SearchResult) :=
  tryCatch
    (let limit := orDefault (so_limit options) 10 in
     let offset := orDefault (so_offset options) 0 in
     queryEmbedding <- generateEmbedding text ;;
     configured <- gets vectorStore ;;
     match configured with
     | Some entries =>
         let types :=
           match so_types options with
           | Some (t :: ts) => Some (t :: ts)
           | _ => None
           end in
         let matches :=
           vectorQuery env entries queryEmbedding (limit + offset) types in
         foldM (hydrateMatch text) (skipn offset matches) []
     | None =>
         chunks <- query embeddingRows ;;
         let filteredChunks :=
           match so_types options with
           | Some (t :: ts) =>
               filter (fun cd => includesType (t :: ts) (d_type (snd cd)))
                 chunks
           | _ => chunks
           end in
         let results :=
           map (fun cd => (cd, similarityOf queryEmbedding (fst cd)))
             filteredChunks in
         let sortedResults :=
           firstn limit (skipn offset (sortBySimilarity results)) in
         ret (map (fun r =>
                     let '((c, d), similarity) := r in
                     {| sr_documentId := c_document_id c;
                        sr_title := d_title d;
                        sr_path := d_path d;
                        sr_type := d_type d;
                        sr_relevance := similarity;
                        sr_snippet :=
                          extractSnippet env
                            (orElse (c_content c) (coalesce (d_summary d)))
                            text;
                        sr_metadata := d |}) sortedResults)
     end)
    (fun _ => throw KnowledgeBaseError).

Definition searchDocuments (text : jsstring) (options : SearchOptions)
  : M (list SearchResult) :=
  tryCatch
    (loaded <- gets embeddingModel ;;
     if so_useSemanticSearch options && loaded
     then semanticSearch text options
     else fullTextSearch text options)
    (fun _ => throw KnowledgeBaseError).

End WithNumber.

(** *** indexDirectory *)

Record DirectoryOptions := {
  do_recursive : bool;
  do_fileTypes : option (list DocumentType);
  do_generateEmbeddings : bool;
  do_extractKeyPoints : bool;
  do_generateSummary : bool;
  do_maxFiles : option nat;
  (* the callback; [false] when it throws on a snapshot *)
  do_onProgress : option (IndexingProgress -> bool)
}.

(** [detectFileType(path)]: never throws. *)
Definition detectFileType (path : jsstring) : DocumentType :=
  match fsStat env path with
  | Some (FsFile info) => fi_type info
  | _ => TUnknown
  end.

(** [getFilesInDirectory(dirPath, fileList, recursive)] on the node found
    at [dirPath]: the files pushed, or the failure of [readdirSync] or
    [statSync]. *)
Fixpoint getFilesInDirectory (dirPath : jsstring) (node : FsNode)
  (recursive : bool) : Result (list jsstring) :=
  match node with
  | FsDir entries =>
      (fix walk (es : list (jsstring * FsNode)) : Result (list jsstring) :=
         match es with
         | [] => Ok []
         | (file, child) :: rest =>
             let filePath := pathJoin env dirPath file in
             let here :=
               match child with
               | FsBroken => Throw FsError
               | FsDir _ =>
                   if recursive
                   then getFilesInDirectory filePath child recursive
                   else Ok []
               | FsFile _ => Ok [filePath]
               | FsSpecial => Ok []
               end in
             match here with
             | Throw e => Throw e
             | Ok found =>
                 match walk rest with
                 | Ok more => Ok (found ++ more)
                 | Throw e => Throw e
                 end
             end
         end) entries
  | _ => Throw FsError
  end.

(** The slices [filesToProcess.slice(i, i + batchSize)] of the batch
    loop. *)
Fixpoint batchesOf {A} (fuel size : nat) (l : list A) : list (list A) :=
  match fuel with
  | O => []
  | S fuel' =>
      match l with
      | [] => []
      | _ => firstn size l :: batchesOf fuel' size (skipn size l)
      end
  end.

Definition batches {A} (size : nat) (l : list A) : list (list A) :=
  batchesOf (length l) size l.

Definition withCounts (p : IndexingProgress) (tot done bad : nat)
  : IndexingProgress :=
  {| total := tot; processed := done; failed := bad; status := status p;
     error := error p; startTime := startTime p; endTime := endTime p |}.

Definition finished (p : IndexingProgress) (st : ProgressStatus)
  (err : option Error) (now : Date) : IndexingProgress :=
  {| total := total p; processed := processed p; failed := failed p;
     status := st; error := err; startTime := startTime p;
     endTime := Some now |}.

Definition updateProgress (f : IndexingProgress -> IndexingProgress)
  : M unit :=
  modify (fun s => setProgress (f (indexingProgress s)) s).

(** [if (options.onProgress) options.onProgress({...progress})] *)
Definition notify (options : DirectoryOptions) : M unit :=
  match do_onProgress options with
  | Some callback =>
      p <- gets indexingProgress ;;
      if callback p then ret tt else throw CallbackError
  | None => ret tt
  end.

(** One promise of a batch. *)
Definition indexOne (options : DirectoryOptions) (file : jsstring) : M unit :=
  tryCatch
    (indexDocument file
       {| generateEmbeddings := do_generateEmbeddings options;
          extractKeyPointsOpt := do_extractKeyPoints options;
          generateSummaryOpt := do_generateSummary options;
          tags := None |} ;;
     updateProgress (fun p =>
       withCounts p (total p) (processed p + 1) (failed p)))
    (fun _ =>
       updateProgress (fun p =>
         withCounts p (total p) (processed p) (failed p + 1))) ;;
  notify options.

(** [await Promise.all(promises)]: every promise of the batch runs to its
    end; the first rejection, if any, is what the batch throws. *)
Fixpoint awaitAll (options : DirectoryOptions) (batch : list jsstring)
  : M (option Error) :=
  match batch with
  | [] => ret None
  | file :: rest =>
      r <- tryCatch (indexOne options file ;; ret None)
             (fun e => ret (Some e)) ;;
      r' <- awaitAll options rest ;;
      ret (match r with Some e => Some e | None => r' end)
  end.

Definition runBatch (options : DirectoryOptions) (batch : list jsstring)
  : M unit :=
  r <- awaitAll options batch ;;
  match r with
  | Some e => throw e
  | None => ret tt
  end.

Definition indexDirectory (dirPath : jsstring) (options : DirectoryOptions)
  : M IndexingProgress :=
  match fsStat env dirPath with
  | None => throw KnowledgeBaseError
  | Some root =>
      start <- newDate ;;
      modify (setProgress
                {| total := 0; processed := 0; failed := 0;
                   status := Indexing; error := None;
                   startTime := Some start; endTime := None |}) ;;
      tryCatch
        (files <- liftResult
                    (getFilesInDirectory dirPath root
                       (do_recursive options)) ;;
         let filesToProcess :=
           match do_fileTypes options with
           | Some (t :: ts) =>
               filter (fun file =>
                         existsb (DocumentType_eqb (detectFileType file))
                           (t :: ts)) files
           | _ => files
           end in
         let filesToProcess :=
           match do_maxFiles options with
           | Some (S n) => firstn (S n) filesToProcess
           | _ => filesToProcess
           end in
         updateProgress (fun p =>
           withCounts p (length filesToProcess) (processed p) (failed p)) ;;
         notify options ;;
         forEach (batches (maxConcurrentProcessing cfg) filesToProcess)
           (runBatch options) ;;
         now <- newDate ;;
         updateProgress (fun p => finished p Completed None now) ;;
         gets indexingProgress)
        (fun e =>
           now <- newDate ;;
           updateProgress (fun p => finished p Failed (Some e) now) ;;
           throw KnowledgeBaseError)
  end.

End WithEnv.

End Service.

(* ================================================================== *)
(** ** A small knowledge base to run the service on *)

Module Sample.

Import Json.

(** A stand-in for the digest: one to one, and without underscore. *)
Definition digest (s : jsstring) : jsstring :=
  map (fun c => (c + 96)%N) s.

Definition lower (s : jsstring) : jsstring :=
  map (fun c => if (65 <=? c) && (c <=? 90) then c + 32 else c)%N s.

Definition upper (s : jsstring) : jsstring :=
  map (fun c => if (97 <=? c) && (c <=? 122) then c - 32 else c)%N s.

(** The reply that parses, and what it parses to: two concepts. *)
Definition conceptsReply : jsstring := str "[two concepts]".

Definition concept (name type : string) : json :=
  JObj [(str "name", JStr (str name)); (str "type", JStr (str type))].

Definition twoConcepts : json :=
  JArr [concept "Rocq" "topic"; concept "Proof" "concept"].

Definition parse (s : jsstring) : option json :=
  if jsstring_eqb s conceptsReply then Some twoConcepts else None.

Definition textData (content : string) : FileData :=
  {| fd_content := str content; fd_pageCount := None; fd_author := None |}.

Definition textInfo (content : string) : FileInfo :=
  {| fi_size := String.length content;
     fi_birthtime := 0%N;
     fi_mtime := 0%N;
     fi_type := TText;
     fi_read := Ok (textData content) |}.

Definition textFile (content : string) : FsNode := FsFile (textInfo content).

Definition files : list (jsstring * FsNode) :=
  [(str "a.txt", textFile "hello");
   (str "b.txt", textFile "alpha beta");
   (str "c.txt", textFile "gamma")].

Definition join2 (dir file : jsstring) : jsstring := dir ++ str "/" ++ file.

(** A directory whose only entry is a link to nothing. *)
Definition links : FsNode := FsDir [(str "gone", FsBroken)].

Definition stat (path : jsstring) : option FsNode :=
  if jsstring_eqb path (str "/kb") then Some (FsDir files)
  else if jsstring_eqb path (str "/links") then Some links
  else
    option_map snd
      (find (fun e => jsstring_eqb path (join2 (str "/kb") (fst e))) files).

Definition lastSegment (path : jsstring) : jsstring :=
  last (split 47%N path) [].

Definition env : Env :=
  {| sha256 := digest;
     toLowerCase := lower;
     toUpperCase := upper;
     JSON_parse := parse;
     basename := lastSegment;
     pathJoin := join2;
     fsStat := stat;
     pipelineLoads := true;
     embed := fun _ => Ok [1%Q; 0%Q];
     vectorQuery := fun _ _ _ _ => [];
     fullTextMatch := fun _ _ _ => [];
     extractiveSummary := fun content => content;
     extractiveKeyPoints := fun _ => [];
     bulletPoints := fun _ => [];
     extractSnippet := fun text _ => text |}.

(** The same files before ["/kb/a.txt"] got its text: the file is there,
    and empty. *)
Definition statBefore (path : jsstring) : option FsNode :=
  if jsstring_eqb path (str "/kb/a.txt") then Some (textFile "")
  else stat path.

Definition envBefore : Env :=
  {| sha256 := digest;
     toLowerCase := lower;
     toUpperCase := upper;
     JSON_parse := parse;
     basename := lastSegment;
     pathJoin := join2;
     fsStat := statBefore;
     pipelineLoads := true;
     embed := fun _ => Ok [1%Q; 0%Q];
     vectorQuery := fun _ _ _ _ => [];
     fullTextMatch := fun _ _ _ => [];
     extractiveSummary := fun content => content;
     extractiveKeyPoints := fun _ => [];
     bulletPoints := fun _ => [];
     extractSnippet := fun text _ => text |}.

Definition cfg : Config := mkConfig None None None.

Definition plain : IndexOptions :=
  {| generateEmbeddings := false; extractKeyPointsOpt := false;
     generateSummaryOpt := false; tags := None |}.

Definition withEmbeddings : IndexOptions :=
  {| generateEmbeddings := true; extractKeyPointsOpt := false;
     generateSummaryOpt := false; tags := None |}.

Definition aPath : jsstring := str "/kb/a.txt".

Definition wholeDirectory : Service.DirectoryOptions :=
  {| Service.do_recursive := false; Service.do_fileTypes := None;
     Service.do_generateEmbeddings := false;
     Service.do_extractKeyPoints := false;
     Service.do_generateSummary := false; Service.do_maxFiles := None;
     Service.do_onProgress := None |}.

(** The service after [indexDocument("/kb/a.txt")], called once and
    twice, with a completion service that does not answer: both calls
    throw, at the first chunk. *)
Definition indexedOnce : State :=
  Eval vm_compute in
    snd (Service.indexDocument env cfg aPath plain initialState).

Definition indexedTwice : State :=
  Eval vm_compute in
    snd (Service.indexDocument env cfg aPath plain indexedOnce).

(** The same with [generateEmbeddings], and no vector index configured. *)
Definition indexedWithEmbeddings : State :=
  Eval vm_compute in
    snd (Service.indexDocument env cfg aPath withEmbeddings initialState).

(** A service whose completion service answers with something that is
    not JSON, respectively with the two concepts. *)
Definition garbled : State := setChat [ChatText (str "Sorry, no.")] initialState.

Definition answering : State :=
  setChat [ChatText conceptsReply; ChatText conceptsReply] initialState.

(** ["/kb/a.txt"] indexed while it was empty, with a completion service
    that answers, and again once it held its text: the document, the row
    of its chunk, two concepts, and the edges between them. *)
Definition indexedWithConcepts : State :=
  Eval vm_compute in
    snd (Service.indexDocument env cfg aPath plain
           (snd (Service.indexDocument envBefore cfg aPath plain answering))).

(** The service after one and two extraction passes for ["/kb/a.txt"]. *)
Definition passedOnce : State :=
  Eval vm_compute in
    snd (Service.processConceptsChunk env (str "hello") (digest aPath)
           answering).

Definition passedTwice : State :=
  Eval vm_compute in
    snd (Service.processConceptsChunk env (str "hello") (digest aPath)
           passedOnce).

End Sample.

(* ================================================================== *)
(** ** Facts about strings *)

Module JSFacts.

Definition blank (s : jsstring) : bool := forallb isWhiteSpace s.

Lemma trimStart_nil_iff s : trimStart s = [] <-> blank s = true.
Proof.
  induction s as [|c r IH]; simpl.
  - tauto.
  - destruct (isWhiteSpace c) eqn:E; simpl.
    + exact IH.
    + split; discriminate.
Qed.

Lemma trimStart_head s c r :
  trimStart s = c :: r -> isWhiteSpace c = false.
Proof.
  induction s as [|d t IH]; simpl; [discriminate|].
  destruct (isWhiteSpace d) eqn:E; [exact IH|].
  intros H; injection H as -> _; exact E.
Qed.

Lemma blank_rev s : blank (rev s) = blank s.
Proof.
  unfold blank. induction s as [|c r IH]; simpl; [reflexivity|].
  rewrite forallb_app, IH; simpl. rewrite andb_true_r. apply andb_comm.
Qed.

Lemma blank_app a b : blank (a ++ b) = blank a && blank b.
Proof. apply forallb_app. Qed.

(** [!s.trim()] holds exactly for the strings made of white space only. *)
Lemma truthy_trim s : truthy (trim s) = negb (blank s).
Proof.
  unfold trim.
  destruct (trimStart s) as [|c r] eqn:E.
  - apply trimStart_nil_iff in E. rewrite E. reflexivity.
  - assert (Hc : isWhiteSpace c = false) by (eapply trimStart_head; eauto).
    assert (Hs : blank s = false).
    { destruct (blank s) eqn:B; [|reflexivity].
      apply trimStart_nil_iff in B. congruence. }
    rewrite Hs. simpl negb.
    destruct (trimStart (rev (c :: r))) as [|d u] eqn:E2.
    + apply trimStart_nil_iff in E2. rewrite blank_rev in E2.
      simpl in E2. rewrite Hc in E2. discriminate.
    + destruct (rev (d :: u)) eqn:E3; [|reflexivity].
      apply (f_equal (@rev N)) in E3. rewrite rev_involutive in E3.
      discriminate.
Qed.

Lemma blank_nil_or s : blank s = false -> s <> [].
Proof. intros H ->. discriminate. Qed.

(** *** Splitting on blank lines *)

Lemma spanWhite_blank s : blank (spanWhite s) = true.
Proof.
  unfold blank.
  induction s as [|c r IH]; simpl; [reflexivity|].
  destruct (isWhiteSpace c) eqn:E; simpl; [|reflexivity].
  rewrite E, IH. reflexivity.
Qed.

Lemma spanWhite_prefix s : exists t, s = spanWhite s ++ t.
Proof.
  induction s as [|c r [t IH]]; simpl.
  - exists []. reflexivity.
  - destruct (isWhiteSpace c).
    + exists t. simpl. f_equal. exact IH.
    + exists (c :: r). reflexivity.
Qed.

Lemma lastLF_bounds w k : lastLF w = Some k -> 1 <= k <= length w.
Proof.
  revert k. induction w as [|c r IH]; simpl; intros k; [discriminate|].
  destruct (lastLF r) as [j|].
  - intros H; injection H as <-. specialize (IH j eq_refl). lia.
  - destruct (c =? LF)%N; [|discriminate].
    intros H; injection H as <-. lia.
Qed.

(** A match of the separator has at least two code units, all white space,
    and lies inside the string. *)
Lemma matchBlankLine_spec c r n :
  matchBlankLine (c :: r) = Some n ->
  2 <= n /\ pred n <= length r /\
  isWhiteSpace c = true /\ blank (firstn (pred n) r) = true.
Proof.
  unfold matchBlankLine.
  destruct (c =? LF)%N eqn:Ec; [|discriminate].
  destruct (lastLF (spanWhite r)) as [k|] eqn:Ek; [|discriminate].
  intros H; injection H as <-.
  apply lastLF_bounds in Ek.
  destruct (spanWhite_prefix r) as [t Ht].
  assert (Hlen : length (spanWhite r) <= length r).
  { rewrite Ht at 2. rewrite length_app. lia. }
  apply N.eqb_eq in Ec. subst c.
  repeat split; try lia; simpl.
  rewrite Ht, firstn_app.
  replace (k - length (spanWhite r)) with 0 by lia.
  simpl. rewrite app_nil_r.
  pose proof (spanWhite_blank r) as Hb.
  rewrite <- (firstn_skipn k (spanWhite r)) in Hb.
  rewrite blank_app in Hb. apply andb_prop in Hb. tauto.
Qed.

(** Code units taken by a list of pieces that follow a separator. *)
Definition sepWeight (t : list jsstring) : nat :=
  fold_right (fun p acc => 2 + length p + acc) 0 t.

Lemma splitBlankGo_weight s : forall skip h t,
  skip <= length s ->
  splitBlankGo skip s = (h, t) ->
  length h + sepWeight t + skip <= length s.
Proof.
  induction s as [|c r IH]; intros skip h t Hs; cbn [splitBlankGo].
  - intros H; injection H as <- <-. simpl in *. lia.
  - destruct skip as [|k].
    + destruct (matchBlankLine (c :: r)) as [n|] eqn:Em.
      * apply matchBlankLine_spec in Em. destruct Em as (Hn & Hr & _ & _).
        destruct (splitBlankGo (pred n) r) as [h1 t1] eqn:E1.
        intros H; injection H as <- <-.
        specialize (IH _ _ _ Hr E1). simpl. lia.
      * destruct (splitBlankGo 0 r) as [h1 t1] eqn:E1.
        intros H; injection H as <- <-.
        specialize (IH 0 _ _ (Nat.le_0_l _) E1). simpl. lia.
    + intros H. simpl in Hs.
      specialize (IH k _ _ (proj2 (Nat.succ_le_mono _ _) Hs) H).
      simpl. lia.
Qed.

Lemma blank_cons c r : blank (c :: r) = isWhiteSpace c && blank r.
Proof. reflexivity. Qed.

Lemma splitBlankGo_blank s : forall skip h t,
  blank (firstn skip s) = true ->
  splitBlankGo skip s = (h, t) ->
  blank h = true -> forallb blank t = true ->
  blank s = true.
Proof.
  induction s as [|c r IH]; intros skip h t Hk; cbn [splitBlankGo];
    [reflexivity|].
  rewrite blank_cons.
  destruct skip as [|k].
  - destruct (matchBlankLine (c :: r)) as [n|] eqn:Em.
    + apply matchBlankLine_spec in Em. destruct Em as (_ & _ & Hc & Hb).
      destruct (splitBlankGo (pred n) r) as [h1 t1] eqn:E1.
      intros H; injection H as <- <-. intros _ Ht.
      cbn [forallb] in Ht.
      apply andb_prop in Ht. destruct Ht as [Hh1 Ht1].
      rewrite Hc. simpl. exact (IH _ _ _ Hb E1 Hh1 Ht1).
    + destruct (splitBlankGo 0 r) as [h1 t1] eqn:E1.
      intros H; injection H as <- <-. intros Hh Ht.
      rewrite blank_cons in Hh.
      apply andb_prop in Hh. destruct Hh as [Hc Hh1].
      rewrite Hc. simpl. exact (IH 0 _ _ eq_refl E1 Hh1 Ht).
  - cbn [firstn] in Hk. rewrite blank_cons in Hk.
    apply andb_prop in Hk. destruct Hk as [Hc Hk].
    intros H Hh Ht. rewrite Hc. simpl. exact (IH _ _ _ Hk H Hh Ht).
Qed.

(** A text that is not all white space has a paragraph that is not. *)
Lemma splitBlankLines_nonblank s :
  blank s = false -> forallb blank (splitBlankLines s) = false.
Proof.
  intros Hs. unfold splitBlankLines.
  destruct (splitBlankGo 0 s) as [h t] eqn:E.
  destruct (forallb blank (h :: t)) eqn:F; [|reflexivity].
  simpl in F. apply andb_prop in F. destruct F as [Fh Ft].
  rewrite (splitBlankGo_blank (skip:=0) eq_refl E Fh Ft) in Hs.
  discriminate.
Qed.

Lemma splitBlankLines_weight s :
  sepWeight (splitBlankLines s) <= length s + 2.
Proof.
  unfold splitBlankLines.
  destruct (splitBlankGo 0 s) as [h t] eqn:E.
  pose proof (splitBlankGo_weight (skip:=0) (Nat.le_0_l _) E).
  simpl. lia.
Qed.

(** *** Splitting on spaces and joining *)

Definition spaceFree (w : jsstring) : Prop := ~ In SPACE w.

Lemma splitOn_spaceFree s h t :
  splitOn SPACE s = (h, t) -> Forall spaceFree (h :: t).
Proof.
  revert h t. induction s as [|c r IH]; simpl; intros h t.
  - intros H; injection H as <- <-. repeat constructor. intros [].
  - destruct (splitOn SPACE r) as [h1 t1].
    specialize (IH _ _ eq_refl).
    destruct (c =? SPACE)%N eqn:Ec; intros H; injection H as <- <-.
    + constructor; [intros []|exact IH].
    + apply N.eqb_neq in Ec. inversion IH; subst.
      constructor; [|assumption].
      intros [Hc|Hc]; [congruence|contradiction].
Qed.

Lemma split_spaceFree s : Forall spaceFree (split SPACE s).
Proof.
  unfold split. destruct (splitOn SPACE s) as [h t] eqn:E.
  eapply splitOn_spaceFree; eauto.
Qed.

Lemma split_length_pos s : 1 <= length (split SPACE s).
Proof.
  unfold split. destruct (splitOn SPACE s). simpl. lia.
Qed.

Lemma splitOn_app_word w rest :
  spaceFree w ->
  splitOn SPACE (w ++ SPACE :: rest) = (w, split SPACE rest).
Proof.
  induction w as [|c r IH]; intros Hw; simpl.
  - unfold split. destruct (splitOn SPACE rest). reflexivity.
  - rewrite IH by (intros H; apply Hw; right; exact H).
    destruct (c =? SPACE)%N eqn:Ec; [|reflexivity].
    apply N.eqb_eq in Ec. exfalso. apply Hw. left. exact Ec.
Qed.

(** The words of [join " " ws ++ " " ++ rest] are [ws] followed by the words
    of [rest]. *)
Lemma split_join_app ws rest :
  Forall spaceFree ws ->
  split SPACE (join [SPACE] ws ++ [SPACE] ++ rest)
  = match ws with [] => [] :: split SPACE rest | _ => ws ++ split SPACE rest end.
Proof.
  induction ws as [|w t IH]; intros Hf.
  - simpl. unfold split. simpl.
    destruct (splitOn SPACE rest). reflexivity.
  - inversion Hf as [|? ? Hw Ht]; subst.
    destruct t as [|w2 t2].
    + simpl. unfold split at 1. rewrite (splitOn_app_word _ Hw). reflexivity.
    + specialize (IH Ht). cbv iota in IH.
      replace (join [SPACE] (w :: w2 :: t2) ++ [SPACE] ++ rest)
        with (w ++ SPACE :: (join [SPACE] (w2 :: t2) ++ [SPACE] ++ rest)).
      * unfold split at 1. rewrite (splitOn_app_word _ Hw), IH. reflexivity.
      * change (join [SPACE] (w :: w2 :: t2))
          with (w ++ [SPACE] ++ join [SPACE] (w2 :: t2)).
        rewrite <- !app_assoc. reflexivity.
Qed.

Lemma lastN_length {A} n (l : list A) :
  length (lastN n l) = Nat.min n (length l).
Proof. unfold lastN. rewrite length_skipn. lia. Qed.

Lemma Forall_lastN {A} (P : A -> Prop) n l :
  Forall P l -> Forall P (lastN n l).
Proof.
  unfold lastN. intros H. rewrite <- (firstn_skipn (length l - n) l) in H.
  apply Forall_app in H. tauto.
Qed.

End JSFacts.

(* ================================================================== *)
(** ** Facts about the chunker *)

Module ChunkerFacts.

Import JSFacts Chunker.

Section WithConfig.

Variable cfg : Config.

Definition nonblank (p : jsstring) : bool := negb (blank p).

(** What the loop builds as long as nothing overflows. *)
Definition appendPara (cur p : jsstring) : jsstring :=
  if blank p then cur
  else cur ++ (if truthy cur then [LF; LF] else []) ++ p.

(** The buffer and the paragraphs still to come fit in one chunk. *)
Definition fits (cur : jsstring) (ps : list jsstring) : Prop :=
  match cur with
  | [] => sepWeight ps <= chunkSize cfg + 2
  | _ => length cur + sepWeight ps <= chunkSize cfg
  end.

Lemma chunkStep_blank md st p :
  blank p = true -> chunkStep cfg md st p = st.
Proof.
  intros Hp. destruct st as [[chunks cur] idx]. unfold chunkStep.
  rewrite truthy_trim, Hp. reflexivity.
Qed.

Lemma chunkStep_nonblank md chunks cur idx p :
  blank p = false ->
  chunkStep cfg md (chunks, cur, idx) p =
  if (chunkSize cfg <? length cur + length p) && (0 <? length cur)
  then (chunks ++ [mkChunk md cur idx],
        overlapSeed cfg cur ++ [SPACE] ++ p, S idx)
  else (chunks, cur ++ (if truthy cur then [LF; LF] else []) ++ p, idx).
Proof.
  intros Hp. unfold chunkStep. rewrite truthy_trim, Hp. reflexivity.
Qed.

Lemma chunkLoop_fits md ps : forall chunks cur idx,
  fits cur ps ->
  fold_left (chunkStep cfg md) ps (chunks, cur, idx)
  = (chunks, fold_left appendPara ps cur, idx).
Proof.
  induction ps as [|p ps IH]; intros chunks cur idx Hf; [reflexivity|].
  cbn [fold_left]. unfold appendPara at 2.
  destruct (blank p) eqn:Hp.
  - rewrite chunkStep_blank by exact Hp. apply IH.
    unfold fits in *. simpl in Hf. destruct cur; lia.
  - rewrite chunkStep_nonblank by exact Hp.
    assert (Hno : (chunkSize cfg <? length cur + length p)
                  && (0 <? length cur) = false).
    { unfold fits in Hf. simpl in Hf. destruct cur as [|c r].
      - simpl. apply andb_false_r.
      - apply andb_false_intro1. apply Nat.ltb_ge. lia. }
    rewrite Hno. apply IH.
    unfold fits in *. simpl in Hf. destruct cur as [|c r].
    + apply blank_nil_or in Hp. destruct p; [congruence|]. simpl in *. lia.
    + simpl in *. rewrite !length_app. simpl. lia.
Qed.

Lemma join_cons sep x l :
  join sep (x :: l) = x ++ List.concat (map (app sep) l).
Proof.
  revert x. induction l as [|y l IH]; intros x.
  - simpl. rewrite app_nil_r. reflexivity.
  - change (join sep (x :: y :: l)) with (x ++ sep ++ join sep (y :: l)).
    rewrite IH. simpl. rewrite <- app_assoc. reflexivity.
Qed.

Lemma appendPara_fold_nonempty ps : forall cur,
  cur <> [] ->
  fold_left appendPara ps cur
  = cur ++ List.concat (map (app [LF; LF]) (filter nonblank ps)).
Proof.
  induction ps as [|p ps IH]; intros cur Hc; cbn [fold_left filter].
  - simpl. rewrite app_nil_r. reflexivity.
  - destruct cur as [|c r]; [congruence|].
    change (appendPara (c :: r) p)
      with (if blank p then c :: r else (c :: r) ++ [LF; LF] ++ p).
    unfold nonblank at 1. destruct (blank p); cbn [negb].
    + apply IH. discriminate.
    + rewrite IH by discriminate. cbn [map List.concat].
      rewrite <- !app_assoc. reflexivity.
Qed.

Lemma appendPara_fold_join ps :
  fold_left appendPara ps [] = join [LF; LF] (filter nonblank ps).
Proof.
  induction ps as [|p ps IH]; [reflexivity|].
  cbn [fold_left filter].
  change (appendPara [] p) with (if blank p then [] else p).
  unfold nonblank at 1.
  destruct (blank p) eqn:Hp; cbn [negb]; [exact IH|].
  rewrite appendPara_fold_nonempty by (apply blank_nil_or, Hp).
  rewrite join_cons. reflexivity.
Qed.

Lemma filter_nonblank_nil ps :
  filter nonblank ps = [] -> forallb blank ps = true.
Proof.
  induction ps as [|p ps IH]; simpl; [reflexivity|].
  unfold nonblank at 1. destruct (blank p); simpl; [exact IH|discriminate].
Qed.

(** A text that fits in one chunk gives one chunk: its paragraphs joined by
    a blank line. *)
Lemma chunkDocument_small text md :
  blank text = false ->
  length text <= chunkSize cfg ->
  chunkDocument cfg text md
  = [mkChunk md (join [LF; LF] (filter nonblank (splitBlankLines text))) 0].
Proof.
  intros Hb Hlen. unfold chunkDocument, chunkLoop.
  rewrite chunkLoop_fits.
  2:{ unfold fits. pose proof (splitBlankLines_weight text). lia. }
  rewrite appendPara_fold_join.
  destruct (filter nonblank (splitBlankLines text)) as [|p l] eqn:Ef.
  - apply filter_nonblank_nil in Ef.
    rewrite (splitBlankLines_nonblank Hb) in Ef. discriminate.
  - assert (Hp : nonblank p = true).
    { assert (Hin : In p (filter nonblank (splitBlankLines text)))
        by (rewrite Ef; left; reflexivity).
      apply filter_In in Hin. tauto. }
    rewrite truthy_trim, join_cons, blank_app.
    unfold nonblank in Hp. apply negb_true_iff in Hp. rewrite Hp.
    reflexivity.
Qed.

(** *** Overlap between neighbours *)

Definition seededBy (prev next : jsstring) : Prop :=
  exists rest, next = overlapSeed cfg prev ++ [SPACE] ++ rest.

Definition loopInv (md : DocumentMetadata) (st : LoopState) : Prop :=
  let '(chunks, cur, idx) := st in
  idx = length chunks /\
  (forall i c, nth_error chunks i = Some c ->
     c = mkChunk md (ch_content c) i) /\
  (forall i c c', nth_error chunks i = Some c ->
     nth_error chunks (S i) = Some c' ->
     seededBy (ch_content c) (ch_content c')) /\
  (forall c, nth_error chunks (pred (length chunks)) = Some c ->
     seededBy (ch_content c) cur).

Lemma nth_error_snoc {A} (l : list A) x i y :
  nth_error (l ++ [x]) i = Some y ->
  (i < length l /\ nth_error l i = Some y) \/ (i = length l /\ y = x).
Proof.
  intros H. destruct (Nat.lt_ge_cases i (length l)) as [Hlt|Hge].
  - left. rewrite nth_error_app1 in H by exact Hlt. tauto.
  - right. rewrite nth_error_app2 in H by exact Hge.
    destruct (i - length l) as [|k] eqn:E; simpl in H.
    + injection H as <-. split; [lia|reflexivity].
    + destruct k; discriminate.
Qed.

(** Pushing the buffer keeps the properties of the pushed chunks. *)
Lemma loopInv_push md chunks cur :
  (forall i c, nth_error chunks i = Some c ->
     c = mkChunk md (ch_content c) i) ->
  (forall i c c', nth_error chunks i = Some c ->
     nth_error chunks (S i) = Some c' ->
     seededBy (ch_content c) (ch_content c')) ->
  (forall c, nth_error chunks (pred (length chunks)) = Some c ->
     seededBy (ch_content c) cur) ->
  let chunks' := chunks ++ [mkChunk md cur (length chunks)] in
  (forall i c, nth_error chunks' i = Some c ->
     c = mkChunk md (ch_content c) i) /\
  (forall i c c', nth_error chunks' i = Some c ->
     nth_error chunks' (S i) = Some c' ->
     seededBy (ch_content c) (ch_content c')).
Proof.
  intros H1 H2 H3 chunks'. split.
  - intros i c Hc. apply nth_error_snoc in Hc.
    destruct Hc as [[_ Hc]|[-> ->]]; [apply H1, Hc|reflexivity].
  - intros i c c' Hc Hc'.
    apply nth_error_snoc in Hc. apply nth_error_snoc in Hc'.
    destruct Hc' as [[Hlt Hc']|[Hi ->]].
    + destruct Hc as [[_ Hc]|[Hi _]]; [|lia]. eapply H2; eauto.
    + destruct Hc as [[_ Hc]|[Hi' _]]; [|lia].
      simpl. apply H3. rewrite <- Hi. exact Hc.
Qed.

Lemma chunkStep_loopInv md st p :
  loopInv md st -> loopInv md (chunkStep cfg md st p).
Proof.
  destruct st as [[chunks cur] idx]. intros Hinv.
  destruct (blank p) eqn:Hp.
  { rewrite chunkStep_blank by exact Hp. exact Hinv. }
  rewrite chunkStep_nonblank by exact Hp.
  destruct Hinv as (Hidx & H1 & H2 & H3). subst idx.
  destruct ((chunkSize cfg <? length cur + length p) && (0 <? length cur)).
  - destruct (loopInv_push H1 H2 H3) as [H1' H2'].
    unfold loopInv. rewrite length_app. simpl.
    repeat split; try assumption; try lia.
    intros c Hc. replace (pred (length chunks + 1)) with (length chunks) in Hc
      by lia.
    rewrite nth_error_app2, Nat.sub_diag in Hc by lia.
    injection Hc as <-. simpl. exists p. reflexivity.
  - unfold loopInv. repeat split; try assumption.
    intros c Hc. destruct (H3 c Hc) as [rest Hrest].
    exists (rest ++ (if truthy cur then [LF; LF] else []) ++ p).
    rewrite Hrest at 1. rewrite <- !app_assoc. reflexivity.
Qed.

Lemma fold_invariant {A B} (P : A -> Prop) (f : A -> B -> A) l :
  (forall a b, P a -> P (f a b)) ->
  forall a, P a -> P (fold_left f l a).
Proof.
  intros Hf. induction l as [|b l IH]; intros a Ha; simpl; auto.
Qed.

Lemma chunkLoop_loopInv md ps : loopInv md (chunkLoop cfg md ps).
Proof.
  unfold chunkLoop. apply fold_invariant.
  - intros a b. apply chunkStep_loopInv.
  - simpl. repeat split; try reflexivity.
    + intros [|i] c H; discriminate.
    + intros [|i] c c' H; discriminate.
    + intros c H; discriminate.
Qed.

(** Every chunk carries its position as index, and a chunk that follows
    another starts with the overlap seed of that one. *)
Lemma chunkDocument_chain text md :
  let cs := chunkDocument cfg text md in
  (forall i c, nth_error cs i = Some c -> c = mkChunk md (ch_content c) i) /\
  (forall i c c', nth_error cs i = Some c -> nth_error cs (S i) = Some c' ->
     seededBy (ch_content c) (ch_content c')).
Proof.
  unfold chunkDocument.
  pose proof (chunkLoop_loopInv md (splitBlankLines text)) as Hinv.
  destruct (chunkLoop cfg md (splitBlankLines text)) as [[chunks cur] idx].
  destruct Hinv as (Hidx & H1 & H2 & H3). subst idx.
  destruct (truthy (trim cur)).
  - exact (loopInv_push H1 H2 H3).
  - split; assumption.
Qed.

(** The leading words of a seeded chunk are the trailing words of its
    predecessor. *)
Lemma seededBy_words prev next :
  seededBy prev next ->
  let ws := split SPACE prev in
  firstn (Nat.min (chunkOverlap cfg) (length ws)) (split SPACE next)
  = lastN (chunkOverlap cfg) ws.
Proof.
  intros [rest ->] ws. unfold overlapSeed. fold ws.
  assert (Hf : Forall spaceFree (lastN (chunkOverlap cfg) ws))
    by (apply Forall_lastN, split_spaceFree).
  rewrite (split_join_app _ Hf).
  pose proof (lastN_length (chunkOverlap cfg) ws) as Hl.
  destruct (lastN (chunkOverlap cfg) ws) as [|w t] eqn:E.
  - simpl in Hl. rewrite <- Hl. reflexivity.
  - rewrite <- Hl, <- E. rewrite firstn_app, Nat.sub_diag, firstn_all.
    simpl. apply app_nil_r.
Qed.

(** *** Paragraphs are kept whole *)

Definition Infix (p x : jsstring) : Prop :=
  exists pre post, x = pre ++ p ++ post.

(** [x] holds the paragraph [p] and nothing else but an overlap seed. *)
Definition Own (p x : jsstring) : Prop :=
  x = p \/ exists prev, x = overlapSeed cfg prev ++ [SPACE] ++ p.

Definition held (Q : jsstring -> jsstring -> Prop) (st : LoopState)
  (p : jsstring) : Prop :=
  let '(chunks, cur, _) := st in
  (exists c, In c chunks /\ Q p (ch_content c)) \/ Q p cur.

Lemma Infix_blank p x : Infix p x -> blank p = false -> blank x = false.
Proof.
  intros (pre & post & ->) Hp. rewrite !blank_app, Hp.
  rewrite andb_false_r. reflexivity.
Qed.

Lemma Own_Infix p x : Own p x -> Infix p x.
Proof.
  intros [->|[prev ->]].
  - exists [], []. rewrite app_nil_r. reflexivity.
  - exists (overlapSeed cfg prev ++ [SPACE]), [].
    rewrite app_nil_r, <- app_assoc. reflexivity.
Qed.

Lemma Own_length p x : Own p x -> length p <= length x.
Proof.
  intros H. apply Own_Infix in H. destruct H as (pre & post & ->).
  rewrite !length_app. lia.
Qed.

Lemma held_Infix_step md st p q :
  held Infix st p -> held Infix (chunkStep cfg md st q) p.
Proof.
  destruct st as [[chunks cur] idx]. intros H.
  destruct (blank q) eqn:Hq.
  { rewrite chunkStep_blank by exact Hq. exact H. }
  rewrite chunkStep_nonblank by exact Hq.
  destruct ((chunkSize cfg <? length cur + length q) && (0 <? length cur)).
  - left. destruct H as [(c & Hc & Hi)|Hi].
    + exists c. split; [apply in_or_app; left; exact Hc|exact Hi].
    + exists (mkChunk md cur idx). split; [|exact Hi].
      apply in_or_app. right. left. reflexivity.
  - destruct H as [H|(pre & post & ->)]; [left; exact H|].
    right. exists pre, (post ++ (if truthy (pre ++ p ++ post)
                                 then [LF; LF] else []) ++ q).
    rewrite <- !app_assoc. reflexivity.
Qed.

Lemma held_Infix_new md st q :
  blank q = false -> held Infix (chunkStep cfg md st q) q.
Proof.
  destruct st as [[chunks cur] idx]. intros Hq.
  rewrite chunkStep_nonblank by exact Hq.
  destruct ((chunkSize cfg <? length cur + length q) && (0 <? length cur)).
  - right. exists (overlapSeed cfg cur ++ [SPACE]), [].
    rewrite app_nil_r, <- app_assoc. reflexivity.
  - right. exists (cur ++ (if truthy cur then [LF; LF] else [])), [].
    rewrite app_nil_r, <- app_assoc. reflexivity.
Qed.

Lemma held_Own_step md st p q :
  chunkSize cfg < length p ->
  held Own st p -> held Own (chunkStep cfg md st q) p.
Proof.
  destruct st as [[chunks cur] idx]. intros Hlong H.
  destruct (blank q) eqn:Hq.
  { rewrite chunkStep_blank by exact Hq. exact H. }
  rewrite chunkStep_nonblank by exact Hq.
  destruct H as [(c & Hc & Hi)|Hi].
  - destruct ((chunkSize cfg <? length cur + length q) && (0 <? length cur)).
    + left. exists c. split; [apply in_or_app; left; exact Hc|exact Hi].
    + left. exists c. split; assumption.
  - pose proof (Own_length Hi) as Hl.
    assert (Hov : (chunkSize cfg <? length cur + length q)
                  && (0 <? length cur) = true).
    { apply andb_true_intro. split; apply Nat.ltb_lt; lia. }
    rewrite Hov. left. exists (mkChunk md cur idx). split; [|exact Hi].
    apply in_or_app. right. left. reflexivity.
Qed.

Lemma held_Own_new md st q :
  blank q = false -> chunkSize cfg < length q ->
  held Own (chunkStep cfg md st q) q.
Proof.
  destruct st as [[chunks cur] idx]. intros Hq Hlong.
  rewrite chunkStep_nonblank by exact Hq.
  destruct cur as [|c r].
  - cbn [length Nat.ltb Nat.leb]. rewrite andb_false_r.
    right. left. reflexivity.
  - assert (Hov : (chunkSize cfg <? length (c :: r) + length q)
                  && (0 <? length (c :: r)) = true).
    { apply andb_true_intro. split; apply Nat.ltb_lt; simpl; lia. }
    rewrite Hov. right. right. exists (c :: r). reflexivity.
Qed.

Lemma chunkLoop_held (Q : jsstring -> jsstring -> Prop) md p :
  (forall st q, held Q st p -> held Q (chunkStep cfg md st q) p) ->
  (forall st, held Q (chunkStep cfg md st p) p) ->
  forall ps st, In p ps -> held Q (fold_left (chunkStep cfg md) ps st) p.
Proof.
  intros Hstep Hnew. induction ps as [|q ps IH]; intros st Hin; [destruct Hin|].
  cbn [fold_left]. destruct Hin as [->|Hin].
  - apply fold_invariant; [intros a b; apply Hstep|apply Hnew].
  - apply IH, Hin.
Qed.

(** A paragraph held by the final loop state is in a returned chunk. *)
Lemma chunkDocument_held (Q : jsstring -> jsstring -> Prop) text md p :
  (forall x, Q p x -> Infix p x) ->
  blank p = false ->
  held Q (chunkLoop cfg md (splitBlankLines text)) p ->
  exists c, In c (chunkDocument cfg text md) /\ Q p (ch_content c).
Proof.
  intros HQ Hp. unfold chunkDocument.
  destruct (chunkLoop cfg md (splitBlankLines text)) as [[chunks cur] idx].
  intros [(c & Hc & Hi)|Hi].
  - exists c. split; [|exact Hi].
    destruct (truthy (trim cur)); [apply in_or_app; left|]; exact Hc.
  - rewrite truthy_trim, (Infix_blank (HQ _ Hi) Hp). simpl.
    exists (mkChunk md cur idx). split; [|exact Hi].
    apply in_or_app. right. left. reflexivity.
Qed.

Lemma chunkDocument_whole text md p :
  In p (splitBlankLines text) -> blank p = false ->
  exists c, In c (chunkDocument cfg text md) /\ Infix p (ch_content c).
Proof.
  intros Hin Hp. apply chunkDocument_held; auto.
  unfold chunkLoop. apply chunkLoop_held; auto.
  - intros st q. apply held_Infix_step.
  - intros st. apply held_Infix_new, Hp.
Qed.

Lemma chunkDocument_oversized text md p :
  In p (splitBlankLines text) -> blank p = false ->
  chunkSize cfg < length p ->
  exists c, In c (chunkDocument cfg text md) /\ Own p (ch_content c).
Proof.
  intros Hin Hp Hlong. apply chunkDocument_held; auto using Own_Infix.
  unfold chunkLoop. apply chunkLoop_held; auto.
  - intros st q. apply held_Own_step, Hlong.
  - intros st. apply held_Own_new; assumption.
Qed.

(** *** When a chunk is closed *)

(** The code units of the paragraphs that are kept. *)
Definition weight (ps : list jsstring) : nat :=
  list_sum (map (fun p : jsstring => length p) (filter nonblank ps)).

(** As long as no chunk was closed, the buffer holds all the paragraphs
    seen, and from the second paragraph on they fit in [S]. *)
Definition cutInv (ps : list jsstring) (st : LoopState) : Prop :=
  let '(chunks, cur, idx) := st in
  (filter nonblank ps <> [] -> blank cur = false) /\
  (chunks = [] ->
   weight ps <= length cur /\
   (2 <= length (filter nonblank ps) -> weight ps <= chunkSize cfg)).

Lemma chunkLoop_cutInv md ps : cutInv ps (chunkLoop cfg md ps).
Proof.
  induction ps as [|p ps IH] using rev_ind.
  - simpl. split; [intros H; destruct H; reflexivity|].
    intros _. unfold weight. simpl. split; [lia|intros; lia].
  - unfold chunkLoop in *. rewrite fold_left_app. cbn [fold_left].
    destruct (fold_left (chunkStep cfg md) ps ([], [], 0))
      as [[chunks cur] idx].
    destruct IH as [Hb Hw].
    assert (Hfil : filter nonblank (ps ++ [p])
                   = filter nonblank ps ++ (if blank p then [] else [p])).
    { rewrite filter_app. cbn [filter]. unfold nonblank at 2.
      destruct (blank p); reflexivity. }
    destruct (blank p) eqn:Hp.
    + rewrite chunkStep_blank by exact Hp. unfold cutInv, weight in *.
      rewrite Hfil, app_nil_r. split; assumption.
    + rewrite chunkStep_nonblank by exact Hp.
      destruct ((chunkSize cfg <? length cur + length p)
                && (0 <? length cur)) eqn:Hc; unfold cutInv, weight in *;
        rewrite Hfil, map_app, list_sum_app, length_app;
        cbn [map list_sum length].
      * split.
        { intros _. rewrite !blank_app, Hp, !andb_false_r. reflexivity. }
        intros Hnil. destruct chunks; discriminate.
      * split.
        { intros _. rewrite !blank_app, Hp, !andb_false_r. reflexivity. }
        intros Hnil. destruct (Hw Hnil) as [Hlen Hfit].
        rewrite !length_app.
        replace (list_sum [length p]) with (length p) by (simpl; lia).
        split; [lia|]. intros Htwo.
        assert (Hne : filter nonblank ps <> []).
        { intros E. rewrite E in Htwo. simpl in Htwo. lia. }
        pose proof (blank_nil_or (Hb Hne)) as Hcur.
        apply andb_false_iff in Hc. destruct Hc as [Hc|Hc].
        { apply Nat.ltb_ge in Hc. lia. }
        { apply Nat.ltb_ge in Hc.
          destruct cur; [congruence|simpl in Hc; lia]. }
Qed.

(** Two paragraphs or more that do not fit in [S] together give two chunks
    or more. *)
Lemma chunkDocument_cut text md :
  2 <= length (filter nonblank (splitBlankLines text)) ->
  chunkSize cfg < weight (splitBlankLines text) ->
  2 <= length (chunkDocument cfg text md).
Proof.
  intros Htwo Hlong. unfold chunkDocument.
  pose proof (chunkLoop_cutInv md (splitBlankLines text)) as Hinv.
  destruct (chunkLoop cfg md (splitBlankLines text)) as [[chunks cur] idx].
  destruct Hinv as [Hb Hw].
  assert (Hne : filter nonblank (splitBlankLines text) <> []).
  { intros E. rewrite E in Htwo. simpl in Htwo. lia. }
  rewrite truthy_trim, (Hb Hne). cbn [negb]. rewrite length_app. simpl.
  destruct chunks as [|c chunks]; [|simpl; lia].
  destruct (Hw eq_refl) as [_ Hfit]. specialize (Hfit Htwo). lia.
Qed.

(** [next] starts a chunk after [prev] was closed: the overlap seed of
    [prev], a space, and a paragraph that did not fit in [S] with [prev]. *)
Definition closedBy (ps : list jsstring) (prev next : jsstring) : Prop :=
  exists p rest,
    In p ps /\ blank p = false /\
    chunkSize cfg < length prev + length p /\
    next = overlapSeed cfg prev ++ [SPACE] ++ p ++ rest.

Definition closeInv (ps : list jsstring) (st : LoopState) : Prop :=
  let '(chunks, cur, idx) := st in
  (forall i c c', nth_error chunks i = Some c ->
     nth_error chunks (S i) = Some c' ->
     closedBy ps (ch_content c) (ch_content c')) /\
  (forall c, nth_error chunks (pred (length chunks)) = Some c ->
     closedBy ps (ch_content c) cur).

Lemma fold_invariant_in {A B} (P : A -> Prop) (f : A -> B -> A) l :
  forall l0, incl l0 l ->
  (forall a b, In b l -> P a -> P (f a b)) ->
  forall a, P a -> P (fold_left f l0 a).
Proof.
  induction l0 as [|b l0 IH]; intros Hin Hf a Ha; simpl; [exact Ha|].
  apply IH; [intros x Hx; apply Hin; right; exact Hx|exact Hf|].
  apply Hf; [apply Hin; left; reflexivity|exact Ha].
Qed.

Lemma chunkStep_closeInv md ps st p :
  In p ps -> closeInv ps st -> closeInv ps (chunkStep cfg md st p).
Proof.
  destruct st as [[chunks cur] idx]. intros Hin Hinv.
  destruct (blank p) eqn:Hp.
  { rewrite chunkStep_blank by exact Hp. exact Hinv. }
  rewrite chunkStep_nonblank by exact Hp.
  destruct Hinv as (H2 & H3).
  destruct ((chunkSize cfg <? length cur + length p) && (0 <? length cur))
    eqn:Hc.
  - apply andb_prop in Hc. destruct Hc as [Hc _]. apply Nat.ltb_lt in Hc.
    split.
    + intros i c c' Hi Hi'.
      apply nth_error_snoc in Hi. apply nth_error_snoc in Hi'.
      destruct Hi' as [[Hlt Hi']|[Hl ->]].
      * destruct Hi as [[_ Hi]|[Hl _]]; [|lia]. eapply H2; eauto.
      * destruct Hi as [[_ Hi]|[Hl' _]]; [|lia].
        simpl. apply H3. rewrite <- Hl. exact Hi.
    + intros c Hi. rewrite length_app in Hi. simpl in Hi.
      replace (pred (length chunks + 1)) with (length chunks) in Hi by lia.
      rewrite nth_error_app2, Nat.sub_diag in Hi by lia.
      injection Hi as <-. simpl. exists p, [].
      rewrite app_nil_r. auto.
  - split; [exact H2|].
    intros c Hi. destruct (H3 c Hi) as (q & rest & Hq & Hqb & Hlong & Hcur).
    exists q, (rest ++ (if truthy cur then [LF; LF] else []) ++ p).
    repeat split; try assumption.
    rewrite Hcur at 1. rewrite <- !app_assoc. reflexivity.
Qed.

(** A chunk is closed only when the next paragraph does not fit. *)
Lemma chunkDocument_closed text md i c c' :
  nth_error (chunkDocument cfg text md) i = Some c ->
  nth_error (chunkDocument cfg text md) (S i) = Some c' ->
  closedBy (splitBlankLines text) (ch_content c) (ch_content c').
Proof.
  unfold chunkDocument, chunkLoop.
  assert (Hinv : closeInv (splitBlankLines text)
                   (fold_left (chunkStep cfg md) (splitBlankLines text)
                      ([], [], 0))).
  { apply fold_invariant_in with (l := splitBlankLines text).
    - apply incl_refl.
    - intros a b Hb. apply chunkStep_closeInv. exact Hb.
    - split; [intros j x y Hx; destruct j; discriminate|].
      intros x Hx. discriminate. }
  destruct (fold_left _ _ _) as [[chunks cur] idx].
  destruct Hinv as [H2 H3].
  destruct (truthy (trim cur)); [|apply H2].
  intros Hi Hi'.
  apply nth_error_snoc in Hi. apply nth_error_snoc in Hi'.
  destruct Hi' as [[Hlt Hi']|[Hl ->]].
  - destruct Hi as [[_ Hi]|[Hl _]]; [|lia]. eapply H2; eauto.
  - destruct Hi as [[_ Hi]|[Hl' _]]; [|lia].
    simpl. apply H3. rewrite <- Hl. exact Hi.
Qed.

(** *** The boundaries depend on the text and the configuration only *)

Definition shape (st : LoopState) : list jsstring * jsstring * nat :=
  let '(chunks, cur, idx) := st in (map ch_content chunks, cur, idx).

Lemma chunkStep_shape md md' st st' p :
  shape st = shape st' ->
  shape (chunkStep cfg md st p) = shape (chunkStep cfg md' st' p).
Proof.
  destruct st as [[chunks cur] idx], st' as [[chunks' cur'] idx'].
  simpl. intros H. injection H as Hc -> ->.
  unfold chunkStep.
  destruct (negb (truthy (trim p))); [simpl; congruence|].
  destruct ((chunkSize cfg <? length cur' + length p) && (0 <? length cur'));
    simpl; [|congruence].
  rewrite !map_app, Hc. reflexivity.
Qed.

Lemma chunkDocument_contents text md md' :
  map ch_content (chunkDocument cfg text md')
  = map ch_content (chunkDocument cfg text md).
Proof.
  unfold chunkDocument, chunkLoop.
  assert (H : forall ps st st', shape st = shape st' ->
            shape (fold_left (chunkStep cfg md') ps st)
            = shape (fold_left (chunkStep cfg md) ps st')).
  { induction ps as [|q ps IH]; intros st st' Hs; [exact Hs|].
    cbn [fold_left]. apply IH, chunkStep_shape, Hs. }
  specialize (H (splitBlankLines text) ([], [], 0) ([], [], 0) eq_refl).
  destruct (fold_left (chunkStep cfg md') _ _) as [[c1 cur1] i1].
  destruct (fold_left (chunkStep cfg md) _ _) as [[c2 cur2] i2].
  simpl in H. injection H as Hc -> ->.
  destruct (truthy (trim cur2)); [|exact Hc].
  rewrite !map_app, Hc. reflexivity.
Qed.

End WithConfig.

(** C1: what [chunkDocument] does with chunk size [S] (code units) and
    overlap [O] (words).  A text with a character that is not white space and
    at most [S] code units gives exactly one chunk, its paragraphs joined by a
    blank line.  Chunks are numbered by position.  Whenever a chunk follows
    another, its leading [min O w] space-separated words are the trailing
    words of its predecessor, [w] being the predecessor's word count.  Every
    paragraph is contained whole in some chunk, and a paragraph longer than
    [S] is alone in its chunk but for the overlap seed in front of it.  A
    text with two paragraphs or more (blank ones apart) whose lengths total
    more than [S] gives two chunks or more; and a chunk is closed only when
    the next paragraph does not fit: the chunk after it is its overlap seed,
    a space and a paragraph that takes the closed chunk over [S], and what
    was appended after.  The chunk texts depend on the text and the
    configuration only. *)
Theorem chunkDocument_behaviour :
  forall (cfg : Config) (text : jsstring) (md : DocumentMetadata),
  let cs := chunkDocument cfg text md in
  (blank text = false -> length text <= chunkSize cfg ->
     cs = [mkChunk md
             (join [LF; LF] (filter nonblank (splitBlankLines text))) 0]) /\
  (forall i c, nth_error cs i = Some c ->
     ch_index c = i /\ ch_documentId c = md_id md) /\
  (forall i c c', nth_error cs i = Some c -> nth_error cs (S i) = Some c' ->
     let ws := split SPACE (ch_content c) in
     firstn (Nat.min (chunkOverlap cfg) (length ws))
            (split SPACE (ch_content c'))
     = lastN (chunkOverlap cfg) ws) /\
  (forall p, In p (splitBlankLines text) -> blank p = false ->
     exists c, In c cs /\ Infix p (ch_content c)) /\
  (forall p, In p (splitBlankLines text) -> blank p = false ->
     chunkSize cfg < length p ->
     exists c, In c cs /\ Own cfg p (ch_content c)) /\
  (2 <= length (filter nonblank (splitBlankLines text)) ->
   chunkSize cfg < weight (splitBlankLines text) ->
   2 <= length cs) /\
  (forall i c c', nth_error cs i = Some c -> nth_error cs (S i) = Some c' ->
     exists p rest,
       In p (splitBlankLines text) /\ blank p = false /\
       chunkSize cfg < length (ch_content c) + length p /\
       ch_content c'
       = overlapSeed cfg (ch_content c) ++ [SPACE] ++ p ++ rest) /\
  (forall md', map ch_content (chunkDocument cfg text md')
               = map ch_content cs).
Proof.
  intros cfg text md cs.
  destruct (chunkDocument_chain cfg text md) as [Hidx Hseed].
  split; [apply chunkDocument_small|].
  split.
  { intros i c Hc. rewrite (Hidx i c Hc). split; reflexivity. }
  split.
  { intros i c c' Hc Hc'. apply seededBy_words. eapply Hseed; eauto. }
  split; [intros p; apply chunkDocument_whole|].
  split; [intros p; apply chunkDocument_oversized|].
  split; [apply chunkDocument_cut|].
  split; [intros i c c'; apply chunkDocument_closed|].
  intros md'. apply chunkDocument_contents.
Qed.

Definition sampleMetadata : DocumentMetadata :=
  {| md_id := str "doc"; md_title := str "notes.txt";
     md_path := str "/kb/notes.txt"; md_type := TText; md_size := 0;
     md_created := 0%N; md_modified := 0%N; md_indexed := 0%N;
     md_author := None; md_tags := None; md_summary := None;
     md_keyPoints := None; md_pageCount := None; md_wordCount := None |}.

(** The chunks of a three-paragraph text with [S = 12] and [O = 2]: the
    second and third chunk start with the last two words of the one before. *)
Example chunkDocument_sample :
  map ch_content
    (chunkDocument (mkConfig (Some 12) (Some 2) None)
       (str "ab cd ef" ++ [LF; LF] ++ str "gh ij" ++ [LF; LF] ++ str "kl")
       sampleMetadata)
  = [str "ab cd ef"; str "cd ef gh ij"; str "gh ij kl"].
Proof. vm_compute. reflexivity. Qed.

Lemma chunkDocument_behaviour_witness :
  (blank (str "hello world") = false /\
   length (str "hello world") <= chunkSize (mkConfig None None None) /\
   chunkDocument (mkConfig None None None) (str "hello world") sampleMetadata
   = [mkChunk sampleMetadata
        (join [LF; LF]
           (filter nonblank (splitBlankLines (str "hello world"))))
        0]) /\
  2 <= length
         (chunkDocument (mkConfig (Some 12) (Some 2) None)
            (str "ab cd ef" ++ [LF; LF] ++ str "gh ij" ++ [LF; LF]
             ++ str "kl")
            sampleMetadata).
Proof.
  split.
  - split; [reflexivity|]. split; [vm_compute; lia|].
    apply (chunkDocument_behaviour (mkConfig None None None)
             (str "hello world") sampleMetadata).
    + reflexivity.
    + vm_compute; lia.
  - apply (chunkDocument_behaviour (mkConfig (Some 12) (Some 2) None)
             (str "ab cd ef" ++ [LF; LF] ++ str "gh ij" ++ [LF; LF]
              ++ str "kl")
             sampleMetadata).
    + vm_compute; lia.
    + vm_compute; lia.
Defined.

(** C1 as stated fails: a text longer than [S] that is one paragraph gives
    one chunk, not two. *)
Lemma chunkDocument_long_single_chunk :
  let cfg := mkConfig (Some 5) (Some 2) None in
  let text := str "abcdefgh" in
  ~ (chunkSize cfg < length text ->
     2 <= length (chunkDocument cfg text sampleMetadata)).
Proof.
  intros cfg text H.
  assert (Hlen : chunkSize cfg < length text) by (vm_compute; lia).
  specialize (H Hlen). vm_compute in H. lia.
Qed.

(** A text of white space only is not empty and gives no chunk at all. *)
Example chunkDocument_blank_text :
  chunkDocument (mkConfig None None None) (str "  ") sampleMetadata = [].
Proof. reflexivity. Qed.

End ChunkerFacts.

(* ================================================================== *)
(** ** Cosine similarity over the reals *)

Module VectorFacts.

Import Vector.

Local Open Scope R_scope.

Definition sumProducts (l : list (R * R)) : R :=
  fold_right (fun xy acc => fst xy * snd xy + acc) 0 l.

Definition sumSquares (v : list R) : R :=
  fold_right (fun x acc => x * x + acc) 0 v.

Definition isZeroVector (v : list R) : Prop := Forall (fun x => x = 0) v.

Lemma accumulate_fold (l : list (R * R)) : forall d a b,
  fold_left accumulate l (d, a, b)
  = (d + sumProducts l,
     a + sumSquares (map fst l),
     b + sumSquares (map snd l)).
Proof.
  induction l as [|[x y] l IH]; intros d a b; simpl.
  - rewrite !Rplus_0_r. reflexivity.
  - rewrite IH. f_equal; [f_equal|]; ring.
Qed.

Lemma map_fst_combine (a b : list R) :
  length a = length b -> map fst (combine a b) = a.
Proof.
  revert b. induction a as [|x a IH]; intros [|y b] H; simpl in *;
    try discriminate; [reflexivity|].
  f_equal. apply IH. congruence.
Qed.

Lemma map_snd_combine (a b : list R) :
  length a = length b -> map snd (combine a b) = b.
Proof.
  revert b. induction a as [|x a IH]; intros [|y b] H; simpl in *;
    try discriminate; [reflexivity|].
  f_equal. apply IH. congruence.
Qed.

Lemma cosineSimilarity_unfold (a b : list R) :
  length a = length b ->
  cosineSimilarity a b =
  if fisZero (sumSquares a) || fisZero (sumSquares b) then Ok 0
  else Ok (sumProducts (combine a b)
           / (sqrt (sumSquares a) * sqrt (sumSquares b))).
Proof.
  intros H. unfold cosineSimilarity.
  rewrite (proj2 (Nat.eqb_eq _ _) H). cbn [negb].
  cbn [fzero RNumber]. rewrite accumulate_fold.
  rewrite (map_fst_combine H), (map_snd_combine H), !Rplus_0_l.
  reflexivity.
Qed.

Lemma sumSquares_nonneg v : 0 <= sumSquares v.
Proof.
  induction v as [|x v IH]; simpl; [lra|].
  pose proof (Rle_0_sqr x) as Hx. unfold Rsqr in Hx. lra.
Qed.

Lemma sumSquares_zero v : isZeroVector v -> sumSquares v = 0.
Proof.
  induction 1 as [|x v Hx _ IH]; simpl; [reflexivity|].
  rewrite Hx, IH. ring.
Qed.

Lemma sumSquares_pos v : ~ isZeroVector v -> 0 < sumSquares v.
Proof.
  induction v as [|x v IH]; intros Hnz; simpl.
  - exfalso. apply Hnz. constructor.
  - pose proof (sumSquares_nonneg v) as Hv.
    pose proof (Rle_0_sqr x) as Hx. unfold Rsqr in Hx.
    destruct (Req_dec_T x 0) as [->|Hx0].
    + assert (0 < sumSquares v); [|lra].
      apply IH. intros Hz. apply Hnz. constructor; [reflexivity|exact Hz].
    + assert (0 < x * x); [|lra].
      apply Rsqr_pos_lt in Hx0. exact Hx0.
Qed.

Lemma sumSquares_opp v : sumSquares (map Ropp v) = sumSquares v.
Proof.
  induction v as [|x v IH]; simpl; [reflexivity|]. rewrite IH. ring.
Qed.

Lemma sumProducts_self v : sumProducts (combine v v) = sumSquares v.
Proof.
  induction v as [|x v IH]; simpl; [reflexivity|]. rewrite IH. reflexivity.
Qed.

Lemma sumProducts_opp v :
  sumProducts (combine v (map Ropp v)) = - sumSquares v.
Proof.
  induction v as [|x v IH]; simpl; [ring|]. rewrite IH. ring.
Qed.

Lemma fisZero_R x : fisZero x = true <-> x = 0.
Proof.
  cbn [fisZero RNumber]. destruct (Req_dec_T x 0); split; congruence.
Qed.

Lemma fisZero_pos x : 0 < x -> fisZero x = false.
Proof.
  intros H. destruct (fisZero x) eqn:E; [|reflexivity].
  apply fisZero_R in E. lra.
Qed.

(** In exact arithmetic, [cosineSimilarity] of two vectors of equal
    length is [0] as soon as one of them is the zero vector, and for a vector
    [v] that is not the zero vector [cosineSimilarity(v, v) = 1] and
    [cosineSimilarity(v, -v) = -1]. *)
Lemma cosineSimilarity_real :
  (forall a b : list R, length a = length b ->
     isZeroVector a \/ isZeroVector b -> cosineSimilarity a b = Ok 0) /\
  (forall v : list R, ~ isZeroVector v ->
     cosineSimilarity v v = Ok 1 /\
     cosineSimilarity v (map Ropp v) = Ok (-1)).
Proof.
  split.
  - intros a b Hlen Hz. rewrite (cosineSimilarity_unfold Hlen).
    destruct Hz as [Hz|Hz]; apply sumSquares_zero in Hz; rewrite Hz.
    + rewrite (proj2 (fisZero_R 0) eq_refl). reflexivity.
    + rewrite (proj2 (fisZero_R 0) eq_refl), orb_true_r. reflexivity.
  - intros v Hnz. pose proof (sumSquares_pos Hnz) as Hpos.
    assert (Hsq : sqrt (sumSquares v) * sqrt (sumSquares v) = sumSquares v)
      by (apply sqrt_sqrt; lra).
    split.
    + rewrite (cosineSimilarity_unfold eq_refl).
      rewrite (fisZero_pos Hpos). cbn [orb].
      rewrite sumProducts_self, Hsq. f_equal. field. lra.
    + rewrite (cosineSimilarity_unfold (eq_sym (length_map Ropp v))).
      rewrite sumSquares_opp, (fisZero_pos Hpos). cbn [orb].
      rewrite sumProducts_opp, Hsq. f_equal. field. lra.
Qed.

(** Vectors of different lengths are refused. *)
Example cosineSimilarity_length_mismatch :
  cosineSimilarity [1] [1; 2] = Throw PlainError.
Proof. reflexivity. Qed.

End VectorFacts.

(* ================================================================== *)
(** ** Cosine similarity in binary64 *)

Module Binary64Facts.

Import Vector.
Import Stdlib.Floats.Floats.

(** Every component is [0] or [-0]. *)
Definition isZeroVector (v : list float) : Prop :=
  Forall (fun x => x = 0%float \/ x = (-0)%float) v.

(** Some component is neither zero nor [NaN]. *)
Definition hasNonZero (v : list float) : bool :=
  existsb (fun x => PrimFloat.ltb 0 (PrimFloat.abs x)) v.

(** The squares of a zero vector sum to [0], whatever else is summed. *)
Lemma accumulate_zero_left (l : list (float * float)) : forall d nb,
  Forall (fun xy => fst xy = 0%float \/ fst xy = (-0)%float) l ->
  exists d' nb',
    fold_left accumulate l (d, 0%float, nb) = (d', 0%float, nb').
Proof.
  induction l as [|[x y] l IH]; intros d nb Hz; cbn [fold_left].
  - eauto.
  - inversion Hz as [|? ? Hx Hl]; subst. cbn [fst] in Hx.
    cbn [accumulate fadd fmul Binary64].
    destruct Hx as [-> | ->]; apply IH; exact Hl.
Qed.

Lemma accumulate_zero_right (l : list (float * float)) : forall d na,
  Forall (fun xy => snd xy = 0%float \/ snd xy = (-0)%float) l ->
  exists d' na',
    fold_left accumulate l (d, na, 0%float) = (d', na', 0%float).
Proof.
  induction l as [|[x y] l IH]; intros d na Hz; cbn [fold_left].
  - eauto.
  - inversion Hz as [|? ? Hy Hl]; subst. cbn [snd] in Hy.
    cbn [accumulate fadd fmul Binary64].
    destruct Hy as [-> | ->]; apply IH; exact Hl.
Qed.

Lemma combine_zero_left (a : list float) : forall b : list float,
  isZeroVector a ->
  Forall (fun xy => fst xy = 0%float \/ fst xy = (-0)%float) (combine a b).
Proof.
  induction a as [|x a IH]; intros [|y b] Hz; cbn [combine];
    try constructor; inversion Hz; subst; auto.
Qed.

Lemma combine_zero_right (a : list float) : forall b : list float,
  isZeroVector b ->
  Forall (fun xy => snd xy = 0%float \/ snd xy = (-0)%float) (combine a b).
Proof.
  induction a as [|x a IH]; intros [|y b] Hz; cbn [combine];
    try constructor; inversion Hz; subst; auto.
Qed.

(** In binary64 too the similarity with a zero vector is [0]. *)
Lemma cosineSimilarity_zero (a b : list float) :
  length a = length b -> isZeroVector a \/ isZeroVector b ->
  cosineSimilarity a b = Ok 0%float.
Proof.
  intros Hlen Hz. unfold cosineSimilarity.
  rewrite (proj2 (Nat.eqb_eq _ _) Hlen). cbn [negb fzero Binary64].
  unfold PrimFloat.zero. destruct Hz as [Hz|Hz].
  - destruct (accumulate_zero_left 0%float 0%float
                (combine_zero_left b Hz)) as (d & nb & ->).
    reflexivity.
  - destruct (accumulate_zero_right 0%float 0%float
                (combine_zero_right a Hz)) as (d & na & ->).
    cbn [fisZero Binary64].
    change (PrimFloat.eqb 0 PrimFloat.zero) with true.
    rewrite orb_true_r. reflexivity.
Qed.

(** C9 (as the code has it).  The similarity of two vectors of equal
    length is [0] as soon as one of them is a zero vector, in binary64 as in
    exact arithmetic.  In exact arithmetic the similarity of a vector that
    is not the zero vector with itself is [1], and with its opposite
    [-1]. *)
Theorem cosineSimilarity_zero_and_unit :
  (forall a b : list float, length a = length b ->
     isZeroVector a \/ isZeroVector b ->
     cosineSimilarity a b = Ok 0%float) /\
  (forall a b : list R, length a = length b ->
     VectorFacts.isZeroVector a \/ VectorFacts.isZeroVector b ->
     cosineSimilarity a b = Ok 0%R) /\
  (forall v : list R, ~ VectorFacts.isZeroVector v ->
     cosineSimilarity v v = Ok 1%R /\
     cosineSimilarity v (map Ropp v) = Ok (-1)%R).
Proof.
  split; [exact cosineSimilarity_zero|].
  exact VectorFacts.cosineSimilarity_real.
Qed.

Lemma cosineSimilarity_zero_and_unit_witness :
  cosineSimilarity [0%float; (-0)%float] [3%float; 4%float] = Ok 0%float /\
  cosineSimilarity [3%R; 4%R] [3%R; 4%R] = Ok 1%R /\
  cosineSimilarity [3%R; 4%R] (map Ropp [3%R; 4%R]) = Ok (-1)%R /\
  cosineSimilarity [0%R; 0%R] [3%R; 4%R] = Ok 0%R.
Proof.
  destruct cosineSimilarity_zero_and_unit as (Hzero64 & Hzero & Hunit).
  assert (Hnz : ~ VectorFacts.isZeroVector [3%R; 4%R]).
  { intros H. inversion H; subst. lra. }
  destruct (Hunit [3%R; 4%R] Hnz) as [H1 H2].
  split.
  { apply Hzero64; [reflexivity|]. left.
    constructor; [left; reflexivity|].
    constructor; [right; reflexivity|constructor]. }
  split; [exact H1|]. split; [exact H2|].
  apply Hzero; [reflexivity|].
  left. repeat constructor.
Defined.

(** C9 as stated fails in binary64.  The vector [[2^-540]] is not a zero
    vector; its square underflows to [0], and its similarity with itself is
    [0], which is not within [2^-19] (more than [1e-6]) of [1].  The square of [[2^540]]
    overflows, and its similarity with itself is [NaN]. *)
Lemma cosineSimilarity_underflow :
  let tiny := Z.ldexp 1 (-540) in
  let huge := Z.ldexp 1 540 in
  hasNonZero [tiny] = true /\
  cosineSimilarity [tiny] [tiny] = Ok 0%float /\
  PrimFloat.leb (PrimFloat.abs (0 - 1)) 0x1p-19 = false /\
  cosineSimilarity [tiny] [PrimFloat.opp tiny] = Ok 0%float /\
  hasNonZero [huge] = true /\
  cosineSimilarity [huge] [huge] = Ok PrimFloat.nan.
Proof. repeat split; vm_compute; reflexivity. Qed.

(** Where nothing overflows or underflows the value is near [1], and not
    always below it. *)
Example cosineSimilarity_binary64_samples :
  cosineSimilarity [3%float; 4%float] [3%float; 4%float] = Ok 1%float /\
  cosineSimilarity [3%float; 4%float] [(-3)%float; (-4)%float]
  = Ok (-1)%float /\
  cosineSimilarity [805306377%float; 1073741836%float]
    [805306377%float; 1073741836%float]
  = Ok 0x1.0000000000001p+0%float.
Proof. repeat split; vm_compute; reflexivity. Qed.

End Binary64Facts.

(* ================================================================== *)
(** ** Reasoning about service methods *)

Module Hoare.

Local Open Scope monad_scope.

(** [wp m Q E s]: run from [s], [m] ends in a state satisfying [Q] when it
    returns and [E] when it throws. *)
Definition wp {A} (m : M A) (Q : A -> State -> Prop)
  (E : Error -> State -> Prop) (s : State) : Prop :=
  match m s with
  | (Ok a, s') => Q a s'
  | (Throw e, s') => E e s'
  end.

Lemma wp_run_eq {A} (m : M A) Q E s r s' :
  m s = (r, s') ->
  wp m Q E s ->
  match r with Ok a => Q a s' | Throw e => E e s' end.
Proof. unfold wp. intros ->. destruct r; auto. Qed.

Lemma wp_mono {A} (m : M A) (Q Q' : A -> State -> Prop)
  (E E' : Error -> State -> Prop) s :
  wp m Q E s ->
  (forall a s', Q a s' -> Q' a s') ->
  (forall e s', E e s' -> E' e s') ->
  wp m Q' E' s.
Proof. unfold wp. destruct (m s) as [[a|e] s']; auto. Qed.

Lemma wp_ret {A} (a : A) (Q : A -> State -> Prop) E s :
  Q a s -> wp (ret a) Q E s.
Proof. exact (fun H => H). Qed.

Lemma wp_throw {A} e (Q : A -> State -> Prop) (E : Error -> State -> Prop) s :
  E e s -> wp (throw e) Q E s.
Proof. exact (fun H => H). Qed.

Lemma wp_bind {A B} (m : M A) (k : A -> M B) Q E s :
  wp m (fun a s' => wp (k a) Q E s') E s -> wp (bind m k) Q E s.
Proof. unfold wp, bind. destruct (m s) as [[a|e] s']; auto. Qed.

Lemma wp_tryCatch {A} (m : M A) (h : Error -> M A) Q E s :
  wp m Q (fun e s' => wp (h e) Q E s') s -> wp (tryCatch m h) Q E s.
Proof. unfold wp, tryCatch. destruct (m s) as [[a|e] s']; auto. Qed.

Lemma wp_gets {A} (f : State -> A) (Q : A -> State -> Prop) E s :
  Q (f s) s -> wp (gets f) Q E s.
Proof. exact (fun H => H). Qed.

Lemma wp_modify (f : State -> State) (Q : unit -> State -> Prop) E s :
  Q tt (f s) -> wp (modify f) Q E s.
Proof. exact (fun H => H). Qed.

Lemma wp_liftResult {A} (r : Result A) (Q : A -> State -> Prop) E s :
  match r with Ok a => Q a s | Throw e => E e s end ->
  wp (liftResult r) Q E s.
Proof. unfold wp, liftResult. destruct r; auto. Qed.

Lemma wp_forEach {A} (l : list A) (body : A -> M unit)
  (I : State -> Prop) E :
  (forall x s, In x l -> I s -> wp (body x) (fun _ => I) E s) ->
  forall s, I s -> wp (forEach l body) (fun _ => I) E s.
Proof.
  induction l as [|x l IH]; intros Hb s Hs; simpl.
  - exact Hs.
  - apply wp_bind.
    eapply wp_mono; [apply Hb; [left; reflexivity|exact Hs]| |auto].
    intros u s' Hs'. apply IH; [|exact Hs'].
    intros y s0 Hy. apply Hb. right. exact Hy.
Qed.

Lemma setFuse_same s : setFuse (fuse s) s = s.
Proof. destruct s; reflexivity. Qed.

Lemma wp_forEach_prefix {A} (l : list A) (body : A -> M unit)
  (I : list A -> State -> Prop) E :
  (forall pre x s, In x l -> I pre s ->
     wp (body x) (fun _ => I (pre ++ [x])) E s) ->
  forall s, I [] s -> wp (forEach l body) (fun _ => I l) E s.
Proof.
  intros Hb.
  assert (H : forall rest pre s, incl rest l -> I pre s ->
            wp (forEach rest body) (fun _ => I (pre ++ rest)) E s).
  { induction rest as [|x rest IH]; intros pre s Hin Hs; simpl.
    - rewrite app_nil_r. exact Hs.
    - apply wp_bind.
      eapply wp_mono;
        [apply Hb; [apply Hin; left; reflexivity|exact Hs]| |auto].
      intros u s' Hs'. cbv beta in Hs'.
      replace (pre ++ x :: rest) with ((pre ++ [x]) ++ rest)
        by (rewrite <- app_assoc; reflexivity).
      apply IH; [|exact Hs'].
      intros y Hy. apply Hin. right. exact Hy. }
  intros s Hs. exact (H l [] s (incl_refl l) Hs).
Qed.

(** The driver.  A statement that returns leaves the fuse unset if it was
    unset; one that fails because of the fuse had it at zero and leaves it
    unset. *)
Definition fuseAfter (s : State) (f : option nat) : Prop :=
  fuse s = None -> f = None.

Lemma wp_tick (Q : unit -> State -> Prop) E s :
  (forall f, fuseAfter s f -> Q tt (setFuse f s)) ->
  (fuse s = Some 0 -> E SqliteError (setFuse None s)) ->
  wp tick Q E s.
Proof.
  intros HQ HE. unfold wp, tick.
  destruct (fuse s) as [[|n]|] eqn:Ef.
  - apply HE. reflexivity.
  - apply HQ. intros H. rewrite Ef in H. discriminate.
  - rewrite <- (setFuse_same s), Ef. apply HQ. intros _. reflexivity.
Qed.

Lemma wp_query {A} (g : Tables -> A) (Q : A -> State -> Prop) E s :
  (forall f, fuseAfter s f -> Q (g (tables s)) (setFuse f s)) ->
  (fuse s = Some 0 -> E SqliteError (setFuse None s)) ->
  wp (query g) Q E s.
Proof.
  intros HQ HE. unfold query. apply wp_bind, wp_tick; [|exact HE].
  intros f Hf. apply wp_gets. apply HQ, Hf.
Qed.

Lemma wp_run (g : Tables -> Result Tables) (Q : unit -> State -> Prop) E s :
  (forall f t', fuseAfter s f -> g (tables s) = Ok t' ->
     Q tt (setTables t' (setFuse f s))) ->
  (fuse s = Some 0 -> E SqliteError (setFuse None s)) ->
  (forall f e, fuseAfter s f -> g (tables s) = Throw e ->
     E e (setFuse f s)) ->
  wp (run g) Q E s.
Proof.
  intros HQ HE HE'. unfold run. apply wp_bind, wp_tick; [|exact HE].
  intros f Hf. unfold wp. cbn [tables setFuse].
  destruct (g (tables s)) as [t'|e] eqn:Eg.
  - apply HQ; [exact Hf|reflexivity].
  - apply HE'; [exact Hf|reflexivity].
Qed.

Lemma wp_execBegin (Q : unit -> State -> Prop) E s :
  (forall f, fuseAfter s f -> txn s = None ->
     Q tt (setTxn (Some (tables s)) (setFuse f s))) ->
  (fuse s = Some 0 -> E SqliteError (setFuse None s)) ->
  (forall f snap, fuseAfter s f -> txn s = Some snap ->
     E SqliteError (setFuse f s)) ->
  wp execBegin Q E s.
Proof.
  intros HQ HE HE'. unfold execBegin. apply wp_bind, wp_tick; [|exact HE].
  intros f Hf. unfold wp. cbn [txn tables setFuse].
  destruct (txn s) eqn:Et.
  - eapply HE'; [exact Hf|reflexivity].
  - apply HQ; [exact Hf|reflexivity].
Qed.

Lemma wp_execCommit (Q : unit -> State -> Prop) E s :
  (forall f snap, fuseAfter s f -> txn s = Some snap ->
     Q tt (setTxn None (setFuse f s))) ->
  (fuse s = Some 0 -> E SqliteError (setFuse None s)) ->
  (forall f, fuseAfter s f -> txn s = None -> E SqliteError (setFuse f s)) ->
  wp execCommit Q E s.
Proof.
  intros HQ HE HE'. unfold execCommit. apply wp_bind, wp_tick; [|exact HE].
  intros f Hf. unfold wp. cbn [txn tables setFuse].
  destruct (txn s) eqn:Et.
  - eapply HQ; [exact Hf|reflexivity].
  - apply HE'; [exact Hf|reflexivity].
Qed.

Lemma wp_execRollback (Q : unit -> State -> Prop) E s :
  (forall f snap, fuseAfter s f -> txn s = Some snap ->
     Q tt (setTxn None (setTables snap (setFuse f s)))) ->
  (fuse s = Some 0 -> E SqliteError (setFuse None s)) ->
  (forall f, fuseAfter s f -> txn s = None -> E SqliteError (setFuse f s)) ->
  wp execRollback Q E s.
Proof.
  intros HQ HE HE'. unfold execRollback. apply wp_bind, wp_tick; [|exact HE].
  intros f Hf. unfold wp. cbn [txn tables setFuse].
  destruct (txn s) eqn:Et.
  - eapply HQ; [exact Hf|reflexivity].
  - apply HE'; [exact Hf|reflexivity].
Qed.

(** Without a fuse the driver is deterministic. *)
Lemma tick_quiet s : fuse s = None -> tick s = (Ok tt, s).
Proof. unfold tick. intros ->. reflexivity. Qed.

Lemma query_quiet {A} (g : Tables -> A) s :
  fuse s = None -> query g s = (Ok (g (tables s)), s).
Proof. intros H. unfold query, bind. rewrite (tick_quiet H). reflexivity. Qed.


Lemma execRollback_quiet s snap :
  fuse s = None -> txn s = Some snap ->
  execRollback s = (Ok tt, setTxn None (setTables snap s)).
Proof.
  intros H Ht. unfold execRollback, bind. rewrite (tick_quiet H), Ht.
  reflexivity.
Qed.

Lemma execRollback_idle s :
  txn s = None ->
  exists f, execRollback s = (Throw SqliteError, setFuse f s).
Proof.
  intros Ht. unfold execRollback, bind, tick.
  destruct (fuse s) as [[|n]|] eqn:Ef; cbn [txn setFuse]; rewrite ?Ht.
  - exists None. reflexivity.
  - exists (Some n). reflexivity.
  - exists None. rewrite <- Ef, setFuse_same. reflexivity.
Qed.

End Hoare.

(* ================================================================== *)
(** ** Reading a document back *)

Module ContentFacts.

Import Json Sql Service Hoare.

Definition byIndex (a b : ChunkRow) : Prop := c_index_num a <= c_index_num b.

Lemma insertByIndex_perm c l : Permutation (insertByIndex c l) (c :: l).
Proof.
  induction l as [|d r IH]; simpl; [reflexivity|].
  destruct (c_index_num c <=? c_index_num d); [reflexivity|].
  rewrite IH. apply perm_swap.
Qed.

Lemma orderByIndex_perm l : Permutation (orderByIndex l) l.
Proof.
  induction l as [|c l IH]; simpl; [constructor|].
  rewrite insertByIndex_perm. constructor. exact IH.
Qed.

Lemma insertByIndex_sorted c l :
  StronglySorted byIndex l -> StronglySorted byIndex (insertByIndex c l).
Proof.
  induction 1 as [|d r Hr IH Hd]; simpl.
  - repeat constructor.
  - destruct (c_index_num c <=? c_index_num d) eqn:E.
    + apply Nat.leb_le in E. constructor; [constructor; assumption|].
      constructor; [exact E|].
      eapply Forall_impl; [|exact Hd].
      intros x Hx. unfold byIndex in *. lia.
    + apply Nat.leb_gt in E. constructor; [exact IH|].
      eapply Permutation_Forall;
        [apply Permutation_sym, insertByIndex_perm|].
      constructor; [unfold byIndex; lia|exact Hd].
Qed.

Lemma orderByIndex_sorted l : StronglySorted byIndex (orderByIndex l).
Proof.
  induction l as [|c l IH]; simpl; [constructor|].
  apply insertByIndex_sorted, IH.
Qed.

Lemma chunksOf_none documentId t :
  (forall c, In c (document_chunks t) -> c_document_id c <> documentId) ->
  chunksOf documentId t = [].
Proof.
  unfold chunksOf. intros H.
  induction (document_chunks t) as [|c l IH]; simpl; [reflexivity|].
  unfold jsstring_eqb at 1.
  destruct (list_eq_dec N.eq_dec (c_document_id c) documentId) as [e|_].
  - exfalso. apply (H c); [left; reflexivity|exact e].
  - apply IH. intros d Hd. apply H. right. exact Hd.
Qed.

(** C10: as long as the database answers, [getDocumentContent] returns the
    contents of the document's chunk rows joined by a blank line, the rows
    taken in the order of their index; for an id without chunk rows, and so
    for any id that is not in the store, this is the empty string. *)
Theorem getDocumentContent_ordered :
  forall (s : State) (documentId : jsstring),
  fuse s = None ->
  let rows := orderByIndex (chunksOf documentId (tables s)) in
  getDocumentContent documentId s
  = (Ok (join [LF; LF] (map c_content rows)), s) /\
  Permutation rows (chunksOf documentId (tables s)) /\
  StronglySorted byIndex rows /\
  ((forall c, In c (document_chunks (tables s)) ->
      c_document_id c <> documentId) ->
   getDocumentContent documentId s = (Ok [], s)).
Proof.
  intros s documentId Hf rows.
  assert (Hrun : getDocumentContent documentId s
                 = (Ok (join [LF; LF] (map c_content rows)), s)).
  { unfold getDocumentContent, tryCatch, bind.
    rewrite (query_quiet _ Hf). reflexivity. }
  split; [exact Hrun|].
  split; [apply orderByIndex_perm|].
  split; [apply orderByIndex_sorted|].
  intros Hnone. rewrite Hrun. unfold rows.
  rewrite (chunksOf_none Hnone). reflexivity.
Qed.

Definition sampleChunkRow (i : nat) (text : string) : ChunkRow :=
  {| c_id := str "chunk_doc_" ++ numToString i;
     c_document_id := str "doc";
     c_content := str text;
     c_index_num := i;
     c_metadata := None |}.

(** A store whose two chunk rows of ["doc"] were inserted out of order. *)
Definition sampleStore : State :=
  setTables
    (withChunks [sampleChunkRow 1 "second"; sampleChunkRow 0 "first"]
       emptyTables)
    initialState.

Lemma getDocumentContent_ordered_witness :
  getDocumentContent (str "doc") sampleStore
  = (Ok (str "first" ++ [LF; LF] ++ str "second"), sampleStore) /\
  getDocumentContent (str "other") sampleStore = (Ok [], sampleStore).
Proof.
  destruct (getDocumentContent_ordered (s:=sampleStore) (str "doc") eq_refl)
    as (H1 & _).
  destruct (getDocumentContent_ordered (s:=sampleStore) (str "other") eq_refl)
    as (_ & _ & _ & H2).
  split; [exact H1|].
  apply H2. intros c [<-|[<-|[]]]; discriminate.
Defined.

(** When the driver fails, the failure is reported as a database error. *)
Example getDocumentContent_fault :
  fst (getDocumentContent (str "doc") (setFuse (Some 0) sampleStore))
  = Throw DatabaseError.
Proof. reflexivity. Qed.

End ContentFacts.

(* ================================================================== *)
(** ** Deleting a document *)

Module DeleteFacts.

Import Json Sql Service Hoare.

(** The tables after the three [DELETE] statements. *)
Definition deletedTables (documentId : jsstring) (t : Tables) : Tables :=
  let t1 := withRelationships
              (filter (fun r => negb (jsstring_eqb (r_source_id r) documentId
                                      && jsstring_eqb (r_source_type r)
                                           (str "DOCUMENT")))
                 (relationships t)) t in
  let t2 := withChunks
              (filter (fun c => negb (jsstring_eqb (c_document_id c)
                                        documentId))
                 (document_chunks t1)) t1 in
  snd (deleteDocumentRow documentId t2).

Definition stored (documentId : jsstring) (t : Tables) : bool :=
  existsb (fun d => jsstring_eqb (d_id d) documentId) (documents t).

Lemma jsstring_eqb_eq a b : jsstring_eqb a b = true <-> a = b.
Proof.
  unfold jsstring_eqb. destruct (list_eq_dec N.eq_dec a b); split;
    congruence.
Qed.

Lemma jsstring_eqb_refl a : jsstring_eqb a a = true.
Proof. apply jsstring_eqb_eq. reflexivity. Qed.

Lemma filter_length_pos {A} (f : A -> bool) l :
  (0 <? length (filter f l)) = existsb f l.
Proof.
  induction l as [|x l IH]; simpl; [reflexivity|].
  destruct (f x); simpl; [reflexivity|exact IH].
Qed.

Lemma stored_deleted documentId t :
  stored documentId (deletedTables documentId t) = false.
Proof.
  unfold stored, deletedTables. simpl.
  induction (documents t) as [|d l IH]; simpl; [reflexivity|].
  destruct (jsstring_eqb (d_id d) documentId) eqn:E; simpl; [exact IH|].
  rewrite E. exact IH.
Qed.

Lemma filter_all {A} (f : A -> bool) l :
  (forall x, In x l -> f x = true) -> filter f l = l.
Proof.
  induction l as [|a l IH]; intros H; simpl; [reflexivity|].
  rewrite (H a (or_introl eq_refl)), IH; [reflexivity|].
  intros x Hx. apply H. right. exact Hx.
Qed.

(** The cascade finds the chunk rows of the document gone already. *)
Lemma deletedTables_chunks documentId t :
  document_chunks (deletedTables documentId t)
  = filter (fun c => negb (jsstring_eqb (c_document_id c) documentId))
      (document_chunks t).
Proof.
  unfold deletedTables. cbn [snd deleteDocumentRow document_chunks withChunks].
  unfold cascade. destruct (hasDocument _ _); [|reflexivity].
  cbn [document_chunks withChunks withRelationships].
  apply filter_all. intros c Hc. apply filter_In in Hc. apply Hc.
Qed.

Lemma chunksOf_deleted documentId t :
  chunksOf documentId (deletedTables documentId t) = [].
Proof.
  apply ContentFacts.chunksOf_none. rewrite deletedTables_chunks.
  intros c Hc Heq. apply filter_In in Hc. destruct Hc as [_ Hc].
  apply (proj2 (jsstring_eqb_eq _ _)) in Heq. rewrite Heq in Hc.
  discriminate.
Qed.

Lemma relationships_deleted documentId t r :
  In r (relationships (deletedTables documentId t)) ->
  In r (relationships t) /\
  ~ (r_source_id r = documentId /\ r_source_type r = str "DOCUMENT").
Proof.
  unfold deletedTables. simpl. intros Hr.
  apply filter_In in Hr. destruct Hr as [Hin Hr]. split; [exact Hin|].
  intros [H1 H2]. apply (proj2 (jsstring_eqb_eq _ _)) in H1, H2.
  rewrite H1, H2 in Hr. discriminate.
Qed.

(** What a run of [deleteDocument] leaves, whichever statement fails. *)
Lemma deleteDocument_wp documentId s :
  txn s = None ->
  wp (deleteDocument documentId)
    (fun b s' =>
       tables s' = deletedTables documentId (tables s) /\ txn s' = None /\
       b = stored documentId (tables s))
    (fun _ s' => tables s' = tables s /\ txn s' = None)
    s.
Proof.
  intros Ht. unfold deleteDocument.
  apply wp_tryCatch.
  (* what the handler finds: nothing begun, or the snapshot of [s] and a
     spent fuse *)
  set (E1 := fun (_ : Error) (s1 : State) =>
               (txn s1 = None /\ tables s1 = tables s)
               \/ (txn s1 = Some (tables s) /\ fuse s1 = None)).
  apply wp_mono with
    (Q := fun b s' =>
       tables s' = deletedTables documentId (tables s) /\ txn s' = None /\
       b = stored documentId (tables s))
    (E := E1).
  2:{ auto. }
  2:{ intros e s1 [[Hn Htab]|[Hsome Hf]]; apply wp_bind.
      - destruct (execRollback_idle Hn) as [f Hr].
        unfold wp. rewrite Hr. cbn. auto.
      - unfold wp at 1. rewrite (execRollback_quiet Hf Hsome).
        apply wp_throw. cbn. auto. }
  apply wp_bind, wp_execBegin.
  2:{ intros _. left. cbn. auto. }
  2:{ intros f snap _ Hs. congruence. }
  intros f0 _ _. apply wp_bind, wp_gets.
  set (s1 := setTxn (Some (tables s)) (setFuse f0 s)).
  (* the vector index is outside the transaction *)
  apply wp_bind.
  apply wp_mono with
    (Q := fun (_ : unit) s' =>
            tables s' = tables s /\ txn s' = Some (tables s))
    (E := E1).
  { destruct (vectorStore s1).
    - apply wp_tryCatch, wp_bind, wp_query.
      + intros f _. apply wp_modify. cbn.
        destruct (vectorStore s); cbn; auto.
      + intros _. apply wp_ret. cbn. auto.
    - apply wp_ret. cbn. auto. }
  2:{ auto. }
  intros _ s2 [Htab2 Htxn2].
  apply wp_bind, wp_run.
  2:{ intros _. right. cbn. auto. }
  2:{ intros f e _ He. discriminate. }
  intros f1 t1 _ Ht1. injection Ht1 as <-.
  apply wp_bind, wp_run.
  2:{ intros _. right. cbn. auto. }
  2:{ intros f e _ He. discriminate. }
  intros f2 t2 _ Ht2. injection Ht2 as <-.
  apply wp_bind. apply wp_bind, wp_tick.
  2:{ intros _. right. cbn. auto. }
  intros f3 _. unfold wp at 1. cbn [tables setTables setFuse].
  destruct (deleteDocumentRow documentId _) as [n t3] eqn:Ed.
  apply wp_bind, wp_execCommit.
  2:{ intros _. right. cbn. auto. }
  2:{ intros f _ Hn. cbn in Hn. congruence. }
  intros f4 snap _ _. apply wp_ret.
  cbn [tables txn setTxn setFuse setTables].
  rewrite Htab2 in Ed.
  split; [|split; [reflexivity|]].
  - unfold deletedTables. cbn [document_chunks withRelationships].
    rewrite Ed. reflexivity.
  - unfold deleteDocumentRow in Ed. injection Ed as <- _.
    cbn [documents withChunks withRelationships].
    apply filter_length_pos.
Qed.

(** Without a failing statement the deletion goes through. *)
Lemma deleteDocument_quiet documentId s :
  txn s = None -> fuse s = None ->
  exists b s', deleteDocument documentId s = (Ok b, s') /\ fuse s' = None.
Proof.
  intros Ht Hf. destruct s as [t x f v m p c ch]. cbn in Ht, Hf. subst x f.
  unfold deleteDocument, tryCatch, bind, execBegin, execCommit, run, query,
    tick, gets, modify, ret. cbn.
  destruct v as [entries|]; cbn; eexists _, _; split; reflexivity.
Qed.

(** Every [CONTAINS] edge starts at a document. *)
Definition containsFromDocuments (t : Tables) : Prop :=
  forall r, In r (relationships t) ->
    r_relationship_type r = CONTAINS -> r_source_type r = str "DOCUMENT".

(** C4: [deleteDocument(id)], called outside a transaction on a store whose
    [CONTAINS] edges start at documents.  When it returns, the chunk rows
    of [id], the [CONTAINS] edges from [id] and the document row are gone,
    every other row is as before, and the result tells whether the document
    row was there, so it is [true] for a stored document; a second call
    right after it returns [false].  When it throws, whichever statement
    failed, the tables are those it started with. *)
Theorem deleteDocument_atomic :
  forall (s : State) (documentId : jsstring),
  txn s = None ->
  containsFromDocuments (tables s) ->
  (fuse s = None -> exists b s', deleteDocument documentId s = (Ok b, s')) /\
  (forall e s', deleteDocument documentId s = (Throw e, s') ->
     tables s' = tables s /\ txn s' = None) /\
  (forall b s', deleteDocument documentId s = (Ok b, s') ->
     b = stored documentId (tables s) /\
     tables s' = deletedTables documentId (tables s) /\
     chunksOf documentId (tables s') = [] /\
     (forall r, In r (relationships (tables s')) ->
        ~ (r_relationship_type r = CONTAINS /\ r_source_id r = documentId)) /\
     selectDocument documentId (tables s') = None /\
     (forall b2 s2, deleteDocument documentId s' = (Ok b2, s2) ->
        b2 = false) /\
     (fuse s' = None ->
      exists s2, deleteDocument documentId s' = (Ok false, s2))).
Proof.
  intros s documentId Ht Hc.
  pose proof (deleteDocument_wp documentId Ht) as Hwp.
  split; [|split].
  - intros Hf. destruct (deleteDocument_quiet documentId Ht Hf)
      as (b & s' & H & _). eauto.
  - intros e s' Hrun. exact (wp_run_eq Hrun Hwp).
  - intros b s' Hrun. destruct (wp_run_eq Hrun Hwp) as (Htab & Htxn & Hb).
    assert (Hsecond : forall b2 s2,
              deleteDocument documentId s' = (Ok b2, s2) -> b2 = false).
    { intros b2 s2 Hrun2.
      destruct (wp_run_eq Hrun2 (deleteDocument_wp documentId Htxn))
        as (_ & _ & Hb2).
      rewrite Hb2, Htab. apply stored_deleted. }
    repeat split.
    + exact Hb.
    + exact Htab.
    + rewrite Htab. apply chunksOf_deleted.
    + intros r Hr [Hty Hsrc]. rewrite Htab in Hr.
      apply relationships_deleted in Hr. destruct Hr as [Hin Hno].
      apply Hno. split; [exact Hsrc|]. apply Hc; assumption.
    + unfold selectDocument.
      pose proof (stored_deleted documentId (tables s)) as Hs.
      rewrite <- Htab in Hs. unfold stored in Hs.
      destruct (find _ (documents (tables s'))) as [d|] eqn:Ef;
        [|reflexivity].
      apply find_some in Ef. destruct Ef as [Hin Hd].
      assert (existsb (fun d => jsstring_eqb (d_id d) documentId)
                (documents (tables s')) = true)
        by (apply existsb_exists; eauto).
      congruence.
    + exact Hsecond.
    + intros Hf. destruct (deleteDocument_quiet documentId Htxn Hf)
        as (b2 & s2 & Hrun2 & _).
      rewrite (Hsecond _ _ Hrun2) in Hrun2. eauto.
Qed.

Lemma deleteDocument_atomic_witness :
  exists s',
    deleteDocument (Sample.digest Sample.aPath) Sample.indexedWithConcepts
    = (Ok true, s') /\
    chunksOf (Sample.digest Sample.aPath) (tables s') = [] /\
    selectDocument (Sample.digest Sample.aPath) (tables s') = None /\
    exists s2,
      deleteDocument (Sample.digest Sample.aPath) s' = (Ok false, s2).
Proof.
  destruct (@deleteDocument_atomic Sample.indexedWithConcepts
              (Sample.digest Sample.aPath) eq_refl)
    as (Hret & _ & Hok).
  - intros r Hr Hty. vm_compute in Hr.
    repeat (destruct Hr as [<-|Hr]; [try reflexivity; discriminate|]).
    destruct Hr.
  - destruct (Hret eq_refl) as (b & s' & Hrun).
    destruct (Hok b s' Hrun) as (Hb & Htab & Hchunks & _ & Hdoc & _ & Hagain).
    assert (Hstored : stored (Sample.digest Sample.aPath)
                        (tables Sample.indexedWithConcepts) = true)
      by (vm_compute; reflexivity).
    rewrite Hstored in Hb. subst b.
    exists s'. split; [exact Hrun|]. split; [exact Hchunks|].
    split; [exact Hdoc|]. apply Hagain.
    pose proof (wp_run_eq Hrun
                  (@deleteDocument_wp (Sample.digest Sample.aPath)
                     Sample.indexedWithConcepts eq_refl)) as H.
    destruct (deleteDocument_quiet (Sample.digest Sample.aPath)
                (s := Sample.indexedWithConcepts) eq_refl eq_refl)
      as (b1 & s1 & Hrun1 & Hf1).
    rewrite Hrun in Hrun1. injection Hrun1 as _ <-. exact Hf1.
Defined.

(** The external index is not part of the transaction: when the first
    [DELETE] fails, the tables are restored and the entries of the
    document's chunks stay deleted from the index. *)
Example deleteDocument_index_not_restored :
  let entry :=
    {| ve_id := str "chunk_" ++ Sample.digest Sample.aPath ++ str "_0";
       ve_values := [1%Q; 0%Q];
       ve_documentId := Sample.digest Sample.aPath;
       ve_chunkIndex := 0;
       ve_title := str "a.txt";
       ve_path := Sample.aPath;
       ve_type := TText |} in
  let s := setFuse (Some 2)
             (setVectorStore (Some [entry]) Sample.indexedWithConcepts) in
  let (r, s') := deleteDocument (Sample.digest Sample.aPath) s in
  r = Throw DatabaseError /\ tables s' = tables s /\ txn s' = None /\
  vectorStore s' = Some [].
Proof. vm_compute. repeat split. Qed.

End DeleteFacts.

(* ================================================================== *)
(** ** The statements of an extraction pass *)

Module PassFacts.

Import Json Sql Service Hoare.

Local Open Scope monad_scope.

Section WithEnv.

Variable env : Env.

(** The statements an extraction pass runs, with what holds of the tables
    when it runs them. *)
Inductive GraphStep (t : Tables) : (Tables -> Result Tables) -> Prop :=
  | StepBumpFrequency conceptId k :
      selectConcept conceptId t = Some k ->
      GraphStep t (bumpFrequency conceptId)
  | StepInsertConcept row lower :
      selectConcept (k_id row) t = None ->
      k_id row = sha256 env lower ->
      k_frequency row = 1 ->
      GraphStep t (insertConcept row)
  | StepContains documentId conceptId lower upper k :
      conceptId = sha256 env lower ->
      selectConcept conceptId t = Some k ->
      GraphStep t
        (insertOrReplaceRelationship
           {| r_id := containsId env documentId conceptId;
              r_source_id := documentId;
              r_source_type := str "DOCUMENT";
              r_target_id := conceptId;
              r_target_type := upper;
              r_relationship_type := CONTAINS;
              r_weight := inject_Z (Z.of_nat (k_frequency k)) |})
  | StepBumpWeight lower1 lower2 r :
      selectRelationship
        (relatedId env (sha256 env lower1) (sha256 env lower2)) t = Some r ->
      GraphStep t
        (bumpWeight (relatedId env (sha256 env lower1) (sha256 env lower2)))
  | StepInsertRelated lower1 lower2 upper1 upper2 :
      selectRelationship
        (relatedId env (sha256 env lower1) (sha256 env lower2)) t = None ->
      GraphStep t
        (insertRelationship
           {| r_id := relatedId env (sha256 env lower1) (sha256 env lower2);
              r_source_id := sha256 env lower1;
              r_source_type := upper1;
              r_target_id := sha256 env lower2;
              r_target_type := upper2;
              r_relationship_type := RELATED;
              r_weight := 1 |}).

Lemma conceptIdOf_hash name conceptId :
  conceptIdOf env name = Ok conceptId ->
  exists lower, conceptId = sha256 env lower.
Proof.
  unfold conceptIdOf.
  destruct (stringMethod (toLowerCase env) name) as [lower|e];
    [|discriminate].
  intros H; injection H as <-. eauto.
Qed.

Lemma find_map_hit {A} (hit : A -> bool) (f : A -> A) l x :
  (forall a, hit (f a) = hit a) ->
  find hit l = Some x ->
  find hit (map (fun a => if hit a then f a else a) l) = Some (f x).
Proof.
  intros Hf. induction l as [|a l IH]; simpl; [discriminate|].
  destruct (hit a) eqn:Ea.
  - intros H; injection H as <-. simpl. rewrite Hf, Ea. reflexivity.
  - intros H. simpl. rewrite Ea. apply IH, H.
Qed.

Lemma find_app_none {A} (hit : A -> bool) l x :
  find hit l = None -> hit x = true -> find hit (l ++ [x]) = Some x.
Proof.
  induction l as [|a l IH]; simpl; intros Hn Hx.
  - rewrite Hx. reflexivity.
  - destruct (hit a); [discriminate|]. apply IH; assumption.
Qed.

(** After the frequency update the concept is found with one more. *)
Lemma bumpFrequency_select conceptId t t' k :
  selectConcept conceptId t = Some k ->
  bumpFrequency conceptId t = Ok t' ->
  exists k', selectConcept conceptId t' = Some k' /\
             k_frequency k' = k_frequency k + 1.
Proof.
  unfold selectConcept, bumpFrequency. intros Hk H. injection H as <-.
  cbn [concepts withConcepts].
  eexists. split.
  - apply (find_map_hit (hit := fun k0 => jsstring_eqb (k_id k0) conceptId)
             (f := fun k0 => {| k_id := k_id k0; k_name := k_name k0;
                                k_type := k_type k0;
                                k_description := k_description k0;
                                k_frequency := k_frequency k0 + 1 |}));
      [reflexivity|exact Hk].
  - reflexivity.
Qed.

(** After the insertion the new concept is the one found. *)
Lemma insertConcept_select row t t' :
  selectConcept (k_id row) t = None ->
  insertConcept row t = Ok t' ->
  selectConcept (k_id row) t' = Some row.
Proof.
  unfold selectConcept, insertConcept. intros Hn.
  destruct (existsb _ (concepts t)); [discriminate|].
  intros H; injection H as <-. cbn [concepts withConcepts].
  apply find_app_none; [exact Hn|].
  unfold jsstring_eqb. destruct (list_eq_dec N.eq_dec (k_id row) (k_id row));
    congruence.
Qed.

Section Pass.

(** A property of the tables that every step of a pass keeps. *)
Variable P : Tables -> Prop.
Hypothesis P_step :
  forall t g t', GraphStep t g -> P t -> g t = Ok t' -> P t'.

(** Inside the transaction opened on [t0]. *)
Definition inPass (t0 : Tables) (s : State) : Prop :=
  txn s = Some t0 /\ P (tables s).

Definition passOpen (t0 : Tables) (s : State) : Prop := txn s = Some t0.

Ltac wp_lift x H :=
  apply wp_bind, wp_liftResult;
  lazymatch goal with
  | |- match ?r with Ok _ => _ | Throw _ => _ end =>
      destruct r as [x|?] eqn:H; [|solve [unfold passOpen; cbn; auto]]
  end.

Ltac wp_skip_if :=
  match goal with
  | |- wp (if ?b then _ else _) _ _ _ =>
      destruct b; [solve [apply wp_ret; unfold inPass; cbn; auto]|]
  end.

Lemma processConcept_wp t0 documentId concept s :
  inPass t0 s ->
  wp (processConcept env documentId concept)
    (fun _ => inPass t0) (fun _ => passOpen t0) s.
Proof.
  intros [Htxn HP]. unfold processConcept.
  wp_lift name Hname. wp_skip_if.
  wp_lift type Htype. wp_skip_if.
  wp_lift conceptId Hid.
  destruct (conceptIdOf_hash Hid) as [lower Hlower].
  apply wp_bind, wp_query; [|intros _; exact Htxn].
  intros f0 _. cbn [tables setFuse].
  destruct (selectConcept conceptId (tables s)) as [k|] eqn:Hk.
  - apply wp_bind, wp_run;
      [|intros _; exact Htxn|intros f e _ He; discriminate].
    intros f1 t1 _ Ht1. cbn [tables setFuse] in Ht1.
    assert (HP1 : P t1) by (eapply P_step; eauto using StepBumpFrequency).
    destruct (bumpFrequency_select Hk Ht1) as (k1 & Hk1 & Hfreq).
    wp_lift upper Hup.
    apply wp_run; [|intros _; exact Htxn|intros f e _ He; discriminate].
    intros f2 t2 _ Ht2. cbn [tables setTables setFuse] in Ht2.
    split; [exact Htxn|]. cbn [tables setTables].
    eapply P_step; [|exact HP1|exact Ht2].
    rewrite <- Hfreq.
    eapply StepContains; [exact Hlower|exact Hk1].
  - apply wp_bind.
    wp_lift upper Hup. wp_lift description Hdesc. wp_lift descr Hbound.
    apply wp_run;
      [|intros _; exact Htxn|intros f e _ He; exact Htxn].
    intros f1 t1 _ Ht1. cbn [tables setFuse] in Ht1.
    set (row := {| k_id := conceptId; k_name := nameOf name;
                   k_type := upper; k_description := descr;
                   k_frequency := 1 |}) in *.
    assert (HP1 : P t1).
    { eapply P_step; [|exact HP|exact Ht1].
      eapply StepInsertConcept with (lower := lower);
        [exact Hk|exact Hlower|reflexivity]. }
    pose proof (insertConcept_select (row:=row) Hk Ht1) as Hk1.
    apply wp_bind, wp_liftResult. cbv iota beta.
    apply wp_run; [|intros _; exact Htxn|intros f e _ He; discriminate].
    intros f2 t2 _ Ht2. cbn [tables setTables setFuse] in Ht2.
    split; [exact Htxn|]. cbn [tables setTables].
    eapply P_step; [|exact HP1|exact Ht2].
    exact (StepContains documentId upper Hlower Hk1).
Qed.

Lemma processPair_wp t0 p s :
  inPass t0 s ->
  wp (processPair env p) (fun _ => inPass t0) (fun _ => passOpen t0) s.
Proof.
  intros [Htxn HP]. destruct p as [concept1 concept2]. unfold processPair.
  wp_lift name1 Hname1. wp_skip_if.
  wp_lift name2 Hname2. wp_skip_if.
  wp_lift concept1Id Hid1. wp_lift concept2Id Hid2.
  destruct (conceptIdOf_hash Hid1) as [lower1 ->].
  destruct (conceptIdOf_hash Hid2) as [lower2 ->].
  apply wp_bind, wp_query; [|intros _; exact Htxn].
  intros f0 _. cbn [tables setFuse].
  destruct (selectRelationship _ (tables s)) as [r|] eqn:Hr.
  - apply wp_run; [|intros _; exact Htxn|intros f e _ He; discriminate].
    intros f1 t1 _ Ht1. cbn [tables setFuse] in Ht1.
    split; [exact Htxn|]. cbn [tables setTables].
    eapply P_step; eauto using StepBumpWeight.
  - wp_lift type1 Ht1. wp_lift upper1 Hu1.
    wp_lift type2 Ht2. wp_lift upper2 Hu2.
    apply wp_run; [|intros _; exact Htxn|intros f e _ He; exact Htxn].
    intros f1 t1 _ Hrun. cbn [tables setFuse] in Hrun.
    split; [exact Htxn|]. cbn [tables setTables].
    eapply P_step; [|exact HP|exact Hrun].
    apply StepInsertRelated. exact Hr.
Qed.

(** What a handler of [processConceptsChunk] may find: no transaction and
    the property, or the transaction of this pass. *)
Definition passFailed (t0 : Tables) (s : State) : Prop :=
  (txn s = None /\ P (tables s)) \/ txn s = Some t0.

Lemma graphMutation_wp documentId conceptsData s :
  txn s = None -> P (tables s) ->
  wp (graphMutation env documentId conceptsData)
    (fun _ s' => txn s' = None /\ P (tables s'))
    (fun _ => passFailed (tables s)) s.
Proof.
  intros Htxn HP. unfold graphMutation.
  apply wp_bind, wp_execBegin.
  2:{ intros _. left. cbn. auto. }
  2:{ intros f snap _ Hs. congruence. }
  intros f0 _ _.
  apply wp_bind.
  eapply wp_mono;
    [apply wp_forEach with (I := inPass (tables s)) (E := fun _ => passOpen (tables s))| |].
  - intros x s1 _. apply processConcept_wp.
  - split; [reflexivity|exact HP].
  - intros u1 s1 Hs1. apply wp_bind.
    eapply wp_mono;
      [apply wp_forEach with (I := inPass (tables s))
                             (E := fun _ => passOpen (tables s))| |].
    + intros x s2 _. apply processPair_wp.
    + exact Hs1.
    + intros u2 s2 [Htxn2 HP2]. apply wp_execCommit.
      * intros f snap _ _. cbn. auto.
      * intros _. right. exact Htxn2.
      * intros f _ Hn. congruence.
    + intros e s2 H. right. exact H.
  - intros e s1 H. right. exact H.
Qed.

(** The inner handler: [ROLLBACK] restores the snapshot, or fails and leaves
    the outer handler with a spent fuse or no transaction. *)
Lemma rollback_wp t0 s (Q : unit -> State -> Prop)
  (E : Error -> State -> Prop) :
  P t0 ->
  passFailed t0 s ->
  (forall s', txn s' = None -> P (tables s') -> Q tt s') ->
  (forall e s', (txn s' = None /\ P (tables s'))
                \/ (txn s' = Some t0 /\ fuse s' = None) -> E e s') ->
  wp execRollback Q E s.
Proof.
  intros HP0 Hs HQ HE. apply wp_execRollback.
  - intros f snap _ Hsnap. destruct Hs as [[Hn _]|Hsome]; [congruence|].
    apply HQ; cbn; [reflexivity|congruence].
  - intros _. apply HE. destruct Hs as [[Hn HP]|Hsome].
    + left. cbn. auto.
    + right. cbn. auto.
  - intros f _ Hn. apply HE. destruct Hs as [[_ HP]|Hsome]; [|congruence].
    left. cbn. auto.
Qed.

Lemma processConceptsChunk_wp content documentId s :
  txn s = None -> P (tables s) ->
  wp (processConceptsChunk env content documentId)
    (fun _ s' => txn s' = None /\ P (tables s'))
    (fun _ s' => txn s' = None /\ P (tables s')) s.
Proof.
  intros Htxn HP. unfold processConceptsChunk.
  set (t0 := tables s).
  set (Outer := fun (_ : Error) (s' : State) =>
                  (txn s' = None /\ P (tables s'))
                  \/ (txn s' = Some t0 /\ fuse s' = None)).
  apply wp_tryCatch.
  apply wp_mono with (Q := fun _ s' => txn s' = None /\ P (tables s'))
                     (E := Outer).
  2:{ auto. }
  2:{ intros e s1 [[Hn HP1]|[Hsome Hf]].
      - destruct (execRollback_idle Hn) as [f Hr].
        unfold wp. rewrite Hr. cbn. auto.
      - unfold wp. rewrite (execRollback_quiet Hf Hsome). cbn. auto. }
  apply wp_bind. unfold wp at 1, sendChatMessage.
  destruct (chat s) as [|[text|] rest].
  { left. auto. }
  2:{ left. cbn. auto. }
  apply wp_tryCatch.
  apply wp_mono with (Q := fun _ s' => txn s' = None /\ P (tables s'))
                     (E := fun _ => passFailed t0).
  - destruct (JSON_parse env text) as [[| | | |conceptsData|]|].
    1-4, 6: apply wp_ret; cbn; auto.
    + apply (graphMutation_wp documentId conceptsData (s:=setChat rest s));
        assumption.
    + apply wp_throw. left. cbn. auto.
  - auto.
  - intros e s1 Hs1. apply (rollback_wp (t0:=t0)); auto.
Qed.

(** [extractConcepts] never throws. *)
Lemma extractConcepts_wp content documentId s :
  txn s = None -> P (tables s) ->
  wp (extractConcepts env content documentId)
    (fun _ s' => txn s' = None /\ P (tables s'))
    (fun _ _ => False) s.
Proof.
  intros Htxn HP. unfold extractConcepts. apply wp_tryCatch.
  apply wp_mono with (Q := fun _ s' => txn s' = None /\ P (tables s'))
                     (E := fun _ s' => txn s' = None /\ P (tables s')).
  - destruct (longDocument <? length content).
    + apply wp_forEach with (I := fun s' => txn s' = None /\ P (tables s'));
        [|auto].
      intros x s1 _ [H1 H2]. apply processConceptsChunk_wp; assumption.
    + apply processConceptsChunk_wp; assumption.
  - auto.
  - intros e s1 H. apply wp_ret. exact H.
Qed.

End Pass.

End WithEnv.

End PassFacts.

(* ================================================================== *)
(** ** The concept graph only grows *)

Module GraphFacts.

Import Json Sql Service Hoare PassFacts.

Local Open Scope Q_scope.

Definition freqQ (k : ConceptRow) : Q := inject_Z (Z.of_nat (k_frequency k)).









(** *** Strings under the hash *)



Section WithEnv.

Variable env : Env.

(** The digest is taken to be collision free; it is hexadecimal, so it has
    no underscore. *)
Hypothesis sha_inj : forall a b, sha256 env a = sha256 env b -> a = b.
Hypothesis sha_hex : forall a, ~ In 95%N (sha256 env a).



(** The shape of the relationship rows: a [CONTAINS] edge runs from a
    document to a stored concept, carries the id computed from its ends and
    weighs at most the concept's frequency; a [RELATED] edge carries the id
    computed from its ends. *)
Definition GraphInv (t : Tables) : Prop :=
  forall r, In r (relationships t) ->
    match r_relationship_type r with
    | CONTAINS =>
        r_source_type r = str "DOCUMENT" /\
        r_id r = containsId env (r_source_id r) (r_target_id r) /\
        (exists lower, r_target_id r = sha256 env lower) /\
        exists k, selectConcept (r_target_id r) t = Some k /\
                  r_weight r <= freqQ k
    | RELATED =>
        r_id r = relatedId env (r_source_id r) (r_target_id r)
    end.

Lemma GraphInv_empty : GraphInv emptyTables.
Proof. intros r []. Qed.











End WithEnv.

End GraphFacts.

(* ================================================================== *)
(** ** Saving a document and its chunks *)

Module SaveFacts.

Import Json Sql Service Hoare.
Import DeleteFacts.

Local Open Scope monad_scope.

(** What a method leaves alone besides the tables and the fuse. *)
Definition sameSession (s s' : State) : Prop :=
  txn s' = txn s /\ chat s' = chat s /\ (fuse s = None -> fuse s' = None).

Lemma sameSession_refl s : sameSession s s.
Proof. repeat split; auto. Qed.

Lemma sameSession_trans s1 s2 s3 :
  sameSession s1 s2 -> sameSession s2 s3 -> sameSession s1 s3.
Proof.
  intros (T1 & C1 & F1) (T2 & C2 & F2). repeat split; try congruence; auto.
Qed.

(** The concept graph is as it was. *)
Definition sameGraph (t t' : Tables) : Prop :=
  concepts t' = concepts t /\ relationships t' = relationships t.

Lemma find_none_existsb {A} (p : A -> bool) l :
  find p l = None -> existsb p l = false.
Proof.
  induction l as [|a l IH]; simpl; [reflexivity|].
  destruct (p a); [discriminate|exact IH].
Qed.

(** *** saveDocumentChunk *)

Definition upsertChunk (row : ChunkRow) (t : Tables) : Tables :=
  match selectChunk (c_id row) t with
  | Some _ =>
      withChunks
        (map (fun c => if jsstring_eqb (c_id c) (c_id row) then row else c)
           (document_chunks t)) t
  | None => withChunks (document_chunks t ++ [row]) t
  end.

Lemma upsertChunk_frame row t :
  documents (upsertChunk row t) = documents t /\
  documents_fts (upsertChunk row t) = documents_fts t /\
  sameGraph t (upsertChunk row t).
Proof.
  unfold upsertChunk, sameGraph. destruct (selectChunk (c_id row) t); auto.
Qed.

Lemma updateChunk_stored chunk t :
  hasDocument (ch_documentId chunk) t = true ->
  updateChunk (chunkRow chunk) t
  = Ok (withChunks
          (map (fun c => if jsstring_eqb (c_id c) (ch_id chunk)
                         then chunkRow chunk else c)
             (document_chunks t)) t).
Proof.
  intros H. unfold updateChunk.
  change (c_document_id (chunkRow chunk)) with (ch_documentId chunk).
  rewrite H, andb_false_r. reflexivity.
Qed.

Lemma insertChunk_stored chunk t :
  hasDocument (ch_documentId chunk) t = true ->
  selectChunk (ch_id chunk) t = None ->
  insertChunk (chunkRow chunk) t
  = Ok (withChunks (document_chunks t ++ [chunkRow chunk]) t).
Proof.
  intros H Hsel. unfold insertChunk.
  change (c_document_id (chunkRow chunk)) with (ch_documentId chunk).
  change (c_id (chunkRow chunk)) with (ch_id chunk).
  unfold selectChunk in Hsel. rewrite (find_none_existsb Hsel), H.
  reflexivity.
Qed.

(** The statement that writes the row, by what [SELECT id] found. *)
Definition writeChunk (row : ChunkRow) (t : Tables) : Result Tables :=
  match selectChunk (c_id row) t with
  | Some _ => updateChunk row t
  | None => insertChunk row t
  end.

(** It writes the row or fails on the foreign key. *)
Lemma writeChunk_cases chunk t :
  match writeChunk (chunkRow chunk) t with
  | Ok t' =>
      t' = upsertChunk (chunkRow chunk) t /\
      hasDocument (ch_documentId chunk) t = true
  | Throw _ => hasDocument (ch_documentId chunk) t = false
  end.
Proof.
  unfold writeChunk, upsertChunk.
  change (c_id (chunkRow chunk)) with (ch_id chunk).
  destruct (hasDocument (ch_documentId chunk) t) eqn:Hdoc.
  - destruct (selectChunk (ch_id chunk) t) eqn:Esel.
    + rewrite (updateChunk_stored Hdoc). auto.
    + rewrite (insertChunk_stored Hdoc Esel). auto.
  - destruct (selectChunk (ch_id chunk) t) as [c0|] eqn:Esel.
    + unfold updateChunk.
      change (c_document_id (chunkRow chunk)) with (ch_documentId chunk).
      change (c_id (chunkRow chunk)) with (ch_id chunk).
      unfold selectChunk in Esel. apply find_some in Esel.
      assert (He : existsb (fun c => jsstring_eqb (c_id c) (ch_id chunk))
                     (document_chunks t) = true)
        by (apply existsb_exists; exists c0; exact Esel).
      rewrite He, Hdoc. reflexivity.
    + unfold insertChunk.
      change (c_document_id (chunkRow chunk)) with (ch_documentId chunk).
      rewrite Hdoc, orb_true_r. reflexivity.
Qed.

(** What a call of [saveDocumentChunk] leaves behind: the row of the
    chunk at most, and the row for sure when the driver does not fail and
    the document is stored. *)
Definition chunkAttempt (chunk : DocumentChunk) (s s' : State) : Prop :=
  txn s' = txn s /\ chat s' = chat s /\
  (tables s' = tables s \/
   tables s' = upsertChunk (chunkRow chunk) (tables s)) /\
  (fuse s = None ->
   fuse s' = None /\
   (hasDocument (ch_documentId chunk) (tables s) = true ->
    tables s' = upsertChunk (chunkRow chunk) (tables s))).

Lemma chunkAttempt_intro chunk s s' :
  txn s' = txn s -> chat s' = chat s ->
  (tables s' = tables s \/
   tables s' = upsertChunk (chunkRow chunk) (tables s)) ->
  (fuse s = None -> fuse s' = None) ->
  (fuse s = None -> hasDocument (ch_documentId chunk) (tables s) = true ->
   tables s' = upsertChunk (chunkRow chunk) (tables s)) ->
  chunkAttempt chunk s s'.
Proof.
  intros A B C D E. split; [exact A|]. split; [exact B|].
  split; [exact C|]. intros H. split; [exact (D H)|exact (E H)].
Qed.

(** [saveDocumentChunk] never returns: the update of the full-text table
    fails after the row was written. *)
Lemma saveDocumentChunk_wp chunk s :
  wp (saveDocumentChunk chunk) (fun _ _ => False)
    (fun e s' => e = DatabaseError /\ chunkAttempt chunk s s') s.
Proof.
  unfold saveDocumentChunk. apply wp_tryCatch.
  apply wp_mono with (Q := fun _ _ => False)
                     (E := fun _ s' => chunkAttempt chunk s s').
  2:{ auto. }
  2:{ intros e s' H. apply wp_throw. split; [reflexivity|exact H]. }
  apply wp_bind, wp_query.
  2:{ intros H. apply chunkAttempt_intro; cbn; auto; intros H0; congruence. }
  intros f0 Hf0. cbn [tables setFuse].
  pose proof (writeChunk_cases chunk (tables s)) as Hw.
  unfold writeChunk in Hw.
  change (c_id (chunkRow chunk)) with (ch_id chunk) in Hw.
  apply wp_bind.
  apply wp_mono with
    (Q := fun _ s1 =>
            tables s1 = upsertChunk (chunkRow chunk) (tables s) /\
            txn s1 = txn s /\ chat s1 = chat s /\
            (fuse s = None -> fuse s1 = None))
    (E := fun _ s' => chunkAttempt chunk s s').
  - assert (Hrun : forall g,
              g (tables s)
              = match selectChunk (ch_id chunk) (tables s) with
                | Some _ => updateChunk (chunkRow chunk) (tables s)
                | None => insertChunk (chunkRow chunk) (tables s)
                end ->
              wp (run g)
                (fun _ s1 =>
                   tables s1 = upsertChunk (chunkRow chunk) (tables s) /\
                   txn s1 = txn s /\ chat s1 = chat s /\
                   (fuse s = None -> fuse s1 = None))
                (fun _ s' => chunkAttempt chunk s s') (setFuse f0 s)).
    { intros g Hg. rewrite <- Hg in Hw. apply wp_run.
      - intros f t' Hf Ht'. cbn [tables setFuse] in Ht'.
        rewrite Ht' in Hw. destruct Hw as [-> Hd]. cbn.
        split; [reflexivity|]. split; [reflexivity|].
        split; [reflexivity|]. intros H. apply Hf. cbn. apply Hf0, H.
      - intros H. cbn in H.
        apply chunkAttempt_intro; cbn; auto; intros H0;
          rewrite (Hf0 H0) in H; discriminate.
      - intros f e Hf He. cbn [tables setFuse] in He.
        rewrite He in Hw.
        apply chunkAttempt_intro; cbn; auto.
        all: try (intros H; apply Hf; cbn; apply Hf0, H).
        all: intros _ Hd; congruence. }
    destruct (selectChunk (ch_id chunk) (tables s)); apply Hrun;
      reflexivity.
  - intros u s1 (Htab & Ht & Hc & Hf).
    apply wp_run.
    + intros f t' _ Ht'. discriminate.
    + intros H. apply chunkAttempt_intro; cbn; auto.
      all: intros H0; rewrite (Hf H0) in H; discriminate.
    + intros f e Hf1 _. apply chunkAttempt_intro; cbn; auto.
      all: try (intros H; apply Hf1, Hf, H).
  - auto.
Qed.

(** *** saveDocumentMetadata *)

Definition idIs (id : jsstring) (d : DocumentRow) : bool :=
  jsstring_eqb (d_id d) id.

(** Another document already has the path. *)
Definition pathClash (md : DocumentMetadata) (t : Tables) : bool :=
  existsb (fun d => negb (idIs (md_id md) d)
                    && jsstring_eqb (d_path d) (md_path md)) (documents t).

Definition uniqueIds (t : Tables) : Prop := NoDup (map d_id (documents t)).

Lemma existsb_ext_in {A} (p q : A -> bool) l :
  (forall x, In x l -> p x = q x) -> existsb p l = existsb q l.
Proof.
  induction l as [|a l IH]; intros H; simpl; [reflexivity|].
  rewrite (H a (or_introl eq_refl)), IH; [reflexivity|].
  intros x Hx. apply H. right. exact Hx.
Qed.

Lemma filter_single {A} (key : A -> jsstring) id l d :
  NoDup (map key l) ->
  find (fun x => jsstring_eqb (key x) id) l = Some d ->
  filter (fun x => jsstring_eqb (key x) id) l = [d].
Proof.
  induction l as [|a l IH]; simpl; [discriminate|].
  intros Hnd. inversion Hnd as [|? ? Hnotin Hnd']; subst.
  destruct (jsstring_eqb (key a) id) eqn:E.
  - intros H; injection H as <-. f_equal.
    apply jsstring_eqb_eq in E.
    clear IH Hnd Hnd'. induction l as [|b l IHl]; simpl; [reflexivity|].
    destruct (jsstring_eqb (key b) id) eqn:Eb.
    + exfalso. apply Hnotin. left. apply jsstring_eqb_eq in Eb. congruence.
    + apply IHl. intros Hin. apply Hnotin. right. exact Hin.
  - intros H. apply IH; assumption.
Qed.

Lemma updateDocument_ok md t d0 t1 :
  selectDocument (md_id md) t = Some d0 ->
  updateDocument (md_id md) (documentRow md) t = Ok t1 ->
  selectDocument (md_id md) t1 = Some (documentRow md (d_rowid d0)) /\
  map d_id (documents t1) = map d_id (documents t) /\
  document_chunks t1 = document_chunks t /\ sameGraph t t1.
Proof.
  unfold updateDocument. intros Hsel.
  destruct (existsb _ (documents t)); [discriminate|].
  intros H. injection H as <-.
  cbn [documents document_chunks withFts withDocuments].
  split; [|split; [|split; [reflexivity|split; reflexivity]]].
  - unfold selectDocument in *. cbn [documents withFts withDocuments].
    revert Hsel. induction (documents t) as [|d l IH]; simpl;
      [discriminate|].
    destruct (jsstring_eqb (d_id d) (md_id md)) eqn:E.
    + intros H; injection H as <-. simpl.
      rewrite jsstring_eqb_refl. reflexivity.
    + intros H. simpl. rewrite E. apply IH, H.
  - rewrite map_map. apply map_ext_in. intros d _.
    destruct (jsstring_eqb (d_id d) (md_id md)) eqn:E; [|reflexivity].
    apply jsstring_eqb_eq in E. simpl. congruence.
Qed.

Lemma insertDocument_ok md t t1 :
  selectDocument (md_id md) t = None ->
  insertDocument (documentRow md) t = Ok t1 ->
  selectDocument (md_id md) t1 = Some (documentRow md (nextRowid t)) /\
  map d_id (documents t1) = map d_id (documents t) ++ [md_id md] /\
  ~ In (md_id md) (map d_id (documents t)) /\
  document_chunks t1 = document_chunks t /\ sameGraph t t1.
Proof.
  unfold insertDocument. intros Hsel.
  destruct (existsb _ (documents t)); [discriminate|].
  intros H. injection H as <-.
  cbn [documents document_chunks withFts withDocuments].
  split; [|split; [|split; [|split; [reflexivity|split; reflexivity]]]].
  - unfold selectDocument in *. cbn [documents withFts withDocuments].
    apply PassFacts.find_app_none; [exact Hsel|].
    simpl. apply jsstring_eqb_refl.
  - rewrite map_app. reflexivity.
  - intros Hin. apply in_map_iff in Hin. destruct Hin as (d & Hd & Hin).
    unfold selectDocument in Hsel.
    pose proof (find_none _ _ Hsel d Hin) as Hno. simpl in Hno.
    apply (proj2 (jsstring_eqb_eq _ _)) in Hd. congruence.
Qed.

Lemma updateDocument_noclash md t t1 :
  updateDocument (md_id md) (documentRow md) t = Ok t1 ->
  pathClash md t1 = false.
Proof.
  unfold updateDocument, pathClash, idIs. cbn [d_path documentRow].
  destruct (existsb _ (documents t)) eqn:E; [discriminate|].
  intros H. injection H as <-. cbn [documents withFts withDocuments].
  revert E. induction (documents t) as [|d l IH]; [reflexivity|].
  cbn [existsb map]. intros E. apply orb_false_elim in E.
  destruct E as [Ed El]. rewrite (IH El), orb_false_r.
  destruct (jsstring_eqb (d_id d) (md_id md)) eqn:Eid.
  - cbn [d_id d_path documentRow]. rewrite jsstring_eqb_refl. reflexivity.
  - cbv iota. rewrite Eid. exact Ed.
Qed.

Lemma insertDocument_noclash md t t1 :
  insertDocument (documentRow md) t = Ok t1 ->
  pathClash md t1 = false.
Proof.
  unfold insertDocument, pathClash, idIs. cbn [d_id d_path documentRow].
  destruct (existsb _ (documents t)) eqn:E; [discriminate|].
  intros H. injection H as <-. cbn [documents withFts withDocuments].
  rewrite existsb_app. cbn [existsb d_id d_path documentRow].
  rewrite jsstring_eqb_refl. cbn [negb andb orb]. rewrite orb_false_r.
  destruct (existsb (fun d => negb (jsstring_eqb (d_id d) (md_id md))
                              && jsstring_eqb (d_path d) (md_path md))
              (documents t)) eqn:E'; [|reflexivity].
  apply existsb_exists in E'. destruct E' as (d & Hd & Hc).
  apply andb_prop in Hc. destruct Hc as [_ Hc].
  assert (Hx : existsb (fun d0 => jsstring_eqb (d_id d0) (md_id md)
                                  || jsstring_eqb (d_path d0) (md_path md))
                 (documents t) = true).
  { apply existsb_exists. exists d. rewrite Hc, orb_true_r. auto. }
  congruence.
Qed.

Lemma insertDocument_clash md t e :
  selectDocument (md_id md) t = None ->
  insertDocument (documentRow md) t = Throw e ->
  pathClash md t = true.
Proof.
  unfold insertDocument, pathClash. intros Hsel.
  destruct (existsb _ (documents t)) eqn:E; [|discriminate].
  intros _. rewrite <- E. apply existsb_ext_in. intros d Hd.
  unfold selectDocument in Hsel.
  pose proof (find_none _ _ Hsel d Hd) as Hno. simpl in Hno.
  unfold idIs. simpl. rewrite Hno. reflexivity.
Qed.

Lemma updateDocument_clash md t e :
  updateDocument (md_id md) (documentRow md) t = Throw e ->
  pathClash md t = true.
Proof.
  unfold updateDocument, pathClash, idIs.
  cbn [d_path documentRow].
  destruct (existsb _ (documents t)); [reflexivity|discriminate].
Qed.

Lemma ftsDelete_none rowid fts :
  filter (fun f => f_rowid f =? rowid) (ftsDelete rowid fts) = [].
Proof.
  unfold ftsDelete. induction fts as [|f l IH]; simpl; [reflexivity|].
  destruct (f_rowid f =? rowid) eqn:E; simpl; [exact IH|].
  rewrite E. exact IH.
Qed.

(** The two statements on the full-text table leave one row for the
    document, with an empty content column. *)
Lemma fts_refresh id t1 d1 t2 t3 :
  uniqueIds t1 ->
  selectDocument id t1 = Some d1 ->
  ftsDeleteOf id t1 = Ok t2 ->
  ftsInsertOf id t2 = Ok t3 ->
  filter (fun f => f_rowid f =? d_rowid d1) (documents_fts t3)
  = [ftsRowOf d1] /\
  documents t3 = documents t1 /\
  document_chunks t3 = document_chunks t1 /\ sameGraph t1 t3.
Proof.
  unfold ftsDeleteOf, ftsInsertOf. intros Hu Hsel.
  rewrite Hsel. intros H2 H3. injection H2 as <-. injection H3 as <-.
  cbn [documents documents_fts document_chunks withFts].
  split; [|split; [reflexivity|split; [reflexivity|split; reflexivity]]].
  unfold selectDocument in Hsel.
  rewrite (filter_single (key:=d_id) Hu Hsel).
  rewrite filter_app, ftsDelete_none. simpl.
  rewrite Nat.eqb_refl. reflexivity.
Qed.

(** Closes the goals about the fuse, given the [fuseAfter] facts of the
    statements run so far. *)
Ltac fuse_chain :=
  unfold fuseAfter in *;
  cbn [fuse txn chat tables setFuse setTables setTxn] in *;
  solve [ auto
        | intros;
          match goal with
          | H : ?f = Some 0 |- _ =>
              assert (f = None) by auto; congruence
          end ].

Definition metadataSaved (md : DocumentMetadata) (s s' : State) : Prop :=
  exists d,
    selectDocument (md_id md) (tables s') = Some d /\
    d = documentRow md (d_rowid d) /\
    filter (fun f => f_rowid f =? d_rowid d) (documents_fts (tables s'))
    = [ftsRowOf d] /\
    document_chunks (tables s') = document_chunks (tables s) /\
    sameGraph (tables s) (tables s') /\
    uniqueIds (tables s') /\
    pathClash md (tables s') = false /\
    sameSession s s'.

Definition metadataFailed (md : DocumentMetadata) (s s' : State) : Prop :=
  (fuse s = None -> pathClash md (tables s) = true) /\
  sameGraph (tables s) (tables s') /\
  document_chunks (tables s') = document_chunks (tables s) /\
  txn s' = txn s.

Lemma saveDocumentMetadata_wp md s :
  uniqueIds (tables s) ->
  wp (saveDocumentMetadata md)
    (fun _ s' => metadataSaved md s s')
    (fun e s' => e = DatabaseError /\ metadataFailed md s s')
    s.
Proof.
  intros Hu. unfold saveDocumentMetadata. apply wp_tryCatch.
  apply wp_mono with (Q := fun _ s' => metadataSaved md s s')
                     (E := fun _ s' => metadataFailed md s s').
  2:{ auto. }
  2:{ intros e s' H. apply wp_throw. split; [reflexivity|exact H]. }
  apply wp_bind, wp_query.
  2:{ intros H. repeat split; try reflexivity. intros H0. congruence. }
  intros f0 Hf0. cbn [tables setFuse].
  apply wp_bind.
  (* the row is written *)
  apply wp_mono with
    (Q := fun _ s1 =>
       exists d1 f1,
         selectDocument (md_id md) (tables s1) = Some d1 /\
         d1 = documentRow md (d_rowid d1) /\
         uniqueIds (tables s1) /\
         pathClash md (tables s1) = false /\
         document_chunks (tables s1) = document_chunks (tables s) /\
         sameGraph (tables s) (tables s1) /\
         txn s1 = txn s /\ chat s1 = chat s /\ fuse s1 = f1 /\
         (fuse s = None -> f1 = None))
    (E := fun _ s' => metadataFailed md s s').
  { destruct (selectDocument (md_id md) (tables s)) as [d0|] eqn:Esel.
    - apply wp_run.
      + intros f1 t1 Hf1 Ht1. cbn [tables setFuse] in Ht1.
        destruct (updateDocument_ok Esel Ht1) as (Hs1 & Hids & Hch & Hg).
        pose proof (updateDocument_noclash Ht1) as Hnc.
        exists (documentRow md (d_rowid d0)), f1.
        cbn [tables txn chat fuse setTables setFuse].
        repeat split; try assumption; try reflexivity.
        * unfold uniqueIds. rewrite Hids. exact Hu.
        * apply Hg.
        * apply Hg.
        * fuse_chain.
      + intros H. repeat split; try reflexivity. fuse_chain.
      + intros f e Hf He. cbn [tables setFuse] in He.
        repeat split; try reflexivity.
        intros _. exact (updateDocument_clash He).
    - apply wp_run.
      + intros f1 t1 Hf1 Ht1. cbn [tables setFuse] in Ht1.
        destruct (insertDocument_ok Esel Ht1)
          as (Hs1 & Hids & Hnew & Hch & Hg).
        pose proof (insertDocument_noclash Ht1) as Hnc.
        exists (documentRow md (nextRowid (tables s))), f1.
        cbn [tables txn chat fuse setTables setFuse].
        repeat split; try assumption; try reflexivity.
        * unfold uniqueIds. rewrite Hids.
          apply NoDup_app; [exact Hu|repeat constructor; intros []|].
          intros x Hx [<-|[]]. exact (Hnew Hx).
        * apply Hg.
        * apply Hg.
        * fuse_chain.
      + intros H. repeat split; try reflexivity. fuse_chain.
      + intros f e Hf He. cbn [tables setFuse] in He.
        repeat split; try reflexivity.
        intros _. exact (insertDocument_clash Esel He). }
  2:{ auto. }
  (* the full-text row is replaced *)
  intros u s1
    (d1 & f1 & Hs1 & Hd1 & Hu1 & Hnc1 & Hch1 & Hg1 & Ht1 & Hc1 & Hf1 & Hq1).
  apply wp_bind, wp_run.
  2:{ intros H. cbn. repeat split; try assumption; try apply Hg1.
      intros H0. rewrite (Hq1 H0) in Hf1. congruence. }
  2:{ intros f e _ He. unfold ftsDeleteOf in He.
      destruct (selectDocument _ _); discriminate. }
  intros f2 t2 Hf2 Ht2.
  apply wp_run.
  3:{ intros f e _ He. discriminate. }
  2:{ intros H. cbn [fuse tables txn setFuse setTables] in *.
      unfold ftsDeleteOf in Ht2. rewrite Hs1 in Ht2. injection Ht2 as <-.
      repeat split; try assumption; try apply Hg1.
      intros H0. unfold fuseAfter in Hf2. rewrite Hf1 in Hf2.
      rewrite (Hf2 (Hq1 H0)) in H. discriminate. }
  intros f3 t3 Hf3 Ht3. cbn [tables setTables setFuse] in Ht3.
  destruct (fts_refresh Hu1 Hs1 Ht2 Ht3) as (Hfts & Hdocs & Hch3 & Hg3).
  exists d1. cbn [tables txn chat fuse setTables setFuse].
  split; [|split; [exact Hd1|split; [exact Hfts|]]].
  { unfold selectDocument in *. rewrite Hdocs. exact Hs1. }
  split; [congruence|].
  split; [destruct Hg1, Hg3; split; congruence|].
  split; [unfold uniqueIds; rewrite Hdocs; exact Hu1|].
  split; [unfold pathClash; rewrite Hdocs; exact Hnc1|].
  repeat split; try assumption.
  intros H0. unfold fuseAfter in *.
  cbn [fuse setFuse setTables] in *.
  apply Hf3, Hf2. rewrite Hf1. apply Hq1, H0.
Qed.

End SaveFacts.

(* ================================================================== *)
(** ** Indexing a document *)

Module IndexFacts.

Import Json Sql Service Hoare.
Import DeleteFacts SaveFacts.

Local Open Scope monad_scope.

Section WithEnv.

Variable env : Env.
Variable cfg : Config.

(** *** The collaborator calls of the enrichment steps *)

(** Only the queue of replies moves. *)
Definition onlyChat (s s' : State) : Prop :=
  tables s' = tables s /\ txn s' = txn s /\ fuse s' = fuse s.

Lemma onlyChat_refl s : onlyChat s s.
Proof. repeat split. Qed.

Lemma onlyChat_trans s1 s2 s3 :
  onlyChat s1 s2 -> onlyChat s2 s3 -> onlyChat s1 s3.
Proof. intros (A & B & C) (D & E & F). repeat split; congruence. Qed.

Lemma sendChatMessage_wp s :
  wp sendChatMessage (fun _ => onlyChat s) (fun _ => onlyChat s) s.
Proof.
  unfold wp, sendChatMessage.
  destruct (chat s) as [|[text|] rest]; repeat split.
Qed.

Lemma summarizeParts_wp parts : forall summaries s,
  wp (summarizeParts parts summaries)
    (fun _ => onlyChat s) (fun _ _ => False) s.
Proof.
  induction parts as [|p parts IH]; intros summaries s; simpl.
  - apply wp_ret, onlyChat_refl.
  - apply wp_bind, wp_tryCatch, wp_bind.
    eapply wp_mono; [apply sendChatMessage_wp| |].
    + intros text s1 H1. apply wp_ret.
      eapply wp_mono; [apply IH| |auto].
      intros r s2 H2. exact (onlyChat_trans H1 H2).
    + intros e s1 H1. apply wp_ret, wp_ret. exact H1.
Qed.

Lemma generateSummary_wp content s :
  wp (generateSummary env content)
    (fun _ => onlyChat s) (fun _ _ => False) s.
Proof.
  unfold generateSummary. destruct (longDocument <? length content).
  - apply wp_bind.
    eapply wp_mono; [apply summarizeParts_wp| |auto].
    intros [summaries|] s1 H1.
    + destruct (1 <? length summaries).
      * apply wp_tryCatch.
        eapply wp_mono; [apply sendChatMessage_wp| |].
        -- intros x s2 H2. exact (onlyChat_trans H1 H2).
        -- intros e s2 H2. apply wp_ret. exact (onlyChat_trans H1 H2).
      * destruct summaries; apply wp_ret; exact H1.
    + apply wp_ret. exact H1.
  - apply wp_tryCatch.
    eapply wp_mono; [apply sendChatMessage_wp|auto|].
    intros e s2 H2. apply wp_ret. exact H2.
Qed.

Lemma extractKeyPoints_wp content s :
  wp (extractKeyPoints env content)
    (fun _ => onlyChat s) (fun _ _ => False) s.
Proof.
  unfold extractKeyPoints. apply wp_tryCatch, wp_bind.
  eapply wp_mono; [apply sendChatMessage_wp| |].
  - intros x s1 H1. apply wp_ret. exact H1.
  - intros e s1 H1. apply wp_ret. exact H1.
Qed.

(** *** One chunk *)

(** The embedding step touches neither the database nor the replies. *)
Definition embeddingOnly (s s' : State) : Prop :=
  tables s' = tables s /\ txn s' = txn s /\ fuse s' = fuse s
  /\ chat s' = chat s.

Lemma generateEmbedding_wp text s :
  wp (generateEmbedding env text)
    (fun _ => embeddingOnly s) (fun _ => embeddingOnly s) s.
Proof.
  unfold generateEmbedding, initialize.
  apply wp_bind, wp_gets, wp_bind.
  destruct (embeddingModel s).
  - apply wp_ret. destruct (embed env _); repeat split.
  - destruct (pipelineLoads env).
    + apply wp_modify. destruct (embed env _); repeat split.
    + repeat split.
Qed.

(** The row that is written does not depend on the embedding. *)
Lemma chunkRow_withEmbedding chunk v :
  chunkRow (withEmbedding chunk v) = chunkRow chunk.
Proof. reflexivity. Qed.

Lemma chunkAttempt_from chunk s s1 s' :
  embeddingOnly s s1 -> chunkAttempt chunk s1 s' -> chunkAttempt chunk s s'.
Proof.
  intros (A & B & C & D) (T & Ch & Tab & F).
  rewrite A, B, C, D in *. repeat split; auto; apply F; assumption.
Qed.

(** No chunk gets through the loop of [indexDocument]. *)
Lemma indexChunk_wp options md chunk s :
  wp (indexChunk env options md chunk) (fun _ _ => False)
    (fun e s' => e = DatabaseError /\ chunkAttempt chunk s s') s.
Proof.
  unfold indexChunk. apply wp_bind.
  apply wp_mono with
    (Q := fun c s1 => chunkAttempt c = chunkAttempt chunk /\ embeddingOnly s s1)
    (E := fun _ _ => False).
  - destruct (generateEmbeddings options).
    + apply wp_tryCatch, wp_bind.
      eapply wp_mono; [apply generateEmbedding_wp| |].
      * intros v s1 H1. apply wp_bind, wp_modify, wp_ret.
        split; [reflexivity|].
        destruct H1 as (A & B & C & D).
        destruct (vectorStore s1); repeat split; assumption.
      * intros e s1 H1. apply wp_ret. split; [reflexivity|exact H1].
    + apply wp_ret. split; [reflexivity|repeat split].
  - intros c s1 [Hc Hs1].
    eapply wp_mono; [apply saveDocumentChunk_wp|auto|].
    intros e s2 [He Hatt]. split; [exact He|].
    rewrite Hc in Hatt. exact (chunkAttempt_from Hs1 Hatt).
  - intros e s1 [].
Qed.

(** *** The document up to the concept extraction *)

Definition readable (path : jsstring) (info : FileInfo) (data : FileData)
  : Prop :=
  fsStat env path = Some (FsFile info) /\ fi_read info = Ok data.

Definition metadataOf (path : jsstring) (info : FileInfo)
  (md : DocumentMetadata) : Prop :=
  md_id md = sha256 env path /\ md_title md = basename env path /\
  md_path md = path /\ md_type md = fi_type info.

(** Another document already has the path. *)
Definition pathTaken (path : jsstring) (t : Tables) : bool :=
  existsb (fun d => negb (idIs (sha256 env path) d)
                    && jsstring_eqb (d_path d) path) (documents t).

(** The tables [tM] right after the metadata of [md] were saved on [t]. *)
Definition metadataFacts (md : DocumentMetadata) (t tM : Tables) : Prop :=
  exists d,
    selectDocument (md_id md) tM = Some d /\
    d = documentRow md (d_rowid d) /\
    filter (fun f => f_rowid f =? d_rowid d) (documents_fts tM)
    = [ftsRowOf d] /\
    document_chunks tM = document_chunks t /\
    sameGraph t tM /\ uniqueIds tM /\ pathClash md tM = false.

(** The state in which [extractConcepts] is called: the text gave no
    chunk. *)
Definition prefixDone (path : jsstring) (options : IndexOptions) (s : State)
  (info : FileInfo) (data : FileData) (md : DocumentMetadata) (s1 : State)
  : Prop :=
  readable path info data /\ metadataOf path info md /\
  Chunker.chunkDocument cfg (fd_content data) md = [] /\
  metadataFacts md (tables s) (tables s1) /\
  txn s1 = txn s /\
  (fuse s = None -> fuse s1 = None) /\
  (generateSummaryOpt options = false ->
   extractKeyPointsOpt options = false -> chat s1 = chat s).

(** The state in which the loop over the chunks gave up, on its first
    chunk [c]. *)
Definition stoppedAtChunk (path : jsstring) (options : IndexOptions)
  (s : State) (info : FileInfo) (data : FileData) (md : DocumentMetadata)
  (c : DocumentChunk) (s1 : State) : Prop :=
  readable path info data /\ metadataOf path info md /\
  (exists rest, Chunker.chunkDocument cfg (fd_content data) md = c :: rest) /\
  (exists tM,
     metadataFacts md (tables s) tM /\
     (tables s1 = tM \/ tables s1 = upsertChunk (chunkRow c) tM) /\
     (fuse s = None -> tables s1 = upsertChunk (chunkRow c) tM)) /\
  txn s1 = txn s /\
  (fuse s = None -> fuse s1 = None) /\
  (generateSummaryOpt options = false ->
   extractKeyPointsOpt options = false -> chat s1 = chat s).

(** The state in which an earlier step gave up. *)
Definition prefixFailed (path : jsstring) (s s1 : State) : Prop :=
  sameGraph (tables s) (tables s1) /\ txn s1 = txn s /\
  document_chunks (tables s1) = document_chunks (tables s) /\
  (fuse s = None ->
   forall info data, readable path info data ->
                     pathTaken path (tables s) = true).

(** [catch (error)] of [indexDocument]: what is thrown instead. *)
Definition rethrown (e : Error) : Error :=
  if isKnowledgeBaseError e then e else KnowledgeBaseError.

Lemma sameGraph_refl t : sameGraph t t.
Proof. split; reflexivity. Qed.


Lemma chunkDocument_documentId text md c :
  In c (Chunker.chunkDocument cfg text md) -> ch_documentId c = md_id md.
Proof.
  intros Hc. apply In_nth_error in Hc. destruct Hc as [i Hi].
  destruct (ChunkerFacts.chunkDocument_chain cfg text md) as [H _].
  rewrite (H i c Hi). reflexivity.
Qed.

Lemma selected_hasDocument id t d :
  selectDocument id t = Some d -> hasDocument id t = true.
Proof.
  unfold selectDocument, hasDocument. intros H. apply find_some in H.
  apply existsb_exists. exists d. exact H.
Qed.

Lemma indexDocument_rule path options s
  (Q : jsstring -> State -> Prop) (E : Error -> State -> Prop) :
  uniqueIds (tables s) ->
  (forall info data md s1,
     prefixDone path options s info data md s1 ->
     wp (extractConcepts env (fd_content data) (sha256 env path) ;;
         ret (sha256 env path))
       Q (fun e => E (rethrown e)) s1) ->
  (forall info data md c s1,
     stoppedAtChunk path options s info data md c s1 ->
     E DatabaseError s1) ->
  (forall e s1, prefixFailed path s s1 -> E (rethrown e) s1) ->
  wp (indexDocument env cfg path options) Q E s.
Proof.
  intros Hu Hk Hstop Hfail. unfold indexDocument. apply wp_tryCatch.
  apply wp_mono with (Q := Q) (E := fun e => E (rethrown e)).
  2:{ auto. }
  2:{ intros e s1 H. unfold rethrown in H.
      destruct (isKnowledgeBaseError e); exact H. }
  apply wp_bind. unfold processFile.
  assert (Hbad : forall e,
            (forall info data, ~ readable path info data) ->
            E (rethrown e) s).
  { intros e Hno. apply Hfail. repeat split.
    intros _ info data Hr. destruct (Hno _ _ Hr). }
  destruct (fsStat env path) as [[info|entries| |]|] eqn:Estat;
    try (apply wp_throw, Hbad; intros info' data [H1 H2]; congruence).
  destruct (fi_read info) as [data|e0] eqn:Eread;
    [|apply wp_throw, Hbad; intros info' data [H1 H2]; congruence].
  apply wp_ret. cbv beta iota.
  assert (Hread : readable path info data) by (split; assumption).
  apply wp_bind. unfold wp at 1, newDate.
  set (s0 := setClock (clock s + 1)%N s).
  set (md0 := {| md_id := sha256 env path;
                 md_title := basename env path;
                 md_path := path;
                 md_type := fi_type info;
                 md_size := fi_size info;
                 md_created := fi_birthtime info;
                 md_modified := fi_mtime info;
                 md_indexed := clock s;
                 md_author := None;
                 md_tags := Some match tags options with
                                 | Some l => l
                                 | None => []
                                 end;
                 md_summary := None;
                 md_keyPoints := None;
                 md_pageCount := fd_pageCount data;
                 md_wordCount :=
                   Some (countWords false (fd_content data)) |}).
  (* the enrichment steps only consume replies *)
  set (R := fun (md : DocumentMetadata) (sx : State) =>
              metadataOf path info md /\ tables sx = tables s /\
              txn sx = txn s /\ fuse sx = fuse s /\
              (generateSummaryOpt options = false ->
               extractKeyPointsOpt options = false -> chat sx = chat s)).
  apply wp_bind.
  apply wp_mono with (Q := R) (E := fun _ _ => False).
  { destruct (generateSummaryOpt options).
    - apply wp_bind.
      eapply wp_mono; [apply generateSummary_wp| |auto].
      intros x s1 (A & B & C). apply wp_ret.
      repeat split; try assumption; try discriminate.
    - apply wp_ret. repeat split. }
  2:{ intros e s1 []. }
  intros md1 s1 (Hmd1 & A1 & B1 & C1 & D1).
  apply wp_bind.
  apply wp_mono with (Q := R) (E := fun _ _ => False).
  { destruct (extractKeyPointsOpt options).
    - apply wp_bind.
      eapply wp_mono; [apply extractKeyPoints_wp| |auto].
      intros x s2 (A & B & C). apply wp_ret.
      repeat split; try apply Hmd1; try congruence; try discriminate.
    - apply wp_ret. repeat split; try apply Hmd1; assumption. }
  2:{ intros e s2 []. }
  clear md1 s1 Hmd1 A1 B1 C1 D1.
  intros md s2 (Hmd & A2 & B2 & C2 & D2).
  pose proof Hmd as (Hid & Htitle & Hpath & Htype).
  apply wp_bind.
  eapply wp_mono; [apply saveDocumentMetadata_wp| |].
  { rewrite A2. exact Hu. }
  2:{ intros e sM (_ & Hc & Hg & Hch & Ht). apply Hfail.
      rewrite A2 in Hg, Hch. repeat split; try apply Hg; try congruence.
      intros Hq info' data' _. rewrite <- A2.
      assert (Hc' : pathClash md (tables s2) = true)
        by (apply Hc; congruence).
      unfold pathClash in Hc'. rewrite Hid, Hpath in Hc'. exact Hc'. }
  intros u sM (d & Hsel & Hd & Hfts & Hch & Hg & HuM & HncM & TM & CM & FM).
  assert (HM : metadataFacts md (tables s) (tables sM)).
  { exists d. rewrite <- A2. repeat split; try assumption; apply Hg. }
  apply wp_bind.
  destruct (Chunker.chunkDocument cfg (fd_content data) md) as [|c rest]
    eqn:Echunks.
  - apply wp_ret. apply (Hk info data md sM). unfold prefixDone.
    split; [exact Hread|]. split; [exact Hmd|]. split; [exact Echunks|].
    split; [exact HM|]. split; [congruence|].
    split; [intros Hq; apply FM; congruence|].
    intros O1 O2. rewrite CM. auto.
  - cbn [forEach]. apply wp_bind.
    eapply wp_mono; [apply indexChunk_wp|intros u0 s3 []|].
    intros e s3 [-> (T3 & C3 & Tab3 & F3)].
    change (rethrown DatabaseError) with DatabaseError.
    apply (Hstop info data md c s3). unfold stoppedAtChunk.
    assert (Hin : In c (Chunker.chunkDocument cfg (fd_content data) md))
      by (rewrite Echunks; left; reflexivity).
    assert (Hdoc : hasDocument (ch_documentId c) (tables sM) = true).
    { rewrite (chunkDocument_documentId Hin).
      exact (selected_hasDocument Hsel). }
    split; [exact Hread|]. split; [exact Hmd|].
    split; [exists rest; exact Echunks|].
    split.
    { exists (tables sM). split; [exact HM|]. split; [exact Tab3|].
      intros Hq. apply F3; [apply FM; congruence|exact Hdoc]. }
    split; [congruence|].
    split; [intros Hq; apply F3, FM; congruence|].
    intros O1 O2. rewrite C3, CM. auto.
Qed.

(** *** The rows of a document *)

Lemma filter_map_length {A} (p : A -> bool) (f : A -> A) l :
  (forall x, In x l -> p (f x) = p x) ->
  length (filter p (map f l)) = length (filter p l).
Proof.
  induction l as [|a l IH]; intros H; simpl; [reflexivity|].
  rewrite (H a (or_introl eq_refl)).
  destruct (p a); simpl; rewrite IH; auto;
    intros x Hx; apply H; right; exact Hx.
Qed.

Lemma upsertChunk_rows row t :
  document_chunks (upsertChunk row t)
  = match find (fun c => jsstring_eqb (c_id c) (c_id row))
            (document_chunks t) with
    | Some _ =>
        map (fun c => if jsstring_eqb (c_id c) (c_id row) then row else c)
          (document_chunks t)
    | None => document_chunks t ++ [row]
    end.
Proof.
  unfold upsertChunk, selectChunk.
  destruct (find _ (document_chunks t)); reflexivity.
Qed.

(** The rows after an upsert depend on the rows before only. *)
Lemma upsertChunk_rows_eq row t t' :
  document_chunks t' = document_chunks t ->
  document_chunks (upsertChunk row t') = document_chunks (upsertChunk row t).
Proof. intros H. rewrite !upsertChunk_rows, H. reflexivity. Qed.

Lemma map_fixed {A} (f : A -> A) l :
  (forall x, In x l -> f x = x) -> map f l = l.
Proof.
  induction l as [|a l IH]; intros H; simpl; [reflexivity|].
  rewrite (H a (or_introl eq_refl)), IH; [reflexivity|].
  intros x Hx. apply H. right. exact Hx.
Qed.

(** The row is there after an upsert. *)
Lemma upsertChunk_In row t :
  In row (document_chunks (upsertChunk row t)).
Proof.
  rewrite upsertChunk_rows.
  destruct (find _ (document_chunks t)) as [r0|] eqn:Ef.
  - apply find_some in Ef. destruct Ef as [Hin Hhit].
    apply in_map_iff. exists r0. rewrite Hhit. auto.
  - apply in_or_app. right. left. reflexivity.
Qed.

(** Writing the same row again changes nothing. *)
Lemma upsertChunk_again row t :
  document_chunks (upsertChunk row (upsertChunk row t))
  = document_chunks (upsertChunk row t).
Proof.
  rewrite (upsertChunk_rows row (upsertChunk row t)).
  pose proof (upsertChunk_In row t) as Hin.
  destruct (find _ (document_chunks (upsertChunk row t))) as [r0|] eqn:Ef.
  - apply map_fixed. intros x Hx.
    destruct (jsstring_eqb (c_id x) (c_id row)) eqn:E; [|reflexivity].
    rewrite upsertChunk_rows in Hx.
    destruct (find _ (document_chunks t)) as [r1|] eqn:Ef1.
    + apply in_map_iff in Hx. destruct Hx as (y & Hy & _).
      destruct (jsstring_eqb (c_id y) (c_id row)) eqn:Ey; [auto|].
      subst y. congruence.
    + apply in_app_or in Hx. destruct Hx as [Hx|[<-|[]]]; [|reflexivity].
      pose proof (find_none _ _ Ef1 x Hx) as Hno. simpl in Hno. congruence.
  - pose proof (find_none _ _ Ef row Hin) as Hno. simpl in Hno.
    rewrite jsstring_eqb_refl in Hno. discriminate.
Qed.

(** The content column of the full-text rows of a document. *)
Definition ftsContentOf (id : jsstring) (t : Tables) : list jsstring :=
  match selectDocument id t with
  | Some d =>
      map f_content
        (filter (fun f => f_rowid f =? d_rowid d) (documents_fts t))
  | None => []
  end.

(** The document tables are as they were. *)
Definition sameDocs (t t' : Tables) : Prop :=
  documents t' = documents t /\
  document_chunks t' = document_chunks t /\
  documents_fts t' = documents_fts t.

Lemma GraphStep_sameDocs t g t' :
  PassFacts.GraphStep env t g -> g t = Ok t' -> sameDocs t t'.
Proof.
  intros Hstep Hg. destruct Hstep; cbv beta delta
    [bumpFrequency insertConcept insertOrReplaceRelationship bumpWeight
     insertRelationship] in Hg;
    try (destruct (existsb _ _) in Hg; [discriminate|]);
    injection Hg as <-; repeat split.
Qed.

Lemma extractConcepts_sameDocs content documentId s :
  txn s = None ->
  wp (extractConcepts env content documentId)
    (fun _ s' => txn s' = None /\ sameDocs (tables s) (tables s'))
    (fun _ _ => False) s.
Proof.
  intros Ht.
  apply PassFacts.extractConcepts_wp
    with (P := fun t => sameDocs (tables s) t).
  - intros t g t' Hstep (A & B & C) Hg.
    destruct (GraphStep_sameDocs Hstep Hg) as (A' & B' & C').
    repeat split; congruence.
  - exact Ht.
  - repeat split.
Qed.

Lemma fold_left_ext {A B} (f g : A -> B -> A) l :
  (forall a b, f a b = g a b) ->
  forall a, fold_left f l a = fold_left g l a.
Proof.
  intros H. induction l as [|b l IH]; intros a; simpl; [reflexivity|].
  rewrite H. apply IH.
Qed.

(** The chunks depend on the metadata through the id, the title and the
    type only. *)
Lemma chunkDocument_md text md md' :
  md_id md = md_id md' -> md_title md = md_title md' ->
  md_type md = md_type md' ->
  Chunker.chunkDocument cfg text md = Chunker.chunkDocument cfg text md'.
Proof.
  intros H1 H2 H3.
  assert (Hmk : forall x i, Chunker.mkChunk md x i = Chunker.mkChunk md' x i).
  { intros x i. unfold Chunker.mkChunk. rewrite H1, H2, H3. reflexivity. }
  unfold Chunker.chunkDocument, Chunker.chunkLoop.
  rewrite (fold_left_ext (f:=Chunker.chunkStep cfg md)
             (g:=Chunker.chunkStep cfg md')).
  - destruct (fold_left _ _ _) as [[chunks cur] idx].
    rewrite Hmk. reflexivity.
  - intros [[chunks cur] idx] p0. unfold Chunker.chunkStep.
    rewrite Hmk. reflexivity.
Qed.

(** The texts of the chunks of a content. *)
Definition chunkTexts (content : jsstring) : list jsstring :=
  map ch_content
    (Chunker.chunkDocument cfg content ChunkerFacts.sampleMetadata).

Lemma chunkTexts_of content md :
  map ch_content (Chunker.chunkDocument cfg content md) = chunkTexts content.
Proof. apply ChunkerFacts.chunkDocument_contents. Qed.

(** A text with a character that is not white space has a chunk. *)
Lemma chunkTexts_nonblank content :
  JSFacts.blank content = false -> chunkTexts content <> [].
Proof.
  intros Hb. pose proof (JSFacts.splitBlankLines_nonblank Hb) as Hp.
  assert (Hex : exists p, In p (splitBlankLines content)
                          /\ JSFacts.blank p = false).
  { induction (splitBlankLines content) as [|p ps IH]; [discriminate|].
    simpl in Hp. destruct (JSFacts.blank p) eqn:Ep.
    - destruct (IH Hp) as (q & Hq & Hqb). exists q. split; [right|]; auto.
    - exists p. split; [left; reflexivity|exact Ep]. }
  destruct Hex as (p & Hin & Hpb).
  destruct (ChunkerFacts.chunkDocument_whole cfg
              ChunkerFacts.sampleMetadata Hin Hpb) as (c & Hc & _).
  unfold chunkTexts. intros Hnil.
  destruct (Chunker.chunkDocument cfg content ChunkerFacts.sampleMetadata);
    [destruct Hc|discriminate].
Qed.

Lemma metadataFacts_fts md t tM :
  metadataFacts md t tM -> ftsContentOf (md_id md) tM = [[]].
Proof.
  intros (d & Hsel & Hd & Hfts & _). unfold ftsContentOf.
  rewrite Hsel, Hfts. reflexivity.
Qed.

(** *** The whole of indexDocument *)

(** What a call for a file that can be read has done, when the driver
    did not fail and no other document has the path: the metadata are
    saved; a file without a chunk goes on to the concept extraction and the
    id is returned; of a file with chunks the row of the first chunk is
    written, and the call throws. *)
Definition outcome (path : jsstring) (info : FileInfo) (data : FileData)
  (s : State) (r : Result jsstring) (s' : State) : Prop :=
  exists md tM,
    metadataOf path info md /\ metadataFacts md (tables s) tM /\
    txn s' = None /\
    documents (tables s') = documents tM /\
    documents_fts (tables s') = documents_fts tM /\
    match Chunker.chunkDocument cfg (fd_content data) md with
    | [] =>
        r = Ok (sha256 env path) /\
        document_chunks (tables s') = document_chunks (tables s)
    | c :: _ =>
        r = Throw DatabaseError /\
        tables s' = upsertChunk (chunkRow c) tM /\ fuse s' = None
    end.

Lemma readable_fun_in path info data info' data' :
  readable path info data -> readable path info' data' ->
  info' = info /\ data' = data.
Proof.
  intros [A B] [A' B']. rewrite A in A'. injection A' as <-.
  rewrite B in B'. injection B' as <-. auto.
Qed.

Lemma indexDocument_outcome path options s info data :
  uniqueIds (tables s) -> txn s = None -> fuse s = None ->
  readable path info data -> pathTaken path (tables s) = false ->
  wp (indexDocument env cfg path options)
    (fun id s' => outcome path info data s (Ok id) s')
    (fun e s' => outcome path info data s (Throw e) s') s.
Proof.
  intros Hu Ht Hf Hread Htaken. apply indexDocument_rule; [exact Hu| | |].
  - intros info1 data1 md s1 (Hread1 & Hmd & Hnil & HM & Ht1 & _).
    destruct (readable_fun_in Hread Hread1) as [-> ->].
    apply wp_bind.
    eapply wp_mono;
      [apply extractConcepts_sameDocs; congruence| |intros e s2 []].
    intros u s2 (Ht2 & A & B & C). apply wp_ret.
    exists md, (tables s1). split; [exact Hmd|]. split; [exact HM|].
    split; [exact Ht2|]. split; [exact A|]. split; [exact C|].
    rewrite Hnil. split; [reflexivity|].
    destruct HM as (d & _ & _ & _ & Hch & _). congruence.
  - intros info1 data1 md c s1
      (Hread1 & Hmd & [rest Hc] & (tM & HM & _ & Htab) & Ht1 & Hf1 & _).
    destruct (readable_fun_in Hread Hread1) as [-> ->].
    specialize (Htab Hf). destruct (upsertChunk_frame (chunkRow c) tM)
      as (A & B & _).
    exists md, tM. split; [exact Hmd|]. split; [exact HM|].
    split; [congruence|]. rewrite Htab. split; [exact A|].
    split; [exact B|]. rewrite Hc. auto.
  - intros e s1 (_ & _ & _ & H). specialize (H Hf info data Hread).
    congruence.
Qed.

(** What holds after such a call, whichever way it ended: the document
    has its row, with an empty full-text content, and the state is one from
    which the file can be indexed again. *)
Lemma outcome_after path info data s r s' :
  outcome path info data s r s' ->
  uniqueIds (tables s') /\ txn s' = None /\
  pathTaken path (tables s') = false /\
  ftsContentOf (sha256 env path) (tables s') = [[]] /\
  exists d, selectDocument (sha256 env path) (tables s') = Some d /\
            d_id d = sha256 env path /\ d_path d = path /\
            d_title d = basename env path /\ d_type d = fi_type info.
Proof.
  intros (md & tM & Hmd & HM & Ht & Hdocs & Hfts & _).
  pose proof (metadataFacts_fts HM) as Hcontent.
  destruct Hmd as (Hid & Htitle & Hpath & Htype).
  destruct HM as (d & Hsel & Hd & _ & _ & _ & Hu & Hnc).
  split; [unfold uniqueIds; rewrite Hdocs; exact Hu|].
  split; [exact Ht|].
  split.
  { unfold pathTaken. rewrite Hdocs. unfold pathClash in Hnc.
    rewrite Hid, Hpath in Hnc. exact Hnc. }
  split.
  { unfold ftsContentOf, selectDocument in *.
    rewrite Hdocs, Hfts, <- Hid. exact Hcontent. }
  exists d. unfold selectDocument in *. rewrite Hdocs, <- Hid.
  split; [exact Hsel|]. rewrite Hd. cbn [d_id d_path d_title d_type
                                          documentRow].
  repeat split; assumption.
Qed.

End WithEnv.

Lemma readable_fun env path info data info' data' :
  readable env path info data -> readable env path info' data' ->
  info' = info /\ data' = data.
Proof. apply readable_fun_in. Qed.

Lemma wp_any {A} (m : M A) s : wp m (fun _ _ => True) (fun _ _ => True) s.
Proof. unfold wp. destruct (m s) as [[a|e] s']; exact I. Qed.

(** The id that is returned is the digest of the path. *)
Lemma indexDocument_id env cfg path options s :
  uniqueIds (tables s) ->
  wp (indexDocument env cfg path options)
    (fun id _ => id = sha256 env path) (fun _ _ => True) s.
Proof.
  intros Hu. apply indexDocument_rule; auto.
  intros info data md s1 _. apply wp_bind.
  eapply wp_mono; [apply wp_any| |auto].
  intros u s2 _. apply wp_ret. reflexivity.
Qed.

Lemma indexDocument_run env cfg path options s info data :
  uniqueIds (tables s) -> txn s = None -> fuse s = None ->
  readable env path info data -> pathTaken env path (tables s) = false ->
  exists r s',
    indexDocument env cfg path options s = (r, s') /\
    outcome env cfg path info data s r s'.
Proof.
  intros Hu Ht Hf Hread Htaken.
  pose proof (@indexDocument_outcome env cfg path options s info data
                Hu Ht Hf Hread Htaken) as W.
  unfold wp in W.
  destruct (indexDocument env cfg path options s) as [[id|e] s'];
    eauto.
Qed.

(** The outcome for a file with a chunk. *)
Lemma outcome_stopped env cfg path info data s r s' :
  JSFacts.blank (fd_content data) = false ->
  outcome env cfg path info data s r s' ->
  exists md tM c rest,
    metadataOf env path info md /\ metadataFacts md (tables s) tM /\
    Chunker.chunkDocument cfg (fd_content data) md = c :: rest /\
    r = Throw DatabaseError /\
    tables s' = upsertChunk (chunkRow c) tM /\ fuse s' = None.
Proof.
  intros Hb (md & tM & Hmd & HM & _ & _ & _ & Hcase).
  pose proof (@chunkTexts_nonblank cfg _ Hb) as Hne.
  rewrite <- (chunkTexts_of cfg (fd_content data) md) in Hne.
  destruct (Chunker.chunkDocument cfg (fd_content data) md) as [|c rest]
    eqn:Ec; [destruct Hne; reflexivity|].
  destruct Hcase as (Hr & Htab & Hf).
  exists md, tM, c, rest. repeat split; try assumption; apply Hmd.
Qed.

(** C2. The id that [indexDocument] returns, when it returns, is the
    digest of the path, whatever the options and the store.  But for a file
    that can be read and whose text has a character other than white space
    it does not return: with no other database fault and no other document
    at the path, the call throws [DatabaseError] once the row of the first
    chunk is written, and so does a second call for the same path.  The
    chunk rows after the first call are those of before with the row of the
    first chunk written, and the second call leaves them as they are. *)
Theorem indexDocument_stops_at_first_chunk env cfg :
  (forall path options s id s',
     uniqueIds (tables s) ->
     indexDocument env cfg path options s = (Ok id, s') ->
     id = sha256 env path) /\
  (forall path o1 o2 s0 info data,
     uniqueIds (tables s0) -> txn s0 = None -> fuse s0 = None ->
     readable env path info data ->
     pathTaken env path (tables s0) = false ->
     JSFacts.blank (fd_content data) = false ->
     exists s1 s2 row,
       indexDocument env cfg path o1 s0 = (Throw DatabaseError, s1) /\
       indexDocument env cfg path o2 s1 = (Throw DatabaseError, s2) /\
       c_document_id row = sha256 env path /\
       [c_content row] = firstn 1 (chunkTexts cfg (fd_content data)) /\
       document_chunks (tables s1)
       = document_chunks (upsertChunk row (tables s0)) /\
       document_chunks (tables s2) = document_chunks (tables s1)).
Proof.
  split.
  { intros path options s id s' Hu Hrun.
    exact (wp_run_eq Hrun (indexDocument_id env cfg path options Hu)). }
  intros path o1 o2 s0 info data Hu Ht Hf Hread Htaken Hb.
  destruct (@indexDocument_run env cfg path o1 s0 info data
              Hu Ht Hf Hread Htaken) as (r1 & s1 & Hrun1 & O1).
  destruct (outcome_after O1) as (Hu1 & Ht1 & Htaken1 & _).
  destruct (outcome_stopped Hb O1)
    as (md & tM & c & rest & Hmd & HM & Hc & -> & Htab1 & Hf1).
  destruct (@indexDocument_run env cfg path o2 s1 info data
              Hu1 Ht1 Hf1 Hread Htaken1) as (r2 & s2 & Hrun2 & O2).
  destruct (outcome_stopped Hb O2)
    as (md' & tM' & c' & rest' & Hmd' & HM' & Hc' & -> & Htab2 & _).
  destruct Hmd as (Mi & Mt & _ & My). destruct Hmd' as (Mi' & Mt' & _ & My').
  rewrite (@chunkDocument_md cfg (fd_content data) md' md) in Hc'
    by congruence.
  rewrite Hc in Hc'. injection Hc' as <- <-.
  exists s1, s2, (chunkRow c).
  split; [exact Hrun1|]. split; [exact Hrun2|].
  assert (Hrows : forall t tN, metadataFacts md t tN ->
                    document_chunks tN = document_chunks t).
  { intros t tN (d & _ & _ & _ & H & _). exact H. }
  assert (Hrows' : document_chunks tM' = document_chunks (tables s1)).
  { destruct HM' as (d & _ & _ & _ & H & _). exact H. }
  split.
  { cbn [c_document_id chunkRow]. rewrite <- Mi.
    apply (@chunkDocument_documentId cfg (fd_content data) md).
    rewrite Hc. left. reflexivity. }
  split.
  { rewrite <- (chunkTexts_of cfg (fd_content data) md), Hc. reflexivity. }
  split.
  { rewrite Htab1. apply upsertChunk_rows_eq, (Hrows _ _ HM). }
  rewrite Htab2, (upsertChunk_rows_eq (chunkRow c) Hrows'), Htab1.
  apply upsertChunk_again.
Qed.

Lemma indexDocument_stops_at_first_chunk_witness :
  exists s1 s2 row,
    indexDocument Sample.env Sample.cfg Sample.aPath Sample.plain
      initialState
    = (Throw DatabaseError, s1) /\
    indexDocument Sample.env Sample.cfg Sample.aPath Sample.plain s1
    = (Throw DatabaseError, s2) /\
    c_document_id row = Sample.digest Sample.aPath /\
    [c_content row]
    = firstn 1 (chunkTexts Sample.cfg (fd_content (Sample.textData "hello")))
    /\
    document_chunks (tables s1)
    = document_chunks (upsertChunk row (tables initialState)) /\
    document_chunks (tables s2) = document_chunks (tables s1).
Proof.
  apply (proj2 (indexDocument_stops_at_first_chunk Sample.env Sample.cfg)
           Sample.aPath Sample.plain Sample.plain initialState
           (Sample.textInfo "hello") (Sample.textData "hello")).
  - constructor.
  - reflexivity.
  - reflexivity.
  - split; reflexivity.
  - reflexivity.
  - reflexivity.
Defined.

(** The file ["/kb/a.txt"] holds [hello]: both calls throw, and what is
    stored is the document and the row of its only chunk. *)
Example indexDocument_twice_on_hello :
  indexDocument Sample.env Sample.cfg Sample.aPath Sample.plain initialState
  = (Throw DatabaseError, Sample.indexedOnce) /\
  indexDocument Sample.env Sample.cfg Sample.aPath Sample.plain
    Sample.indexedOnce
  = (Throw DatabaseError, Sample.indexedTwice) /\
  map d_id (documents (tables Sample.indexedTwice))
  = [Sample.digest Sample.aPath] /\
  map c_content (document_chunks (tables Sample.indexedTwice))
  = [str "hello"].
Proof. repeat split; vm_compute; reflexivity. Qed.




(** *** A reply that is not JSON *)

Lemma wp_both {A} (m : M A) (Q1 Q2 : A -> State -> Prop)
  (E1 E2 : Error -> State -> Prop) s :
  wp m Q1 E1 s -> wp m Q2 E2 s ->
  wp m (fun a s' => Q1 a s' /\ Q2 a s') (fun e s' => E1 e s' /\ E2 e s') s.
Proof. unfold wp. destruct (m s) as [[a|e] s']; auto. Qed.





(** The same reply when the file holds [hello]: the call throws, and the
    reply is still to come. *)
Example unparsed_reply_not_reached :
  let (r, s') := indexDocument Sample.env Sample.cfg Sample.aPath
                   Sample.plain Sample.garbled in
  r = Throw DatabaseError /\ chat s' = chat Sample.garbled.
Proof. vm_compute. split; reflexivity. Qed.

End IndexFacts.

(* ================================================================== *)
(** ** Frequencies and weights over the life of the service *)

Module MonotoneFacts.

Import Json Sql Service Hoare PassFacts GraphFacts SaveFacts IndexFacts.

Local Open Scope Q_scope.




Lemma sameGraph_select t t' id :
  sameGraph t t' -> selectConcept id t' = selectConcept id t.
Proof. intros [A _]. unfold selectConcept. rewrite A. reflexivity. Qed.


Section WithEnv.

Variable env : Env.
Variable cfg : Config.

Hypothesis sha_inj : forall a b, sha256 env a = sha256 env b -> a = b.
Hypothesis sha_hex : forall a, ~ In 95%N (sha256 env a).







(** *** What a pass does *)


(** An element of the reply that the loops take: its name and its type are
    non-empty strings and its description, if any, can be bound. *)
Definition valid (concept : json) : Prop :=
  exists n ty d b,
    getProp concept (str "name") = Ok (Some (JStr n)) /\ n <> [] /\
    getProp concept (str "type") = Ok (Some (JStr ty)) /\ ty <> [] /\
    getProp concept (str "description") = Ok d /\
    bindDescription d = Ok b.
















End WithEnv.







Lemma sample_valid : Forall valid [Sample.concept "Rocq" "topic";
                                  Sample.concept "Proof" "concept"].
Proof.
  repeat constructor;
    [exists (str "Rocq"), (str "topic"), None, None
    |exists (str "Proof"), (str "concept"), None, None];
    repeat split; discriminate.
Qed.


(** The two concepts of the sample reply, after one pass and after two. *)
Example passes_on_sample :
  Forall valid [Sample.concept "Rocq" "topic"; Sample.concept "Proof" "concept"] /\
  processConceptsChunk Sample.env (str "hello") (Sample.digest Sample.aPath)
    Sample.answering
  = (Ok tt, Sample.passedOnce) /\
  map (fun k => (k_name k, k_frequency k))
    (concepts (tables Sample.passedOnce))
  = [(str "Rocq", 1%nat); (str "Proof", 1%nat)] /\
  map (fun r => (r_relationship_type r, r_weight r))
    (relationships (tables Sample.passedOnce))
  = [(CONTAINS, 1); (CONTAINS, 1); (RELATED, 1)] /\
  map (fun k => (k_name k, k_frequency k))
    (concepts (tables Sample.passedTwice))
  = [(str "Rocq", 2%nat); (str "Proof", 2%nat)] /\
  map (fun r => (r_relationship_type r, Qred (r_weight r)))
    (relationships (tables Sample.passedTwice))
  = [(RELATED, 3 # 2); (CONTAINS, 2); (CONTAINS, 2)].
Proof.
  split; [exact sample_valid|].
  repeat split; vm_compute; reflexivity.
Qed.

End MonotoneFacts.

(* ================================================================== *)
(** ** Semantic search without a vector index *)

Module SearchFacts.

Import Json Sql Service.

Definition semantic : SearchOptions :=
  {| so_limit := None; so_offset := None; so_types := None;
     so_startDate := None; so_endDate := None; so_tags := None;
     so_useSemanticSearch := true |}.

(** C5. The row that [saveDocumentChunk] writes for a chunk does not
    depend on the chunk's embedding: the metadata column holds the title
    and the type only.  So after the call of [indexDocument] for
    ["/kb/a.txt"] with [generateEmbeddings], no vector index being
    configured (the call throws once the row of the chunk is written), the
    embedding model is loaded, the chunk is stored, no stored chunk matches
    the [LIKE] of the fallback, and the semantic search for its text
    returns no result. *)
Theorem semantic_fallback_misses_indexed_chunks :
  (forall chunk v, chunkRow (withEmbedding chunk v) = chunkRow chunk) /\
  indexDocument Sample.env Sample.cfg Sample.aPath Sample.withEmbeddings
    initialState
  = (Throw DatabaseError, Sample.indexedWithEmbeddings) /\
  vectorStore Sample.indexedWithEmbeddings = None /\
  embeddingModel Sample.indexedWithEmbeddings = true /\
  map c_content (document_chunks (tables Sample.indexedWithEmbeddings))
  = [str "hello"] /\
  embeddingRows (tables Sample.indexedWithEmbeddings) = [] /\
  fst (searchDocuments (num := Vector.RNumber) Sample.env (str "hello")
         semantic Sample.indexedWithEmbeddings)
  = Ok [].
Proof.
  split; [reflexivity|].
  split; [vm_compute; reflexivity|].
  split; [reflexivity|].
  split; [reflexivity|].
  split; [vm_compute; reflexivity|].
  split; [vm_compute; reflexivity|].
  vm_compute. reflexivity.
Qed.

End SearchFacts.

(* ================================================================== *)
(** ** The progress record of indexDirectory *)

Module ProgressFacts.

Import Json Sql Service Hoare.

Local Open Scope monad_scope.

(** [m] leaves the progress record alone. *)
Definition keeps {A} (m : M A) : Prop :=
  forall s, indexingProgress (snd (m s)) = indexingProgress s.

Lemma keeps_ret {A} (a : A) : keeps (ret a).
Proof. intros s. reflexivity. Qed.

Lemma keeps_throw {A} e : keeps (@throw A e).
Proof. intros s. reflexivity. Qed.

Lemma keeps_gets {A} (f : State -> A) : keeps (gets f).
Proof. intros s. reflexivity. Qed.

Lemma keeps_liftResult {A} (r : Result A) : keeps (liftResult r).
Proof. intros s. reflexivity. Qed.

Lemma keeps_modify (f : State -> State) :
  (forall s, indexingProgress (f s) = indexingProgress s) ->
  keeps (modify f).
Proof. intros H s. apply H. Qed.

Lemma keeps_bind {A B} (m : M A) (k : A -> M B) :
  keeps m -> (forall a, keeps (k a)) -> keeps (bind m k).
Proof.
  intros Hm Hk s. unfold bind. specialize (Hm s).
  destruct (m s) as [[a|e] s1]; [|exact Hm].
  rewrite (Hk a s1). exact Hm.
Qed.

Lemma keeps_tryCatch {A} (m : M A) (h : Error -> M A) :
  keeps m -> (forall e, keeps (h e)) -> keeps (tryCatch m h).
Proof.
  intros Hm Hh s. unfold tryCatch. specialize (Hm s).
  destruct (m s) as [[a|e] s1]; [exact Hm|].
  rewrite (Hh e s1). exact Hm.
Qed.

Lemma keeps_forEach {A} (l : list A) (body : A -> M unit) :
  (forall x, keeps (body x)) -> keeps (forEach l body).
Proof.
  intros Hb. induction l as [|x l IH]; simpl.
  - apply keeps_ret.
  - apply keeps_bind; [apply Hb|intros _; exact IH].
Qed.

Lemma keeps_tick : keeps tick.
Proof. intros s. unfold tick. destruct (fuse s) as [[|n]|]; reflexivity. Qed.

Lemma keeps_query {A} (f : Tables -> A) : keeps (query f).
Proof.
  apply keeps_bind; [apply keeps_tick|intros _; apply keeps_gets].
Qed.

Lemma keeps_run f : keeps (run f).
Proof.
  apply keeps_bind; [apply keeps_tick|]. intros _ s.
  destruct (f (tables s)); reflexivity.
Qed.

Lemma keeps_execBegin : keeps execBegin.
Proof.
  apply keeps_bind; [apply keeps_tick|]. intros _ s.
  destruct (txn s); reflexivity.
Qed.

Lemma keeps_execCommit : keeps execCommit.
Proof.
  apply keeps_bind; [apply keeps_tick|]. intros _ s.
  destruct (txn s); reflexivity.
Qed.

Lemma keeps_execRollback : keeps execRollback.
Proof.
  apply keeps_bind; [apply keeps_tick|]. intros _ s.
  destruct (txn s); reflexivity.
Qed.

Create HintDb keeps.

#[local] Hint Resolve keeps_tick keeps_execBegin keeps_execCommit
  keeps_execRollback : keeps.

(** One step through a program built from the operations above. *)
Ltac keeps_step :=
  lazymatch goal with
  | |- keeps (bind _ _) => apply keeps_bind; [|intro]
  | |- keeps (tryCatch _ _) => apply keeps_tryCatch; [|intro]
  | |- keeps (forEach _ _) => apply keeps_forEach; intro
  | |- keeps (ret _) => apply keeps_ret
  | |- keeps (throw _) => apply keeps_throw
  | |- keeps (gets _) => apply keeps_gets
  | |- keeps (liftResult _) => apply keeps_liftResult
  | |- keeps (query _) => apply keeps_query
  | |- keeps (run _) => apply keeps_run
  | |- keeps (modify _) => apply keeps_modify; intro; reflexivity
  | |- keeps (match ?x with _ => _ end) => destruct x
  | |- keeps _ => solve [auto with keeps]
  end.

Ltac keeps_all := repeat keeps_step.

Section WithEnv.

Variable env : Env.
Variable cfg : Config.

Lemma keeps_newDate : keeps newDate.
Proof. intros s. reflexivity. Qed.

Lemma keeps_sendChatMessage : keeps sendChatMessage.
Proof.
  intros s. unfold sendChatMessage. destruct (chat s) as [|[text|] rest];
    reflexivity.
Qed.

Hint Resolve keeps_newDate keeps_sendChatMessage : keeps.

Lemma keeps_processFile filePath : keeps (processFile env filePath).
Proof. unfold processFile. keeps_all. Qed.

Lemma keeps_generateEmbedding text : keeps (generateEmbedding env text).
Proof. unfold generateEmbedding, initialize. keeps_all. Qed.

Lemma keeps_saveDocumentMetadata md : keeps (saveDocumentMetadata md).
Proof. unfold saveDocumentMetadata. keeps_all. Qed.

Lemma keeps_saveDocumentChunk chunk : keeps (saveDocumentChunk chunk).
Proof. unfold saveDocumentChunk. keeps_all. Qed.

Lemma keeps_summarizeParts parts :
  forall summaries, keeps (summarizeParts parts summaries).
Proof.
  induction parts as [|p parts IH]; intros summaries; simpl.
  - apply keeps_ret.
  - apply keeps_bind; [keeps_all|]. intros [summary|]; [apply IH|].
    apply keeps_ret.
Qed.

Hint Resolve keeps_processFile keeps_generateEmbedding
  keeps_saveDocumentMetadata keeps_saveDocumentChunk keeps_summarizeParts
  : keeps.

Lemma keeps_generateSummary content : keeps (generateSummary env content).
Proof. unfold generateSummary. keeps_all. Qed.

Lemma keeps_extractKeyPoints content : keeps (extractKeyPoints env content).
Proof. unfold extractKeyPoints. keeps_all. Qed.

Lemma keeps_processConcept documentId concept :
  keeps (processConcept env documentId concept).
Proof. unfold processConcept. keeps_all. Qed.

Lemma keeps_processPair p : keeps (processPair env p).
Proof. unfold processPair. keeps_all. Qed.

Hint Resolve keeps_generateSummary keeps_extractKeyPoints
  keeps_processConcept keeps_processPair : keeps.

Lemma keeps_extractConcepts content documentId :
  keeps (extractConcepts env content documentId).
Proof.
  unfold extractConcepts, processConceptsChunk, graphMutation. keeps_all.
Qed.

Lemma keeps_indexChunk options md chunk :
  keeps (indexChunk env options md chunk).
Proof.
  unfold indexChunk. keeps_all. apply keeps_modify. intros s.
  destruct (vectorStore s); reflexivity.
Qed.

Hint Resolve keeps_extractConcepts keeps_indexChunk : keeps.

Lemma keeps_indexDocument filePath options :
  keeps (indexDocument env cfg filePath options).
Proof. unfold indexDocument. keeps_all. Qed.

(** *** The counters *)

(** The callback, if there is one, returns on every snapshot. *)
Definition quiet (options : DirectoryOptions) : Prop :=
  match do_onProgress options with
  | Some callback => forall p, callback p = true
  | None => True
  end.

(** The files that are indexed: those of the wanted types, up to
    [maxFiles]. *)
Definition selected (options : DirectoryOptions) (files : list jsstring)
  : list jsstring :=
  let filesToProcess :=
    match do_fileTypes options with
    | Some (t :: ts) =>
        filter (fun file =>
                  existsb (DocumentType_eqb (detectFileType env file))
                    (t :: ts)) files
    | _ => files
    end in
  match do_maxFiles options with
  | Some (S n) => firstn (S n) filesToProcess
  | _ => filesToProcess
  end.

Definition indexOptionsOf (options : DirectoryOptions) : IndexOptions :=
  {| generateEmbeddings := do_generateEmbeddings options;
     extractKeyPointsOpt := do_extractKeyPoints options;
     generateSummaryOpt := do_generateSummary options;
     tags := None |}.

(** The progress after [n] more files were handled. *)
Definition advanced (n : nat) (p p' : IndexingProgress) : Prop :=
  total p' = total p /\ status p' = status p /\
  processed p' + failed p' = processed p + failed p + n.

Lemma notify_quiet options s :
  quiet options -> notify options s = (Ok tt, s).
Proof.
  unfold quiet, notify. destruct (do_onProgress options) as [callback|];
    [|reflexivity].
  intros H. unfold bind, gets. rewrite H. reflexivity.
Qed.

(** One file: exactly one of the two counters goes up by one, [processed]
    when [indexDocument] returned and [failed] when it threw. *)
Lemma indexOne_run options file s :
  quiet options ->
  exists s',
    indexOne env cfg options file s = (Ok tt, s') /\
    total (indexingProgress s') = total (indexingProgress s) /\
    status (indexingProgress s') = status (indexingProgress s) /\
    match fst (indexDocument env cfg file (indexOptionsOf options) s) with
    | Ok _ =>
        processed (indexingProgress s') = processed (indexingProgress s) + 1
        /\ failed (indexingProgress s') = failed (indexingProgress s)
    | Throw _ =>
        processed (indexingProgress s') = processed (indexingProgress s)
        /\ failed (indexingProgress s') = failed (indexingProgress s) + 1
    end.
Proof.
  intros Hq. unfold indexOne, indexOptionsOf.
  pose proof (keeps_indexDocument file
                {| generateEmbeddings := do_generateEmbeddings options;
                   extractKeyPointsOpt := do_extractKeyPoints options;
                   generateSummaryOpt := do_generateSummary options;
                   tags := None |} s) as Hk.
  unfold bind at 1. unfold tryCatch, bind, updateProgress, modify.
  destruct (indexDocument env cfg file _ s) as [[id|e] s1]; cbn in Hk |- *;
    rewrite (notify_quiet _ Hq); eexists; (split; [reflexivity|]);
    cbn; rewrite Hk; auto.
Qed.

Lemma indexOne_advanced options file s :
  quiet options ->
  exists s',
    indexOne env cfg options file s = (Ok tt, s') /\
    advanced 1 (indexingProgress s) (indexingProgress s').
Proof.
  intros Hq. destruct (indexOne_run file s Hq) as (s' & Hrun & Ht & Hs & Hc).
  exists s'. split; [exact Hrun|]. split; [exact Ht|]. split; [exact Hs|].
  destruct (fst _); lia.
Qed.

Lemma advanced_trans n m p1 p2 p3 :
  advanced n p1 p2 -> advanced m p2 p3 -> advanced (n + m) p1 p3.
Proof.
  unfold advanced. intros (A & B & C) (D & E & F).
  split; [congruence|]. split; [congruence|lia].
Qed.

Lemma awaitAll_run options batch : forall s,
  quiet options ->
  exists s',
    awaitAll env cfg options batch s = (Ok None, s') /\
    advanced (length batch) (indexingProgress s) (indexingProgress s').
Proof.
  induction batch as [|file rest IH]; intros s Hq.
  - exists s. split; [reflexivity|]. unfold advanced.
    repeat split; simpl; lia.
  - destruct (indexOne_advanced file s Hq) as (s1 & H1 & A1).
    destruct (IH s1 Hq) as (s2 & H2 & A2).
    exists s2. split.
    + cbn [awaitAll]. unfold bind, tryCatch. rewrite H1. cbn.
      unfold bind in H2. rewrite H2. reflexivity.
    + exact (advanced_trans A1 A2).
Qed.

Lemma batches_run options bs : forall s,
  quiet options ->
  exists s',
    forEach bs (runBatch env cfg options) s = (Ok tt, s') /\
    advanced (length (List.concat bs)) (indexingProgress s)
      (indexingProgress s').
Proof.
  induction bs as [|b bs IH]; intros s Hq.
  - exists s. split; [reflexivity|]. unfold advanced.
    repeat split; simpl; lia.
  - destruct (awaitAll_run b s Hq) as (s1 & H1 & A1).
    destruct (IH s1 Hq) as (s2 & H2 & A2).
    exists s2. split.
    + cbn [forEach]. unfold bind, runBatch, bind. rewrite H1. cbn.
      exact H2.
    + simpl. rewrite length_app. exact (advanced_trans A1 A2).
Qed.

Lemma batchesOf_concat {A} size : (1 <= size)%nat ->
  forall fuel (l : list A), (length l <= fuel)%nat ->
    List.concat (batchesOf fuel size l) = l.
Proof.
  intros Hsize. induction fuel as [|fuel IH]; intros l Hl.
  - destruct l; [reflexivity|simpl in Hl; lia].
  - destruct l as [|a l]; [reflexivity|].
    cbn [batchesOf List.concat]. rewrite IH.
    + apply firstn_skipn.
    + rewrite length_skipn. simpl in Hl |- *.
      destruct size; [inversion Hsize|lia].
Qed.

Lemma batches_concat {A} size (l : list A) :
  (1 <= size)%nat -> List.concat (batches size l) = l.
Proof. intros H. apply batchesOf_concat; [exact H|lia]. Qed.

(** The snapshot that a run over [n] files returns. *)
Definition completedOver (n : nat) (p : IndexingProgress) : Prop :=
  total p = n /\ processed p + failed p = n /\ status p = Completed.

Lemma indexDirectory_wp dirPath options root files s :
  fsStat env dirPath = Some root ->
  getFilesInDirectory env dirPath root (do_recursive options) = Ok files ->
  quiet options -> (1 <= maxConcurrentProcessing cfg)%nat ->
  wp (indexDirectory env cfg dirPath options)
    (fun p s' => completedOver (length (selected options files)) p /\
                 indexingProgress s' = p)
    (fun _ _ => False) s.
Proof.
  intros Hstat Hfiles Hq Hsize. unfold indexDirectory. rewrite Hstat.
  apply wp_bind. unfold wp at 1, newDate.
  apply wp_bind, wp_modify, wp_tryCatch.
  apply wp_bind, wp_liftResult. rewrite Hfiles.
  fold (selected options files).
  apply wp_bind, wp_modify.
  apply wp_bind. unfold wp at 1. rewrite (notify_quiet _ Hq).
  apply wp_bind. unfold wp at 1.
  match goal with
  | |- match forEach _ _ ?s1 with _ => _ end =>
      destruct (batches_run (batches (maxConcurrentProcessing cfg)
                               (selected options files)) s1 Hq)
        as (s2 & Hrun & Ht & Hs & Hc)
  end.
  rewrite Hrun. rewrite batches_concat in Hc by exact Hsize.
  cbn in Ht, Hs, Hc.
  apply wp_bind. unfold wp at 1, newDate.
  apply wp_bind, wp_modify, wp_gets. cbn.
  split; [|reflexivity]. unfold completedOver, finished. cbn.
  split; [exact Ht|]. split; [exact Hc|reflexivity].
Qed.

End WithEnv.

(** C3 (as the code has it). [indexDirectory] throws when nothing exists
    at the root path, and it throws as well, with status [error], when the
    files cannot be listed although the root exists, or when the callback
    throws.  When the files can be listed, the batch size is at least one
    and the callback, if any, returns, it returns a snapshot with [total]
    the number of files selected, [processed + failed = total] and status
    [completed], whatever [indexDocument] does on each file; a file on
    which [indexDocument] throws adds one to [failed], any other adds one
    to [processed], and the run goes on. *)
Theorem indexDirectory_progress env cfg :
  (forall dirPath options s,
     fsStat env dirPath = None ->
     indexDirectory env cfg dirPath options s
     = (Throw KnowledgeBaseError, s)) /\
  (forall dirPath options s root e,
     fsStat env dirPath = Some root ->
     getFilesInDirectory env dirPath root (do_recursive options)
     = Throw e ->
     exists s',
       indexDirectory env cfg dirPath options s
       = (Throw KnowledgeBaseError, s') /\
       status (indexingProgress s') = Failed) /\
  (forall dirPath options s root files,
     fsStat env dirPath = Some root ->
     getFilesInDirectory env dirPath root (do_recursive options)
     = Ok files ->
     quiet options -> (1 <= maxConcurrentProcessing cfg)%nat ->
     exists p s',
       indexDirectory env cfg dirPath options s = (Ok p, s') /\
       completedOver (length (selected env options files)) p) /\
  (forall dirPath options s root files callback,
     fsStat env dirPath = Some root ->
     getFilesInDirectory env dirPath root (do_recursive options)
     = Ok files ->
     do_onProgress options = Some callback ->
     (forall p, callback p = false) ->
     exists s',
       indexDirectory env cfg dirPath options s
       = (Throw KnowledgeBaseError, s') /\
       status (indexingProgress s') = Failed) /\
  (forall options file s,
     quiet options ->
     exists s',
       indexOne env cfg options file s = (Ok tt, s') /\
       match fst (indexDocument env cfg file (indexOptionsOf options) s) with
       | Ok _ =>
           processed (indexingProgress s')
           = processed (indexingProgress s) + 1 /\
           failed (indexingProgress s') = failed (indexingProgress s)
       | Throw _ =>
           processed (indexingProgress s') = processed (indexingProgress s)
           /\ failed (indexingProgress s')
              = failed (indexingProgress s) + 1
       end).
Proof.
  split; [|split; [|split; [|split]]].
  - intros dirPath options s Hstat. unfold indexDirectory.
    rewrite Hstat. reflexivity.
  - intros dirPath options s root e Hstat Hfiles.
    unfold indexDirectory. rewrite Hstat.
    unfold bind, newDate, modify, tryCatch, liftResult, updateProgress,
      throw.
    rewrite Hfiles. eexists. split; reflexivity.
  - intros dirPath options s root files Hstat Hfiles Hq Hsize.
    pose proof (@indexDirectory_wp env cfg dirPath options root files s
                  Hstat Hfiles Hq Hsize) as W.
    unfold wp in W.
    destruct (indexDirectory env cfg dirPath options s) as [[p|e] s'];
      [|destruct W].
    exists p, s'. split; [reflexivity|apply W].
  - intros dirPath options s root files callback Hstat Hfiles Hcb Hthrows.
    unfold indexDirectory. rewrite Hstat. unfold updateProgress, notify.
    rewrite Hcb.
    unfold bind, newDate, modify, tryCatch, liftResult, gets, throw.
    rewrite Hfiles, Hthrows. eexists. split; reflexivity.
  - intros options file s Hq.
    destruct (@indexOne_run env cfg options file s Hq)
      as (s' & Hrun & _ & _ & Hc).
    exists s'. split; [exact Hrun|exact Hc].
Qed.

Lemma indexDirectory_progress_witness :
  exists p s',
    indexDirectory Sample.env Sample.cfg (str "/kb") Sample.wholeDirectory
      initialState
    = (Ok p, s') /\
    completedOver 3 p.
Proof.
  apply (proj1 (proj2 (proj2 (indexDirectory_progress Sample.env
                                Sample.cfg)))
           (str "/kb") Sample.wholeDirectory initialState
           (FsDir Sample.files)
           [str "/kb/a.txt"; str "/kb/b.txt"; str "/kb/c.txt"]).
  - reflexivity.
  - reflexivity.
  - exact I.
  - apply Nat.leb_le. reflexivity.
Defined.

(** Three text files, no enrichment: [indexDocument] throws on each of
    them, at its first chunk, and all three count as failed. *)
Example indexDirectory_three_files :
  exists s',
    indexDirectory Sample.env Sample.cfg (str "/kb") Sample.wholeDirectory
      initialState
    = (Ok {| total := 3; processed := 0; failed := 3; status := Completed;
             error := None; startTime := Some 0%N; endTime := Some 4%N |},
       s').
Proof. eexists. vm_compute. reflexivity. Qed.

(** The directory ["/links"] exists and can be listed; its one entry is a
    link to nothing.  [indexDirectory] throws on it. *)
Lemma indexDirectory_throws_on_existing_root :
  Sample.stat (str "/links") = Some (FsDir [(str "gone", FsBroken)]) /\
  fst (indexDirectory Sample.env Sample.cfg (str "/links")
         Sample.wholeDirectory initialState)
  = Throw KnowledgeBaseError /\
  status (indexingProgress
            (snd (indexDirectory Sample.env Sample.cfg (str "/links")
                    Sample.wholeDirectory initialState)))
  = Failed.
Proof. repeat split; vm_compute; reflexivity. Qed.

End ProgressFacts.

(* ================================================================== *)
(** ** More on cosine similarity *)

Module SimilarityFacts.

Import Vector VectorFacts.

Local Open Scope R_scope.

(** [cosineSimilarity] throws exactly on vectors of different lengths,
    whatever the arithmetic. *)
Theorem cosineSimilarity_throws_iff {F : Type} {num : Number F}
  (a b : list F) :
  (cosineSimilarity a b = Throw PlainError <-> length a <> length b) /\
  ((exists x, cosineSimilarity a b = Ok x) <-> length a = length b).
Proof.
  unfold cosineSimilarity.
  destruct (Nat.eqb_spec (length a) (length b)) as [E|E]; cbn [negb].
  - destruct (fold_left accumulate (combine a b) (fzero, fzero, fzero))
      as [[d na] nb].
    destruct (fisZero na || fisZero nb); split; split;
      intros H; try congruence; eauto; discriminate.
  - split; split; intros H; try congruence; try reflexivity.
    destruct H as [x H]. discriminate.
Qed.

Lemma sumProducts_comm (a : list R) : forall b,
  sumProducts (combine a b) = sumProducts (combine b a).
Proof.
  induction a as [|x a IH]; intros [|y b]; simpl; try reflexivity.
  rewrite IH. ring.
Qed.

(** X1. In exact arithmetic [cosineSimilarity] does not depend on the order of
    its arguments. *)
Theorem cosineSimilarity_symmetric (a b : list R) :
  cosineSimilarity a b = cosineSimilarity b a.
Proof.
  destruct (Nat.eq_dec (length a) (length b)) as [E|E].
  - rewrite (cosineSimilarity_unfold E), (cosineSimilarity_unfold (eq_sym E)).
    rewrite orb_comm, sumProducts_comm, (Rmult_comm (sqrt (sumSquares a))).
    reflexivity.
  - unfold cosineSimilarity.
    rewrite (proj2 (Nat.eqb_neq _ _) E).
    rewrite (proj2 (Nat.eqb_neq _ _) (fun H => E (eq_sym H))).
    reflexivity.
Qed.

(** Cauchy-Schwarz on the sums the loop accumulates. *)
Lemma sumProducts_bound (a : list R) : forall b,
  sumProducts (combine a b) * sumProducts (combine a b)
  <= sumSquares (map fst (combine a b)) * sumSquares (map snd (combine a b)).
Proof.
  induction a as [|x a IH]; intros [|y b]; simpl; try lra.
  specialize (IH b).
  set (d := sumProducts (combine a b)) in *.
  set (A := sumSquares (map fst (combine a b))) in *.
  set (B := sumSquares (map snd (combine a b))) in *.
  assert (HA : 0 <= A) by apply sumSquares_nonneg.
  assert (HB : 0 <= B) by apply sumSquares_nonneg.
  assert (Hmix : 2 * d * (x * y) <= A * (y * y) + B * (x * x)).
  { assert (Hs : 0 <= A * (y * y) + B * (x * x)) by nra.
    assert (Hq : (2 * d * (x * y)) * (2 * d * (x * y))
                 <= (A * (y * y) + B * (x * x))
                    * (A * (y * y) + B * (x * x))).
    { assert (H1 : 4 * (d * d) * (x * x * (y * y))
                   <= 4 * (A * B) * (x * x * (y * y))).
      { apply Rmult_le_compat_r; [nra|lra]. }
      pose proof (Rle_0_sqr (A * (y * y) - B * (x * x))) as H2.
      unfold Rsqr in H2. nra. }
    destruct (Rle_lt_dec (2 * d * (x * y)) (A * (y * y) + B * (x * x)))
      as [H|H]; [exact H|]. nra. }
  nra.
Qed.

(** In exact arithmetic the similarity lies between [-1] and [1]. *)
Lemma cosineSimilarity_real_bounded (a b : list R) (x : R) :
  cosineSimilarity a b = Ok x -> -1 <= x <= 1.
Proof.
  intros H.
  assert (E : length a = length b).
  { apply (proj2 (cosineSimilarity_throws_iff a b)). eauto. }
  rewrite (cosineSimilarity_unfold E) in H.
  destruct (fisZero (sumSquares a) || fisZero (sumSquares b)) eqn:Ez.
  - injection H as <-. lra.
  - apply orb_false_elim in Ez. destruct Ez as [Ea Eb].
    assert (Ha : 0 < sumSquares a).
    { pose proof (sumSquares_nonneg a).
      destruct (Req_dec_T (sumSquares a) 0) as [Z|Z]; [|lra].
      apply fisZero_R in Z. congruence. }
    assert (Hb : 0 < sumSquares b).
    { pose proof (sumSquares_nonneg b).
      destruct (Req_dec_T (sumSquares b) 0) as [Z|Z]; [|lra].
      apply fisZero_R in Z. congruence. }
    injection H as <-.
    pose proof (sumProducts_bound a b) as Hcs.
    rewrite (map_fst_combine E), (map_snd_combine E) in Hcs.
    set (d := sumProducts (combine a b)) in *.
    set (p := sqrt (sumSquares a)). set (q := sqrt (sumSquares b)).
    assert (Hp : 0 < p) by (apply sqrt_lt_R0; exact Ha).
    assert (Hq : 0 < q) by (apply sqrt_lt_R0; exact Hb).
    assert (Hpp : p * p = sumSquares a) by (apply sqrt_sqrt; lra).
    assert (Hqq : q * q = sumSquares b) by (apply sqrt_sqrt; lra).
    assert (Hpq : 0 < p * q) by nra.
    assert (Hd : d * d <= (p * q) * (p * q)) by nra.
    assert (Hle : d <= p * q) by nra.
    assert (Hge : - (p * q) <= d) by nra.
    split.
    + apply Rmult_le_reg_r with (r := p * q); [exact Hpq|].
      unfold Rdiv. rewrite Rmult_assoc, Rinv_l by lra. lra.
    + apply Rmult_le_reg_r with (r := p * q); [exact Hpq|].
      unfold Rdiv. rewrite Rmult_assoc, Rinv_l by lra. lra.
Qed.

Section Binary64.

Import Stdlib.Floats.Floats.

(** X2. In exact arithmetic the similarity lies between [-1] and [1]; in
    binary64, as the code computes it, it can exceed [1]: the similarity of
    [[805306377, 1073741836]] with itself is [1.0000000000000002]. *)
Theorem cosineSimilarity_bounded :
  (forall (a b : list R) (x : R),
     cosineSimilarity a b = Ok x -> (-1 <= x <= 1)%R) /\
  cosineSimilarity [805306377%float; 1073741836%float]
    [805306377%float; 1073741836%float]
  = Ok 0x1.0000000000001p+0%float /\
  PrimFloat.ltb 1 0x1.0000000000001p+0 = true.
Proof.
  split; [exact cosineSimilarity_real_bounded|].
  split; vm_compute; reflexivity.
Qed.

End Binary64.

Lemma cosineSimilarity_bounded_witness :
  -1 <= 1 <= 1.
Proof.
  apply (proj1 cosineSimilarity_bounded [3; 4] [3; 4] 1).
  rewrite (cosineSimilarity_unfold (a := [3; 4]) (b := [3; 4]) eq_refl).
  assert (Hpos : 0 < sumSquares [3; 4]) by (simpl; lra).
  rewrite (fisZero_pos Hpos). cbn [orb]. f_equal.
  rewrite sumProducts_self.
  assert (Hsq : sqrt (sumSquares [3; 4]) * sqrt (sumSquares [3; 4])
                = sumSquares [3; 4]) by (apply sqrt_sqrt; lra).
  rewrite Hsq. field. lra.
Defined.

End SimilarityFacts.

(* ================================================================== *)
(** ** Reading the store: getDocument, getSimilarDocuments,
       getKnowledgeGraph, getIndexingProgress *)

Module Readers.

Import Json Sql Service.

Local Open Scope monad_scope.

(** What [getDocument] returns: the columns of the row, with the two JSON
    columns parsed. *)
Record DocumentView := {
  dv_id : jsstring;
  dv_title : jsstring;
  dv_path : jsstring;
  dv_type : DocumentType;
  dv_size : nat;
  dv_created : Date;
  dv_modified : Date;
  dv_indexed : Date;
  dv_author : option jsstring;
  dv_tags : json;
  dv_summary : option jsstring;
  dv_keyPoints : json;
  dv_pageCount : option nat;
  dv_wordCount : option nat
}.

Inductive NodeType := NDocument | NConcept | NPerson | NTopic.

Record KnowledgeGraphNode := {
  kn_id : jsstring;
  kn_label : jsstring;
  kn_type : NodeType;
  kn_weight : Q
}.

Record KnowledgeGraphEdge := {
  ke_source : jsstring;
  ke_target : jsstring;
  ke_label : RelationshipType;
  ke_weight : Q
}.

Record KnowledgeGraph := {
  kg_nodes : list KnowledgeGraphNode;
  kg_edges : list KnowledgeGraphEdge
}.

(** A row of the graph query: a relationship with the titles and concepts
    that the four [LEFT JOIN]s find ([None] is [NULL]). *)
Record GraphRow := {
  gr_rel : RelationshipRow;
  gr_source_doc_title : option jsstring;
  gr_target_doc_title : option jsstring;
  gr_source_concept : option ConceptRow;
  gr_target_concept : option ConceptRow
}.

Section WithEnv.

Variable env : Env.
Variable cfg : Config.

(** *** getDocument *)

(** [column ? JSON.parse(column) : []] *)
Definition parseOrEmpty (column : option jsstring) : Result json :=
  match column with
  | Some (c :: r) =>
      match JSON_parse env (c :: r) with
      | Some v => Ok v
      | None => Throw SyntaxError
      end
  | _ => Ok (JArr [])
  end.

Definition getDocument (documentId : jsstring) : M (option DocumentView) :=
  tryCatch
    (row <- query (selectDocument documentId) ;;
     match row with
     | None => ret None
     | Some d =>
         tags <- liftResult (parseOrEmpty (d_tags d)) ;;
         keyPoints <- liftResult (parseOrEmpty (d_key_points d)) ;;
         ret (Some {| dv_id := d_id d;
                      dv_title := d_title d;
                      dv_path := d_path d;
                      dv_type := d_type d;
                      dv_size := d_size d;
                      dv_created := d_created d;
                      dv_modified := d_modified d;
                      dv_indexed := d_indexed d;
                      dv_author := d_author d;
                      dv_tags := tags;
                      dv_summary := d_summary d;
                      dv_keyPoints := keyPoints;
                      dv_pageCount := d_page_count d;
                      dv_wordCount := d_word_count d |})
     end)
    (fun _ => throw DatabaseError).

(** *** getIndexingProgress *)

Definition getIndexingProgress : M IndexingProgress := gets indexingProgress.

(** *** getSimilarDocuments *)

Section WithNumber.

Context {F : Type} {num : Number F}.

(** [limit] is [None] when the caller leaves it out. *)
Definition getSimilarDocuments (documentId : jsstring) (limit : option nat)
  : M (list SearchResult) :=
  let limit := match limit with Some n => n | None => 5 end in
  tryCatch
    (document <- getDocument documentId ;;
     match document with
     | None => throw KnowledgeBaseError
     | Some _ =>
         content <- getDocumentContent documentId ;;
         results <-
           searchDocuments env content
             {| so_limit := Some (limit + 1); so_offset := None;
                so_types := None; so_startDate := None; so_endDate := None;
                so_tags := None; so_useSemanticSearch := true |} ;;
         ret (filter (fun result =>
                        negb (jsstring_eqb (sr_documentId result) documentId))
                results)
     end)
    (fun _ => throw KnowledgeBaseError).

End WithNumber.

(** *** getKnowledgeGraph, called with neither a document nor a concept *)

(** [options.minWeight || 0.5] *)
Definition minWeightOr (minWeight : option Q) : Q :=
  match minWeight with
  | Some q => if Qeq_bool q 0 then 1 # 2 else q
  | None => 1 # 2
  end.

(** [ORDER BY r.weight DESC]; rows of equal weight keep their order. *)
Fixpoint insertByWeight (x : RelationshipRow) (l : list RelationshipRow)
  : list RelationshipRow :=
  match l with
  | [] => [x]
  | y :: r =>
      if Qle_bool (r_weight y) (r_weight x) then x :: y :: r
      else y :: insertByWeight x r
  end.

Definition sortByWeight (l : list RelationshipRow) : list RelationshipRow :=
  fold_right insertByWeight [] l.

(** The four [LEFT JOIN]s on a relationship: ids are primary keys, so each
    finds at most one row. *)
Definition joined (t : Tables) (r : RelationshipRow) : GraphRow :=
  {| gr_rel := r;
     gr_source_doc_title :=
       if jsstring_eqb (r_source_type r) (str "DOCUMENT")
       then option_map d_title (selectDocument (r_source_id r) t)
       else None;
     gr_target_doc_title :=
       if jsstring_eqb (r_target_type r) (str "DOCUMENT")
       then option_map d_title (selectDocument (r_target_id r) t)
       else None;
     gr_source_concept := selectConcept (r_source_id r) t;
     gr_target_concept := selectConcept (r_target_id r) t |}.

(** [SELECT ... FROM relationships r LEFT JOIN ... WHERE r.weight >= ?
     ORDER BY r.weight DESC LIMIT ?] *)
Definition graphRows (minWeight : Q) (maxNodes : nat) (t : Tables)
  : list GraphRow :=
  map (joined t)
    (firstn maxNodes
       (sortByWeight
          (filter (fun r => Qle_bool minWeight (r_weight r))
             (relationships t)))).

(** [x || dflt] on a column that may be [NULL]. *)
Definition labelOr (x : option jsstring) (dflt : string) : jsstring :=
  match x with
  | Some (c :: r) => c :: r
  | _ => str dflt
  end.

(** The node made for one end of a row. *)
Definition nodeOf (id type : jsstring) (docTitle : option jsstring)
  (concept : option ConceptRow) : KnowledgeGraphNode :=
  let conceptType := option_map k_type concept in
  let conceptName := option_map k_name concept in
  let conceptIs (s : string) :=
    match conceptType with
    | Some ty => jsstring_eqb ty (str s)
    | None => false
    end in
  if jsstring_eqb type (str "DOCUMENT") then
    {| kn_id := id; kn_label := labelOr docTitle "Unknown Document";
       kn_type := NDocument; kn_weight := 1 |}
  else if conceptIs "PERSON"%string then
    {| kn_id := id; kn_label := labelOr conceptName "Unknown Person";
       kn_type := NPerson; kn_weight := 1 |}
  else if conceptIs "TOPIC"%string then
    {| kn_id := id; kn_label := labelOr conceptName "Unknown Topic";
       kn_type := NTopic; kn_weight := 1 |}
  else
    {| kn_id := id; kn_label := labelOr conceptName "Unknown Concept";
       kn_type := NConcept; kn_weight := 1 |}.

(** [nodeMap.has(id)] *)
Definition hasNode (id : jsstring) (nodes : list KnowledgeGraphNode) : bool :=
  existsb (fun n => jsstring_eqb (kn_id n) id) nodes.

(** [if (!nodeMap.has(id)) { ...; nodes.push(node) }] *)
Definition addNode (node : KnowledgeGraphNode)
  (nodes : list KnowledgeGraphNode) : list KnowledgeGraphNode :=
  if hasNode (kn_id node) nodes then nodes else nodes ++ [node].

(** Body of the loop over the rows. *)
Definition graphStep (g : KnowledgeGraph) (rel : GraphRow) : KnowledgeGraph :=
  let r := gr_rel rel in
  let nodes :=
    addNode (nodeOf (r_source_id r) (r_source_type r)
               (gr_source_doc_title rel) (gr_source_concept rel))
      (kg_nodes g) in
  let nodes :=
    addNode (nodeOf (r_target_id r) (r_target_type r)
               (gr_target_doc_title rel) (gr_target_concept rel))
      nodes in
  {| kg_nodes := nodes;
     kg_edges := kg_edges g ++ [{| ke_source := r_source_id r;
                                   ke_target := r_target_id r;
                                   ke_label := r_relationship_type r;
                                   ke_weight := r_weight r |}] |}.

Definition buildGraph (rows : list GraphRow) : KnowledgeGraph :=
  fold_left graphStep rows {| kg_nodes := []; kg_edges := [] |}.

Definition getKnowledgeGraph (minWeight : option Q) (maxNodes : option nat)
  : M KnowledgeGraph :=
  tryCatch
    (let minWeight := minWeightOr minWeight in
     let maxNodes := orDefault maxNodes 100 in
     relationships <- query (graphRows minWeight maxNodes) ;;
     ret (buildGraph relationships))
    (fun _ => throw DatabaseError).

End WithEnv.

End Readers.

(* ================================================================== *)
(** ** The fallbacks without the completion service: extractiveSummary,
       extractiveKeyPoints, and the bullet points of a reply *)

Module Extractive.

Import Json.

(** [.], [!] or [?] *)
Definition endsSentence (c : N) : bool :=
  ((c =? 46) || (c =? 33) || (c =? 63))%N.

(** [content.split(/(?<=[.!?])\s+/)], as (first piece, other pieces).
    [skipping] is set inside a match, [prevEnds] when the unit before is one
    of [.!?]. *)
Fixpoint splitSentencesGo (skipping prevEnds : bool) (s : jsstring)
  : jsstring * list jsstring :=
  match s with
  | [] => ([], [])
  | c :: r =>
      if skipping then
        if isWhiteSpace c then splitSentencesGo true false r
        else
          let (h, t) := splitSentencesGo false (endsSentence c) r in
          (c :: h, t)
      else if prevEnds && isWhiteSpace c then
        let (h, t) := splitSentencesGo true false r in ([], h :: t)
      else
        let (h, t) := splitSentencesGo false (endsSentence c) r in
        (c :: h, t)
  end.

Definition splitSentences (s : jsstring) : list jsstring :=
  let (h, t) := splitSentencesGo false false s in h :: t.

(** [regex.test(s)] for an alternation of plain words with the flag [i]. *)
Definition testAny (keywords : list string) (s : jsstring) : bool :=
  existsb (fun k => Service.likeContains (str k) s) keywords.

Definition summaryKeywords : list string :=
  ["important"; "significant"; "key"; "critical"; "essential"; "main";
   "primary"; "crucial"; "vital"; "fundamental"]%string.

Definition keyPointKeywords : list string :=
  List.app summaryKeywords ["note that"; "remember"; "consider"]%string.

(** The sentences [extractiveSummary] joins, for a content of more than
    five sentences. *)
Definition importantSentences (sentences : list jsstring) : list jsstring :=
  fold_left
    (fun important sentence =>
       if testAny summaryKeywords sentence && (length important <? 8)
       then important ++ [sentence] else important)
    (firstn (length sentences - 4) (skipn 2 sentences))
    (firstn 2 sentences)
  ++ lastN 2 sentences.

Definition extractiveSummary (content : jsstring) : jsstring :=
  let sentences := splitSentences content in
  if length sentences <=? 5 then content
  else join [SPACE] (importantSentences sentences).

(** [keyPoints.includes(x)] *)
Definition includes (x : jsstring) (l : list jsstring) : bool :=
  existsb (jsstring_eqb x) l.

Definition pushNew (x : jsstring) (l : list jsstring) : list jsstring :=
  if includes x l then l else l ++ [x].

Definition extractiveKeyPoints (content : jsstring) : list jsstring :=
  let sentences := splitSentences content in
  let keyPoints :=
    fold_left
      (fun keyPoints sentence =>
         if testAny keyPointKeywords sentence && (length keyPoints <? 5)
         then keyPoints ++ [trim sentence] else keyPoints)
      sentences [] in
  let keyPoints :=
    if (length keyPoints <? 5) && (0 <? length sentences) then
      let keyPoints := pushNew (trim (hd [] sentences)) keyPoints in
      if (1 <? length sentences)
         && negb (includes (trim (last sentences [])) keyPoints)
      then keyPoints ++ [trim (last sentences [])]
      else keyPoints
    else keyPoints in
  let keyPoints :=
    if (length keyPoints <? 5) && (4 <? length sentences) then
      pushNew (trim (nth (length sentences / 2) sentences [])) keyPoints
    else keyPoints in
  firstn 5 keyPoints.

(** *** The bullet points of a reply *)

Definition isDigit (c : N) : bool := ((48 <=? c) && (c <=? 57))%N.

(** The class [[-•\d.]] *)
Definition isMarker (c : N) : bool :=
  ((c =? 45) || (c =? 8226) || isDigit c || (c =? 46))%N.

Fixpoint dropWhile (p : N -> bool) (s : jsstring) : jsstring :=
  match s with
  | c :: r => if p c then dropWhile p r else s
  | [] => []
  end.

(** [/^\d+\./.test(t)] *)
Definition numbered (t : jsstring) : bool :=
  match t with
  | c :: r =>
      isDigit c
      && match dropWhile isDigit r with
         | d :: _ => (d =? 46)%N
         | [] => false
         end
  | [] => false
  end.

(** [t.startsWith('-') || t.startsWith('•') || /^\d+\./.test(t)] on the
    trimmed line. *)
Definition isBulletLine (line : jsstring) : bool :=
  let t := trim line in
  match t with
  | c :: _ => (c =? 45)%N || (c =? 8226)%N || numbered t
  | [] => false
  end.

(** [line.replace(/^[-•\d.]+\s*/, '')] *)
Definition stripMarker (line : jsstring) : jsstring :=
  match line with
  | c :: _ =>
      if isMarker c then dropWhile isWhiteSpace (dropWhile isMarker line)
      else line
  | [] => []
  end.

(** [response.split('\n').filter(...).map(...).filter(point =>
    point.length > 0)] *)
Definition bulletPoints (response : jsstring) : list jsstring :=
  filter (fun point => 0 <? length point)
    (map (fun line => trim (stripMarker line))
       (filter isBulletLine (split LF response))).

End Extractive.

(* ================================================================== *)
(** ** The completion service (OpenAIService) *)

Module OpenAI.

(** The errors of the module; the last two extend the first. *)
Inductive OpenAIError := OpenAIServiceError | APIKeyError | RateLimitError.

Inductive Outcome (T : Type) :=
  | Returned (v : T)
  | Thrown (e : OpenAIError).

Arguments Returned {T} v.
Arguments Thrown {T} e.

(** What one request to the API does: it answers, or it fails with an error
    that may carry a [status]. *)
Inductive Attempt (T : Type) :=
  | Answer (v : T)
  | Refused (status : option nat).

Arguments Answer {T} v.
Arguments Refused {T} status.

(** The requests made so far and the time spent in [setTimeout], in ms. *)
Record World := { calls : nat; slept : nat }.

Definition called (w : World) : World :=
  {| calls := S (calls w); slept := slept w |}.

Definition sleep (ms : nat) (w : World) : World :=
  {| calls := calls w; slept := slept w + ms |}.

Definition retryCount : nat := 3.
Definition retryDelay : nat := 1000.

Definition statusIs (n : nat) (status : option nat) : bool :=
  match status with Some m => m =? n | None => false end.

(** The error thrown once the loop is left without an answer. *)
Definition classify (lastError : option (option nat)) : OpenAIError :=
  match lastError with
  | Some status =>
      if statusIs 401 status then APIKeyError
      else if statusIs 429 status then RateLimitError
      else OpenAIServiceError
  | None => OpenAIServiceError
  end.

Section WithRequest.

Context {T : Type}.

(** [fn]: what the request does when [n] requests were made before it. *)
Variable fn : nat -> Attempt T.

(** The loop of [withRetry] from [attempt], with [remaining] turns left. *)
Fixpoint retryFrom (attempt remaining : nat)
  (lastError : option (option nat)) (w : World) : Outcome T * World :=
  match remaining with
  | O => (Thrown (classify lastError), w)
  | S remaining' =>
      match fn (calls w) with
      | Answer v => (Returned v, called w)
      | Refused status =>
          if statusIs 401 status || statusIs 400 status
          then (Thrown (classify (Some status)), called w)
          else retryFrom (S attempt) remaining' (Some status)
                 (sleep (retryDelay * 2 ^ attempt) (called w))
      end
  end.

Definition withRetry (w : World) : Outcome T * World :=
  retryFrom 0 retryCount None w.

End WithRequest.

(** The content of each choice of a completion; [None] when the message or
    its content is missing. *)
Definition ChatResponse := list (option jsstring).

(** [response.choices[0]?.message?.content || 'No response generated'] *)
Definition contentOf (response : ChatResponse) : jsstring :=
  match response with
  | Some (c :: r) :: _ => c :: r
  | _ => str "No response generated"
  end.

(** The service object: its client, which holds the key. *)
Definition Client := option jsstring.

(** [initialize(apiKey)]: the client afterwards, or the error. *)
Definition initialize (apiKey : jsstring) : Outcome Client :=
  if JS.truthy (trim apiKey) then Returned (Some (trim apiKey))
  else Thrown APIKeyError.

(** [new OpenAIService(apiKey)] *)
Definition construct (apiKey : option jsstring) : Outcome Client :=
  match apiKey with
  | Some (c :: r) => initialize (c :: r)
  | _ => Returned None
  end.

(** [getOpenAIService(apiKey)] on the module's instance: the result and the
    instance afterwards. *)
Definition getOpenAIService (instance : option Client)
  (apiKey : option jsstring) : Outcome Client * option Client :=
  match instance with
  | None =>
      match construct apiKey with
      | Returned client => (Returned client, Some client)
      | Thrown e => (Thrown e, None)
      end
  | Some client =>
      match apiKey with
      | Some (c :: r) =>
          match initialize (c :: r) with
          | Returned client' => (Returned client', Some client')
          | Thrown e => (Thrown e, Some client)
          end
      | _ => (Returned client, Some client)
      end
  end.

Definition sendChatMessage (client : Client)
  (create : nat -> Attempt ChatResponse) (w : World)
  : Outcome jsstring * World :=
  match client with
  | None => (Thrown APIKeyError, w)
  | Some _ =>
      match withRetry create w with
      | (Returned response, w') => (Returned (contentOf response), w')
      | (Thrown e, w') => (Thrown e, w')
      end
  end.

Definition testApiKey (client : Client)
  (create : nat -> Attempt ChatResponse) (w : World)
  : Outcome bool * World :=
  match client with
  | None => (Thrown APIKeyError, w)
  | Some _ =>
      match withRetry create w with
      | (Returned _, w') => (Returned true, w')
      | (Thrown APIKeyError, w') => (Thrown APIKeyError, w')
      | (Thrown _, w') => (Returned false, w')
      end
  end.

End OpenAI.

Module OpenAIFacts.

Import OpenAI.

(** The refusals after which [withRetry] tries again. *)
Definition retriable (status : option nat) : bool :=
  negb (statusIs 401 status || statusIs 400 status).

(** What a request that ends the loop makes [withRetry] do. *)
Definition outcomeOf {T} (a : Attempt T) : Outcome T :=
  match a with
  | Answer v => Returned v
  | Refused status => Thrown (classify (Some status))
  end.

(** The request ends the loop: an answer, or a refusal that is not
    retried. *)
Definition final {T} (a : Attempt T) : bool :=
  match a with
  | Answer _ => true
  | Refused status => negb (retriable status)
  end.

Section WithRequest.

Context {T : Type}.
Variable fn : nat -> Attempt T.

Lemma retryFrom_bounded remaining : forall attempt lastError w,
  let (r, w') := retryFrom fn attempt remaining lastError w in
  calls w <= calls w' <= calls w + remaining /\
  slept w <= slept w' /\
  (calls w' = calls w -> r = Thrown (classify lastError) /\ remaining = 0) /\
  (calls w < calls w' -> r = outcomeOf (fn (pred (calls w')))).
Proof.
  induction remaining as [|k IH]; intros attempt lastError w; simpl.
  - repeat split; try lia.
  - destruct (fn (calls w)) as [v|status] eqn:E.
    + simpl. repeat split; try lia. intros _. rewrite E. reflexivity.
    + destruct (statusIs 401 status || statusIs 400 status) eqn:Es.
      * simpl. repeat split; try lia. intros _. rewrite E. reflexivity.
      * specialize (IH (S attempt) (Some status)
                      (sleep (retryDelay * 2 ^ attempt) (called w))).
        destruct (retryFrom fn (S attempt) k (Some status) _) as [r w'].
        simpl in IH. destruct IH as (Hc & Hs & H0 & H1).
        repeat split; try lia.
        intros _. destruct (Nat.eq_dec (calls w') (S (calls w))) as [Eq|Ne].
        -- destruct (H0 Eq) as [-> _]. rewrite Eq. simpl. rewrite E.
           reflexivity.
        -- apply H1. lia.
Qed.

Lemma retryFrom_slept remaining : forall attempt lastError w,
  slept (snd (retryFrom fn attempt remaining lastError w))
  + retryDelay * 2 ^ attempt
  <= slept w + retryDelay * 2 ^ (attempt + remaining).
Proof.
  induction remaining as [|k IH]; intros attempt lastError w;
    cbn -[retryDelay Nat.pow Nat.mul].
  - rewrite Nat.add_0_r. lia.
  - assert (Hmono : retryDelay * 2 ^ attempt
                    <= retryDelay * 2 ^ (attempt + S k)).
    { apply Nat.mul_le_mono_l, Nat.pow_le_mono_r; lia. }
    destruct (fn (calls w)) as [v|status].
    + cbn -[retryDelay Nat.pow Nat.mul]. lia.
    + destruct (statusIs 401 status || statusIs 400 status).
      * cbn -[retryDelay Nat.pow Nat.mul]. lia.
      * specialize (IH (S attempt) (Some status)
                      (sleep (retryDelay * 2 ^ attempt) (called w))).
        cbn -[retryDelay Nat.pow Nat.mul] in IH.
        replace (attempt + S k) with (S (attempt + k)) by lia.
        assert (E : retryDelay * 2 ^ S attempt
                    = 2 * (retryDelay * 2 ^ attempt)).
        { rewrite Nat.pow_succ_r', Nat.mul_assoc, (Nat.mul_comm retryDelay 2),
            <- Nat.mul_assoc. reflexivity. }
        rewrite E in IH. lia.
Qed.

(** The requests, the waits and the outcome of one [withRetry]. *)
Lemma withRetry_facts (w : World) :
  let (r, w') := withRetry fn w in
  calls w < calls w' <= calls w + 3 /\
  slept w <= slept w' <= slept w + 7 * 1000 /\
  r = outcomeOf (fn (pred (calls w'))).
Proof.
  pose proof (retryFrom_bounded retryCount 0 None w) as H.
  pose proof (retryFrom_slept retryCount 0 None w) as Hs.
  unfold withRetry. destruct (retryFrom fn 0 retryCount None w) as [r w'].
  destruct H as (Hc & Hle & H0 & H1). cbn [snd] in Hs.
  assert (Hlt : calls w < calls w').
  { destruct (Nat.eq_dec (calls w') (calls w)) as [E|E]; [|lia].
    destruct (H0 E) as [_ Habs]. discriminate. }
  split; [unfold retryCount in Hc; lia|].
  split; [|exact (H1 Hlt)].
  split; [exact Hle|].
  assert (E8 : retryDelay * 2 ^ (0 + retryCount) = 8 * 1000) by reflexivity.
  assert (E1 : retryDelay * 2 ^ 0 = 1000) by reflexivity.
  rewrite E8, E1 in Hs. lia.
Qed.

(** X3. [withRetry] makes at least one request and at most three, sleeps at
    most seven seconds in all, and what it does is decided by the last
    request it made: its answer is returned, its refusal is thrown as the
    error that [classify] gives. *)
Theorem withRetry_bounded (w : World) :
  let (r, w') := withRetry fn w in
  calls w < calls w' <= calls w + 3 /\
  slept w <= slept w' <= slept w + 7 * 1000 /\
  r = outcomeOf (fn (pred (calls w'))).
Proof. exact (withRetry_facts w). Qed.

Lemma retryFrom_final j : forall attempt remaining lastError w,
  j < remaining ->
  (forall i, i < j ->
     exists status, fn (calls w + i) = Refused status /\
                    retriable status = true) ->
  final (fn (calls w + j)) = true ->
  retryFrom fn attempt remaining lastError w
  = (outcomeOf (fn (calls w + j)),
     {| calls := calls w + j + 1;
        slept := slept w + retryDelay * 2 ^ attempt * (2 ^ j - 1) |}).
Proof.
  induction j as [|j IH]; intros attempt remaining lastError w Hj Hre Hfin.
  - destruct remaining as [|k]; [lia|]. cbn [retryFrom].
    rewrite Nat.add_0_r in *.
    replace (2 ^ 0 - 1) with 0 by reflexivity.
    rewrite Nat.mul_0_r, Nat.add_0_r.
    replace (calls w + 1) with (S (calls w)) by lia.
    destruct (fn (calls w)) as [v|status]; cbn [final outcomeOf] in *.
    + reflexivity.
    + unfold retriable in Hfin. apply negb_true_iff, negb_false_iff in Hfin.
      rewrite Hfin. reflexivity.
  - destruct remaining as [|k]; [lia|]. cbn [retryFrom].
    destruct (Hre 0) as (status & E & Hr); [lia|].
    rewrite Nat.add_0_r in E. rewrite E.
    unfold retriable in Hr. apply negb_true_iff in Hr. rewrite Hr.
    rewrite (IH (S attempt) k (Some status)
               (sleep (retryDelay * 2 ^ attempt) (called w))).
    + cbn [calls slept sleep called].
      replace (S (calls w) + j) with (calls w + S j) by lia.
      f_equal. f_equal.
      assert (Hp : 0 < 2 ^ j)
        by (apply Nat.neq_0_lt_0, Nat.pow_nonzero; lia).
      rewrite !Nat.pow_succ_r'.
      set (p := 2 ^ j) in *. set (a := 2 ^ attempt).
      rewrite <- !Nat.mul_assoc.
      set (d := retryDelay). nia.
    + lia.
    + intros i Hi. cbn [calls sleep called].
      replace (S (calls w) + i) with (calls w + S i) by lia.
      apply Hre. lia.
    + cbn [calls sleep called].
      replace (S (calls w) + j) with (calls w + S j) by lia.
      exact Hfin.
Qed.

(** X4. When the requests before the [j]-th one (from zero, [j < 3]) are
    refused with a status that is retried and the [j]-th one answers, or
    is refused with 401 or 400, [withRetry] stops there: [j + 1] requests
    were made, the waits were 1000, 2000, ... ms, one after each request
    but the last, and the answer is returned, or the refusal thrown. *)
Theorem withRetry_stops_at_first_final (w : World) (j : nat) :
  j < 3 ->
  (forall i, i < j ->
     exists status, fn (calls w + i) = Refused status /\
                    retriable status = true) ->
  final (fn (calls w + j)) = true ->
  withRetry fn w
  = (outcomeOf (fn (calls w + j)),
     {| calls := calls w + j + 1;
        slept := slept w + 1000 * (2 ^ j - 1) |}).
Proof.
  intros Hj Hre Hfin. unfold withRetry.
  rewrite (@retryFrom_final j 0 retryCount None w Hj Hre Hfin).
  reflexivity.
Qed.

(** X5. When three requests in a row are refused with a status that is
    retried, [withRetry] gives up after the third: it has waited after each
    of them, seven seconds in all, and throws [RateLimitError] when the
    last status is 429 and [OpenAIServiceError] otherwise. *)
Theorem withRetry_gives_up (w : World) (s0 s1 s2 : option nat) :
  fn (calls w) = Refused s0 -> retriable s0 = true ->
  fn (calls w + 1) = Refused s1 -> retriable s1 = true ->
  fn (calls w + 2) = Refused s2 -> retriable s2 = true ->
  withRetry fn w
  = (Thrown (if statusIs 429 s2 then RateLimitError else OpenAIServiceError),
     {| calls := calls w + 3; slept := slept w + 7 * 1000 |}).
Proof.
  intros E0 R0 E1 R1 E2 R2. unfold withRetry, retryCount.
  unfold retriable in *. apply negb_true_iff in R0, R1, R2.
  cbn [retryFrom]. rewrite E0, R0. cbn [calls sleep called].
  replace (S (calls w)) with (calls w + 1) by lia. rewrite E1, R1.
  cbn [calls sleep called].
  replace (S (calls w + 1)) with (calls w + 2) by lia. rewrite E2, R2.
  cbn [calls slept sleep called classify].
  apply orb_false_elim in R2. destruct R2 as [R401 _].
  rewrite R401. f_equal. unfold sleep, called. cbn [calls slept].
  change (retryDelay * 2 ^ 0) with 1000.
  change (retryDelay * 2 ^ 1) with (2 * 1000).
  change (retryDelay * 2 ^ 2) with (4 * 1000).
  f_equal; lia.
Qed.

End WithRequest.

(** A service whose second request is answered. *)
Definition answersSecond (n : nat) : Attempt nat :=
  if n =? 1 then Answer 7 else Refused (Some 500).

Lemma withRetry_stops_at_first_final_witness :
  withRetry answersSecond {| calls := 0; slept := 0 |}
  = (Returned 7, {| calls := 2; slept := 1000 |}).
Proof.
  apply (@withRetry_stops_at_first_final nat answersSecond
           {| calls := 0; slept := 0 |} 1).
  - lia.
  - intros i Hi. exists (Some 500). destruct i; [|lia]. split; reflexivity.
  - reflexivity.
Defined.

Lemma withRetry_gives_up_witness :
  withRetry (fun _ => @Refused nat (Some 429)) {| calls := 0; slept := 0 |}
  = (Thrown RateLimitError, {| calls := 3; slept := 7 * 1000 |}).
Proof.
  apply (@withRetry_gives_up nat (fun _ => Refused (Some 429))
           {| calls := 0; slept := 0 |} (Some 429) (Some 429) (Some 429));
    reflexivity.
Defined.

(** X6. [sendChatMessage] without a client throws [APIKeyError] and makes no
    request.  With a client it makes one to three requests, and what it
    returns is never the empty string. *)
Theorem sendChatMessage_never_empty (client : Client)
  (create : nat -> Attempt ChatResponse) (w : World) :
  let (r, w') := sendChatMessage client create w in
  match client with
  | None => r = Thrown APIKeyError /\ w' = w
  | Some _ =>
      calls w < calls w' <= calls w + 3 /\
      match r with
      | Returned v => v <> []
      | Thrown _ => True
      end
  end.
Proof.
  unfold sendChatMessage. destruct client as [key|]; [|auto].
  pose proof (withRetry_facts create w) as H.
  destruct (withRetry create w) as [[response|e] w'];
    destruct H as (Hc & _ & _); (split; [exact Hc|]); [|exact I].
  unfold contentOf. destruct response as [|[[|c r]|] rest]; discriminate.
Qed.

(** X7. What [testApiKey] does is decided by the last request: [true] when it
    answered, [APIKeyError] thrown when it was refused with 401, and
    [false] for any other refusal.  Without a client it throws
    [APIKeyError]. *)
Theorem testApiKey_outcomes (client : Client)
  (create : nat -> Attempt ChatResponse) (w : World) :
  let (r, w') := testApiKey client create w in
  match client with
  | None => r = Thrown APIKeyError /\ w' = w
  | Some _ =>
      r = match create (pred (calls w')) with
          | Answer _ => Returned true
          | Refused status =>
              if statusIs 401 status then Thrown APIKeyError
              else Returned false
          end
  end.
Proof.
  unfold testApiKey. destruct client as [key|]; [|auto].
  pose proof (withRetry_facts create w) as H.
  destruct (withRetry create w) as [r w']. destruct H as (_ & _ & ->).
  destruct (create (pred (calls w'))) as [v|status] eqn:E;
    cbn [outcomeOf classify].
  - rewrite E. reflexivity.
  - destruct (statusIs 401 status) eqn:E401; [rewrite E, E401; reflexivity|].
    destruct (statusIs 429 status); rewrite E, E401; reflexivity.
Qed.

(** X8. [getOpenAIService]: a key of white space only throws [APIKeyError],
    also from the constructor, and leaves the instance as it was; any other
    key is kept trimmed by the client of the one instance; and without a
    key nothing is thrown and an instance that exists is not changed. *)
Theorem getOpenAIService_keys (instance : option Client) :
  (forall key, key <> [] -> trim key = [] ->
     getOpenAIService instance (Some key) = (Thrown APIKeyError, instance)) /\
  (forall key, trim key <> [] ->
     getOpenAIService instance (Some key)
     = (Returned (Some (trim key)), Some (Some (trim key)))) /\
  getOpenAIService instance None
  = (Returned (match instance with Some client => client | None => None end),
     Some (match instance with Some client => client | None => None end)).
Proof.
  split; [|split].
  - intros [|c r] Hne Hblank; [congruence|].
    unfold getOpenAIService, construct, initialize. rewrite Hblank.
    destruct instance; reflexivity.
  - intros [|c r] Hkey; [exfalso; apply Hkey; reflexivity|].
    unfold getOpenAIService, construct, initialize.
    destruct (trim (c :: r)) as [|d t] eqn:E; [congruence|].
    destruct instance; reflexivity.
  - destruct instance; reflexivity.
Qed.

Lemma getOpenAIService_keys_witness :
  getOpenAIService None (Some (str "  ")) = (Thrown APIKeyError, None) /\
  getOpenAIService (Some None) (Some (str " sk-1 "))
  = (Returned (Some (str "sk-1")), Some (Some (str "sk-1"))).
Proof.
  split.
  - apply (proj1 (getOpenAIService_keys None));
      [discriminate|reflexivity].
  - apply (proj1 (proj2 (getOpenAIService_keys (Some None)))
             (str " sk-1 ")).
    discriminate.
Defined.

End OpenAIFacts.

Module ExtractiveFacts.

Import Json JSFacts Extractive.

(** *** trim *)

Lemma trimStart_fixed c r :
  isWhiteSpace c = false -> trimStart (c :: r) = c :: r.
Proof. intros H. simpl. rewrite H. reflexivity. Qed.

Lemma trimStart_snoc x c :
  isWhiteSpace c = false -> exists pre, trimStart (x ++ [c]) = pre ++ [c].
Proof.
  intros Hc. induction x as [|d x IH]; simpl.
  - rewrite Hc. exists []. reflexivity.
  - destruct (isWhiteSpace d); [exact IH|].
    exists (d :: x). reflexivity.
Qed.

Lemma trimStart_idem x : trimStart (trimStart x) = trimStart x.
Proof.
  destruct (trimStart x) as [|d u] eqn:E; [reflexivity|].
  apply trimStart_fixed. exact (trimStart_head E).
Qed.

(** What [trim] returns has no white space at either end: trimming it
    again changes nothing. *)
Lemma trim_trim s : trim (trim s) = trim s.
Proof.
  destruct (trimStart s) as [|c r] eqn:Ea.
  - assert (Ht : trim s = []) by (unfold trim; rewrite Ea; reflexivity).
    rewrite Ht. reflexivity.
  - pose proof (trimStart_head Ea) as Hc.
    destruct (trimStart_snoc (rev r) Hc) as [pre Hb].
    assert (Ht : trim s = c :: rev pre).
    { unfold trim. rewrite Ea. simpl rev. rewrite Hb, rev_app_distr.
      reflexivity. }
    rewrite Ht. unfold trim. rewrite (trimStart_fixed _ Hc).
    simpl rev. rewrite rev_involutive, <- Hb, trimStart_idem, Hb.
    rewrite rev_app_distr. reflexivity.
Qed.

(** *** Sentences *)

Lemma in_firstn {A} (x : A) n : forall l, In x (firstn n l) -> In x l.
Proof.
  induction n as [|n IH]; intros [|a l]; simpl; try tauto.
  intros [H|H]; [auto|right; apply IH, H].
Qed.


Lemma splitSentences_nonempty s : 1 <= length (splitSentences s).
Proof.
  unfold splitSentences. destruct (splitSentencesGo false false s).
  simpl. lia.
Qed.

Lemma hd_In (l : list jsstring) : 1 <= length l -> In (hd [] l) l.
Proof. destruct l; simpl; [lia|auto]. Qed.

Lemma last_In (l : list jsstring) : 1 <= length l -> In (last l []) l.
Proof.
  induction l as [|a l IH]; simpl; [lia|]. intros _.
  destruct l as [|b l]; [auto|]. right. apply IH. simpl. lia.
Qed.

(** *** extractiveKeyPoints *)

(** Every entry is the [trim] of a sentence. *)
Definition fromSentences (sentences points : list jsstring) : Prop :=
  forall p, In p points -> exists s, In s sentences /\ p = trim s.

Lemma fromSentences_snoc sentences points s :
  fromSentences sentences points -> In s sentences ->
  fromSentences sentences (points ++ [trim s]).
Proof.
  intros H Hs p Hp. apply in_app_or in Hp. destruct Hp as [Hp|[<-|[]]].
  - exact (H p Hp).
  - exists s. auto.
Qed.

Lemma fromSentences_pushNew sentences points s :
  fromSentences sentences points -> In s sentences ->
  fromSentences sentences (pushNew (trim s) points).
Proof.
  intros H Hs. unfold pushNew. destruct (includes _ _); [exact H|].
  apply fromSentences_snoc; assumption.
Qed.

Lemma pushNew_length x l : length l <= length (pushNew x l).
Proof.
  unfold pushNew. destruct (includes x l); [lia|].
  rewrite length_app. simpl. lia.
Qed.

Lemma pushNew_pos x l : 1 <= length (pushNew x l).
Proof.
  unfold pushNew. destruct (includes x l) eqn:E.
  - destruct l; [discriminate|simpl; lia].
  - rewrite length_app. simpl. lia.
Qed.

Lemma keywordLoop_from (test : jsstring -> bool) sentences :
  forall visited acc,
    incl visited sentences -> fromSentences sentences acc ->
    fromSentences sentences
      (fold_left
         (fun keyPoints sentence =>
            if test sentence && (length keyPoints <? 5)
            then keyPoints ++ [trim sentence] else keyPoints)
         visited acc).
Proof.
  induction visited as [|s l IH]; intros acc Hin Hacc; simpl; [exact Hacc|].
  apply IH.
  - intros x Hx. apply Hin. right. exact Hx.
  - destruct (test s && (length acc <? 5)); [|exact Hacc].
    apply fromSentences_snoc; [exact Hacc|]. apply Hin. left. reflexivity.
Qed.

Lemma extractiveKeyPoints_facts (content : jsstring) :
  1 <= length (extractiveKeyPoints content) <= 5 /\
  fromSentences (splitSentences content) (extractiveKeyPoints content).
Proof.
  unfold extractiveKeyPoints.
  pose proof (splitSentences_nonempty content) as Hne.
  set (sentences := splitSentences content) in *.
  set (kp1 := fold_left _ sentences []).
  assert (F1 : fromSentences sentences kp1).
  { apply keywordLoop_from; [apply incl_refl|intros p []]. }
  set (kp2 := if (length kp1 <? 5) && (0 <? length sentences) then _
              else kp1).
  assert (H2 : 1 <= length kp2 /\ fromSentences sentences kp2).
  { unfold kp2. destruct (length kp1 <? 5) eqn:E5; cbn [andb].
    - rewrite (proj2 (Nat.ltb_lt 0 (length sentences))) by lia.
      assert (Fp : fromSentences sentences
                     (pushNew (trim (hd [] sentences)) kp1))
        by (apply fromSentences_pushNew; [exact F1|apply hd_In, Hne]).
      pose proof (pushNew_pos (trim (hd [] sentences)) kp1) as Hp.
      destruct ((1 <? length sentences) && _).
      + split; [rewrite length_app; lia|].
        apply fromSentences_snoc; [exact Fp|apply last_In, Hne].
      + auto.
    - apply Nat.ltb_ge in E5. split; [lia|exact F1]. }
  destruct H2 as [L2 F2].
  set (kp3 := if (length kp2 <? 5) && (4 <? length sentences) then _
              else kp2).
  assert (H3 : 1 <= length kp3 /\ fromSentences sentences kp3).
  { unfold kp3. destruct ((length kp2 <? 5) && (4 <? length sentences));
      [|auto].
    split.
    - pose proof (pushNew_length
                    (trim (nth (length sentences / 2) sentences [])) kp2).
      lia.
    - apply fromSentences_pushNew; [exact F2|].
      apply nth_In. apply Nat.div_lt; lia. }
  destruct H3 as [L3 F3].
  split.
  - rewrite length_firstn. lia.
  - intros p Hp. apply F3. eapply in_firstn. exact Hp.
Qed.

(** X9. [extractiveKeyPoints] returns between one and five points, whatever
    the content, and each of them is a sentence of the content, trimmed. *)
Theorem extractiveKeyPoints_bounds (content : jsstring) :
  1 <= length (extractiveKeyPoints content) <= 5 /\
  fromSentences (splitSentences content) (extractiveKeyPoints content).
Proof. exact (extractiveKeyPoints_facts content). Qed.

(** *** extractiveSummary *)

Lemma importantLoop sentences visited : forall acc,
  incl visited sentences ->
  exists picked,
    fold_left
      (fun important sentence =>
         if testAny summaryKeywords sentence && (length important <? 8)
         then important ++ [sentence] else important)
      visited acc
    = acc ++ picked /\
    (length acc <= 8 -> length (acc ++ picked) <= 8) /\
    forall s, In s picked ->
      In s sentences /\ testAny summaryKeywords s = true.
Proof.
  induction visited as [|s l IH]; intros acc Hin; cbn [fold_left].
  - exists []. rewrite app_nil_r. split; [reflexivity|].
    split; [auto|intros s []].
  - assert (Hl : incl l sentences)
      by (intros x Hx; apply Hin; right; exact Hx).
    destruct (testAny summaryKeywords s) eqn:Et; cbn [andb].
    + destruct (length acc <? 8) eqn:E8; cbv iota.
      * destruct (IH (acc ++ [s]) Hl) as (picked & Hfold & Hlen & Hall).
        exists (s :: picked). rewrite Hfold, <- app_assoc.
        split; [reflexivity|]. split.
        -- intros _. change (acc ++ s :: picked)
             with (acc ++ [s] ++ picked). rewrite app_assoc.
           apply Hlen. apply Nat.ltb_lt in E8.
           rewrite length_app. simpl. lia.
        -- intros x [<-|Hx]; [|exact (Hall x Hx)].
           split; [apply Hin; left; reflexivity|exact Et].
      * exact (IH acc Hl).
    + exact (IH acc Hl).
Qed.

(** X10. A content of at most five sentences is its own summary.  Otherwise the
    summary is the first two sentences, then at most six sentences from
    the middle, each of which has one of the key words, then the last two
    sentences, joined by a space. *)
Theorem extractiveSummary_shape (content : jsstring) :
  let sentences := splitSentences content in
  (length sentences <= 5 -> extractiveSummary content = content) /\
  (5 < length sentences ->
   exists middle,
     extractiveSummary content
     = join [SPACE] (firstn 2 sentences ++ middle ++ lastN 2 sentences) /\
     length middle <= 6 /\
     forall s, In s middle ->
       In s sentences /\ testAny summaryKeywords s = true).
Proof.
  intros sentences. unfold extractiveSummary. fold sentences. split.
  - intros H. rewrite (proj2 (Nat.leb_le _ _) H). reflexivity.
  - intros H. rewrite (proj2 (Nat.leb_gt _ _) H).
    unfold importantSentences.
    destruct (@importantLoop sentences
                (firstn (length sentences - 4) (skipn 2 sentences))
                (firstn 2 sentences))
      as (picked & Hfold & Hlen & Hall).
    { intros x Hx. apply in_firstn in Hx.
      rewrite <- (firstn_skipn 2 sentences). apply in_or_app. right.
      exact Hx. }
    exists picked. rewrite Hfold, <- app_assoc.
    split; [reflexivity|]. split; [|exact Hall].
    assert (L2 : length (firstn 2 sentences) = 2)
      by (rewrite length_firstn; lia).
    rewrite length_app, L2 in Hlen. lia.
Qed.

Lemma extractiveSummary_shape_witness :
  extractiveSummary (str "One. Two.") = str "One. Two.".
Proof.
  apply (proj1 (extractiveSummary_shape (str "One. Two."))).
  apply Nat.leb_le. vm_compute. reflexivity.
Defined.

(** *** The bullet points of a reply *)

(** X11. Every point that [bulletPoints] returns comes from a line of the reply
    that starts, after white space, with a dash, a bullet or a number and a
    dot; it is not empty and has no white space at either end.  A reply
    without such a line gives no point. *)
Theorem bulletPoints_trimmed (response : jsstring) :
  (forall p, In p (bulletPoints response) ->
     p <> [] /\ trim p = p /\
     exists line, In line (split LF response) /\
                  isBulletLine line = true /\
                  p = trim (stripMarker line)) /\
  ((forall line, In line (split LF response) -> isBulletLine line = false) ->
   bulletPoints response = []).
Proof.
  unfold bulletPoints. split.
  - intros p Hp. apply filter_In in Hp. destruct Hp as [Hp Hlen].
    apply in_map_iff in Hp. destruct Hp as (line & <- & Hline).
    apply filter_In in Hline. destruct Hline as [Hin Hb].
    split; [|split].
    + intros E. rewrite E in Hlen. discriminate.
    + apply trim_trim.
    + exists line. auto.
  - intros Hnone.
    replace (filter isBulletLine (split LF response)) with (@nil jsstring);
      [reflexivity|].
    symmetry. induction (split LF response) as [|l ls IH]; [reflexivity|].
    simpl. rewrite (Hnone l (or_introl eq_refl)). apply IH.
    intros x Hx. apply Hnone. right. exact Hx.
Qed.

Lemma bulletPoints_trimmed_witness :
  bulletPoints (str "no points here") = [].
Proof.
  apply (proj2 (bulletPoints_trimmed (str "no points here"))).
  intros line Hin. vm_compute in Hin. destruct Hin as [<-|[]].
  reflexivity.
Defined.

(** A bullet at the start of a line loses its marker; an indented one
    keeps it, because the marker is looked for at the start of the line
    before the line is trimmed. *)
Example bulletPoints_indented :
  bulletPoints (str "- first" ++ [LF] ++ str "  - second" ++ [LF]
                ++ str "plain" ++ [LF] ++ str "2. third")
  = [str "first"; str "- second"; str "third"].
Proof. vm_compute. reflexivity. Qed.

End ExtractiveFacts.

(* ================================================================== *)
(** ** Summaries and key points when the completion service fails *)

Module FallbackFacts.

Import Json Sql Service.

Local Open Scope monad_scope.

(** The sample collaborators with the fallbacks of the source, and a
    parser that knows the empty array. *)
Definition sourceEnv : Env :=
  {| sha256 := Sample.digest;
     toLowerCase := Sample.lower;
     toUpperCase := Sample.upper;
     JSON_parse := fun s =>
       if jsstring_eqb s (str "[]") then Some (JArr []) else Sample.parse s;
     basename := Sample.lastSegment;
     pathJoin := Sample.join2;
     fsStat := Sample.stat;
     pipelineLoads := true;
     embed := fun _ => Ok [1%Q; 0%Q];
     vectorQuery := fun _ _ _ _ => [];
     fullTextMatch := fun _ _ _ => [];
     extractiveSummary := Extractive.extractiveSummary;
     extractiveKeyPoints := Extractive.extractiveKeyPoints;
     bulletPoints := Extractive.bulletPoints;
     extractSnippet := fun text _ => text |}.

Lemma sendChatMessage_silent s :
  chat s = [] -> sendChatMessage s = (Throw CollaboratorError, s).
Proof. unfold sendChatMessage. intros ->. reflexivity. Qed.

(** X12. When every call of the completion service throws, [generateSummary]
    and [extractKeyPoints] return what the extractive fallbacks give, for
    short and for long contents, and leave the service as it is. *)
Theorem enrichment_falls_back env content s :
  chat s = [] ->
  generateSummary env content s = (Ok (extractiveSummary env content), s) /\
  extractKeyPoints env content s
  = (Ok (extractiveKeyPoints env content), s).
Proof.
  intros Hchat. split.
  - unfold generateSummary.
    destruct (longDocument <? length content).
    + unfold bind.
      destruct (splitTextIntoChunks content longDocument 0) as [|p parts].
      * reflexivity.
      * cbn [summarizeParts]. unfold bind, tryCatch.
        rewrite (sendChatMessage_silent Hchat). reflexivity.
    + unfold tryCatch. rewrite (sendChatMessage_silent Hchat). reflexivity.
  - unfold extractKeyPoints, tryCatch, bind.
    rewrite (sendChatMessage_silent Hchat). reflexivity.
Qed.

Lemma enrichment_falls_back_witness :
  generateSummary Sample.env (str "hello") initialState
  = (Ok (str "hello"), initialState).
Proof.
  apply (proj1 (@enrichment_falls_back Sample.env (str "hello") initialState
                  eq_refl)).
Defined.

(** X13. With the fallback of the source, [extractKeyPoints] never throws and
    never returns an empty list, whatever the completion service does. *)
Theorem extractKeyPoints_never_empty env content s :
  (forall c, extractiveKeyPoints env c = Extractive.extractiveKeyPoints c) ->
  exists points s',
    extractKeyPoints env content s = (Ok points, s') /\
    1 <= length points /\ tables s' = tables s /\ txn s' = txn s.
Proof.
  intros Hfb.
  assert (Hne : 1 <= length (extractiveKeyPoints env content)).
  { rewrite Hfb. apply ExtractiveFacts.extractiveKeyPoints_facts. }
  unfold extractKeyPoints, tryCatch, bind, sendChatMessage.
  destruct (chat s) as [|[text|] rest].
  - eexists _, _. split; [reflexivity|]. auto.
  - unfold ret. cbv zeta.
    destruct (bulletPoints env text) as [|p ps].
    + eexists _, _. split; [reflexivity|]. auto.
    + eexists _, _. split; [reflexivity|].
      simpl. split; [lia|auto].
  - eexists _, _. split; [reflexivity|]. auto.
Qed.

Lemma extractKeyPoints_never_empty_witness :
  exists points s',
    extractKeyPoints sourceEnv (str "hello") initialState = (Ok points, s') /\
    1 <= length points /\ tables s' = tables initialState /\
    txn s' = txn initialState.
Proof.
  apply (@extractKeyPoints_never_empty sourceEnv (str "hello") initialState).
  intros c. reflexivity.
Defined.

End FallbackFacts.

(* ================================================================== *)
(** ** What the read operations leave alone *)

Module ReadFacts.

Import Json Sql Service Readers Hoare.

Local Open Scope monad_scope.

(** All of the service but the fault counter of the driver and the flag of
    the embedding model. *)
Definition observed (s : State) :=
  (tables s, txn s, vectorStore s, indexingProgress s, chat s, clock s).

(** [m] changes nothing that is observed. *)
Definition reads {A} (m : M A) : Prop :=
  forall s, observed (snd (m s)) = observed s.

Lemma reads_ret {A} (a : A) : reads (ret a).
Proof. intros s. reflexivity. Qed.

Lemma reads_throw {A} e : reads (@throw A e).
Proof. intros s. reflexivity. Qed.

Lemma reads_gets {A} (f : State -> A) : reads (gets f).
Proof. intros s. reflexivity. Qed.

Lemma reads_liftResult {A} (r : Result A) : reads (liftResult r).
Proof. intros s. reflexivity. Qed.

Lemma reads_bind {A B} (m : M A) (k : A -> M B) :
  reads m -> (forall a, reads (k a)) -> reads (bind m k).
Proof.
  intros Hm Hk s. unfold bind. specialize (Hm s).
  destruct (m s) as [[a|e] s1]; [|exact Hm].
  rewrite (Hk a s1). exact Hm.
Qed.

Lemma reads_tryCatch {A} (m : M A) (h : Error -> M A) :
  reads m -> (forall e, reads (h e)) -> reads (tryCatch m h).
Proof.
  intros Hm Hh s. unfold tryCatch. specialize (Hm s).
  destruct (m s) as [[a|e] s1]; [exact Hm|].
  rewrite (Hh e s1). exact Hm.
Qed.

Lemma reads_tick : reads tick.
Proof. intros s. unfold tick. destruct (fuse s) as [[|n]|]; reflexivity. Qed.

Lemma reads_query {A} (f : Tables -> A) : reads (query f).
Proof. apply reads_bind; [apply reads_tick|intros _; apply reads_gets]. Qed.

Lemma reads_foldM {A B} (f : B -> A -> M B) (l : list A) :
  (forall b a, reads (f b a)) -> forall acc, reads (foldM f l acc).
Proof.
  intros Hf. induction l as [|x l IH]; intros acc; simpl.
  - apply reads_ret.
  - apply reads_bind; [apply Hf|exact IH].
Qed.

Create HintDb reads.

#[local] Hint Resolve reads_tick : reads.

Ltac reads_step :=
  lazymatch goal with
  | |- reads (bind _ _) => apply reads_bind; [|intro]
  | |- reads (tryCatch _ _) => apply reads_tryCatch; [|intro]
  | |- reads (foldM _ _ _) => apply reads_foldM; intros
  | |- reads (ret _) => apply reads_ret
  | |- reads (throw _) => apply reads_throw
  | |- reads (gets _) => apply reads_gets
  | |- reads (liftResult _) => apply reads_liftResult
  | |- reads (query _) => apply reads_query
  | |- reads (match ?x with _ => _ end) => destruct x
  | |- reads _ => solve [auto with reads]
  end.

Ltac reads_all := repeat reads_step.

Section WithEnv.

Variable env : Env.
Variable cfg : Config.

Lemma reads_generateEmbedding text : reads (generateEmbedding env text).
Proof.
  unfold generateEmbedding, initialize. reads_all.
  intros s. reflexivity.
Qed.

Lemma reads_getDocumentContent documentId :
  reads (getDocumentContent documentId).
Proof. unfold getDocumentContent. reads_all. Qed.

Lemma reads_getDocument documentId : reads (getDocument env documentId).
Proof. unfold getDocument. reads_all. Qed.

Lemma reads_getKnowledgeGraph minWeight maxNodes :
  reads (getKnowledgeGraph minWeight maxNodes).
Proof. unfold getKnowledgeGraph. reads_all. Qed.

Hint Resolve reads_generateEmbedding reads_getDocumentContent
  reads_getDocument : reads.

Section WithNumber.

Context {F : Type} {num : Number F}.

Lemma reads_hydrateMatch text acc m :
  reads (hydrateMatch (F := F) env text acc m).
Proof. unfold hydrateMatch. reads_all. Qed.

Hint Resolve reads_hydrateMatch : reads.

Lemma reads_searchDocuments text options :
  reads (searchDocuments (F := F) env text options).
Proof.
  unfold searchDocuments, semanticSearch, fullTextSearch. reads_all.
Qed.

Hint Resolve reads_searchDocuments : reads.

Lemma reads_getSimilarDocuments documentId limit :
  reads (getSimilarDocuments (F := F) env documentId limit).
Proof. unfold getSimilarDocuments. reads_all. Qed.

End WithNumber.

End WithEnv.

(** The result is not an error other than [e0]. *)
Definition onlyThrows {A} (e0 : Error) (r : Result A) : Prop :=
  match r with
  | Throw e => e = e0
  | Ok _ => True
  end.

(** A method whose body is wrapped in [try { } catch { throw new E }]
    throws nothing but [E]. *)
Lemma wrapped_throws {A} (m : M A) (e0 : Error) s :
  onlyThrows e0 (fst (tryCatch m (fun _ => throw e0) s)).
Proof.
  unfold tryCatch, throw. destruct (m s) as [[a|e1] s1]; simpl; auto.
Qed.

(** X14. The read operations, [getDocument], [getDocumentContent],
    [getKnowledgeGraph] called with neither a document nor a concept to
    start from, [searchDocuments] and [getSimilarDocuments], change no
    table, open or close no transaction, and touch neither the vector index
    nor the progress record, the replies of the completion service or the
    clock, whether they return or throw. *)
Theorem read_operations_only_read env {F : Type} {num : Number F} :
  (forall documentId, reads (getDocument env documentId)) /\
  (forall documentId, reads (getDocumentContent documentId)) /\
  (forall minWeight maxNodes, reads (getKnowledgeGraph minWeight maxNodes)) /\
  (forall text options, reads (searchDocuments (F := F) env text options)) /\
  (forall documentId limit,
     reads (getSimilarDocuments (F := F) env documentId limit)).
Proof.
  split; [exact (reads_getDocument env)|].
  split; [exact reads_getDocumentContent|].
  split; [exact reads_getKnowledgeGraph|].
  split; [exact (reads_searchDocuments env)|].
  exact (reads_getSimilarDocuments env).
Qed.

End ReadFacts.

(* ================================================================== *)
(** ** The knowledge graph that getKnowledgeGraph builds *)

Module GraphViewFacts.

Import Json Sql Service Readers Hoare.
Import DeleteFacts.

Local Open Scope Q_scope.

(** The edge pushed for a row. *)
Definition edgeOf (rel : GraphRow) : KnowledgeGraphEdge :=
  {| ke_source := r_source_id (gr_rel rel);
     ke_target := r_target_id (gr_rel rel);
     ke_label := r_relationship_type (gr_rel rel);
     ke_weight := r_weight (gr_rel rel) |}.

Lemma nodeOf_id id type title concept :
  kn_id (nodeOf id type title concept) = id.
Proof.
  unfold nodeOf. destruct (jsstring_eqb type _); [reflexivity|].
  destruct concept as [k|]; simpl; [|reflexivity].
  destruct (jsstring_eqb (k_type k) _); [reflexivity|].
  destruct (jsstring_eqb (k_type k) _); reflexivity.
Qed.

Lemma hasNode_app id nodes n :
  hasNode id (nodes ++ [n])
  = hasNode id nodes || jsstring_eqb (kn_id n) id.
Proof.
  unfold hasNode. rewrite existsb_app. simpl. rewrite orb_false_r.
  reflexivity.
Qed.

Lemma hasNode_addNode id n nodes :
  hasNode id nodes = true -> hasNode id (addNode n nodes) = true.
Proof.
  intros H. unfold addNode. destruct (hasNode (kn_id n) nodes); [exact H|].
  rewrite hasNode_app, H. reflexivity.
Qed.

Lemma hasNode_added n nodes : hasNode (kn_id n) (addNode n nodes) = true.
Proof.
  unfold addNode. destruct (hasNode (kn_id n) nodes) eqn:E; [exact E|].
  rewrite hasNode_app, jsstring_eqb_refl. apply orb_true_r.
Qed.

Lemma hasNode_In id nodes :
  hasNode id nodes = true <-> In id (map kn_id nodes).
Proof.
  unfold hasNode. rewrite existsb_exists, in_map_iff. split.
  - intros (n & Hn & E). apply jsstring_eqb_eq in E. eauto.
  - intros (n & E & Hn). exists n. split; [exact Hn|].
    apply jsstring_eqb_eq. exact E.
Qed.

Lemma addNode_NoDup n nodes :
  NoDup (map kn_id nodes) -> NoDup (map kn_id (addNode n nodes)).
Proof.
  intros H. unfold addNode. destruct (hasNode (kn_id n) nodes) eqn:E;
    [exact H|].
  rewrite map_app. simpl.
  apply NoDup_app; [exact H|repeat constructor; intros []|].
  intros x Hx [<-|[]]. apply hasNode_In in Hx. congruence.
Qed.

Lemma addNode_length n nodes :
  (length (addNode n nodes) <= S (length nodes))%nat.
Proof.
  unfold addNode. destruct (hasNode _ _); [lia|].
  rewrite length_app. simpl. lia.
Qed.

(** The nodes have distinct ids, every edge joins two of them, and there
    are at most two nodes for an edge. *)
Definition wellFormed (g : KnowledgeGraph) : Prop :=
  NoDup (map kn_id (kg_nodes g)) /\
  (forall e, In e (kg_edges g) ->
     hasNode (ke_source e) (kg_nodes g) = true /\
     hasNode (ke_target e) (kg_nodes g) = true) /\
  (length (kg_nodes g) <= 2 * length (kg_edges g))%nat.

Lemma graphStep_wellFormed g rel :
  wellFormed g -> wellFormed (graphStep g rel).
Proof.
  intros (Hnd & Hed & Hlen). unfold graphStep.
  set (n1 := nodeOf (r_source_id (gr_rel rel)) _ _ _).
  set (n2 := nodeOf (r_target_id (gr_rel rel)) _ _ _).
  assert (I1 : kn_id n1 = r_source_id (gr_rel rel)) by apply nodeOf_id.
  assert (I2 : kn_id n2 = r_target_id (gr_rel rel)) by apply nodeOf_id.
  split; [|split]; cbn [kg_nodes kg_edges].
  - apply addNode_NoDup, addNode_NoDup, Hnd.
  - intros e He. apply in_app_or in He. destruct He as [He|[<-|[]]].
    + destruct (Hed e He) as [A B].
      split; apply hasNode_addNode, hasNode_addNode; assumption.
    + cbn [ke_source ke_target]. split.
      * apply hasNode_addNode. rewrite <- I1. apply hasNode_added.
      * rewrite <- I2. apply hasNode_added.
  - rewrite length_app. simpl.
    pose proof (addNode_length n1 (kg_nodes g)).
    pose proof (addNode_length n2 (addNode n1 (kg_nodes g))).
    lia.
Qed.

Lemma fold_graphStep rows : forall g,
  wellFormed g ->
  wellFormed (fold_left graphStep rows g) /\
  kg_edges (fold_left graphStep rows g) = kg_edges g ++ map edgeOf rows.
Proof.
  induction rows as [|rel rows IH]; intros g Hg; simpl.
  - rewrite app_nil_r. auto.
  - destruct (IH (graphStep g rel) (graphStep_wellFormed rel Hg)) as [A B].
    split; [exact A|]. rewrite B. unfold graphStep.
    cbn [kg_edges]. rewrite <- app_assoc. reflexivity.
Qed.

Lemma buildGraph_facts rows :
  wellFormed (buildGraph rows) /\
  kg_edges (buildGraph rows) = map edgeOf rows.
Proof.
  unfold buildGraph. apply fold_graphStep.
  split; [constructor|]. split; [intros e []|simpl; lia].
Qed.

(** X15. Whatever rows the query gives, the graph built from them has nodes of
    distinct ids, one edge for each row in the order of the rows, both ends
    of every edge among the nodes, and at most two nodes for an edge. *)
Theorem buildGraph_wellFormed (rows : list GraphRow) :
  wellFormed (buildGraph rows) /\
  kg_edges (buildGraph rows) = map edgeOf rows.
Proof. exact (buildGraph_facts rows). Qed.

(** *** The rows of the query *)

Definition heavierFirst (a b : RelationshipRow) : Prop :=
  r_weight b <= r_weight a.

Lemma insertByWeight_In x l y :
  In y (insertByWeight x l) <-> y = x \/ In y l.
Proof.
  induction l as [|z l IH]; simpl; [intuition auto|].
  destruct (Qle_bool (r_weight z) (r_weight x)); simpl; [intuition auto|].
  rewrite IH. intuition auto.
Qed.

Lemma insertByWeight_sorted x l :
  StronglySorted heavierFirst l ->
  StronglySorted heavierFirst (insertByWeight x l).
Proof.
  induction 1 as [|z l Hs IH Hall]; simpl.
  - repeat constructor.
  - destruct (Qle_bool (r_weight z) (r_weight x)) eqn:E.
    + apply Qle_bool_iff in E. constructor.
      * constructor; assumption.
      * constructor; [exact E|].
        rewrite Forall_forall in *. intros y Hy. unfold heavierFirst in *.
        eapply Qle_trans; [apply Hall, Hy|exact E].
    + constructor; [exact IH|].
      rewrite Forall_forall in *. intros y Hy.
      apply insertByWeight_In in Hy. destruct Hy as [->|Hy]; [|auto].
      unfold heavierFirst. apply Qlt_le_weak, Qnot_le_lt.
      intros Hle. apply Qle_bool_iff in Hle. congruence.
Qed.

Lemma sortByWeight_sorted l : StronglySorted heavierFirst (sortByWeight l).
Proof.
  induction l as [|x l IH]; simpl; [constructor|].
  apply insertByWeight_sorted, IH.
Qed.

Lemma sortByWeight_In l y : In y (sortByWeight l) <-> In y l.
Proof.
  induction l as [|x l IH]; simpl; [tauto|].
  rewrite insertByWeight_In, IH. intuition auto.
Qed.

Lemma StronglySorted_firstn {A} (R : A -> A -> Prop) n : forall l,
  StronglySorted R l -> StronglySorted R (firstn n l).
Proof.
  induction n as [|n IH]; intros l H; [constructor|].
  destruct H as [|x l Hs Hall]; simpl; [constructor|].
  constructor; [apply IH, Hs|].
  rewrite Forall_forall in *. intros y Hy. apply Hall.
  apply ExtractiveFacts.in_firstn in Hy. exact Hy.
Qed.

Lemma StronglySorted_map {A B} (R : A -> A -> Prop) (S : B -> B -> Prop)
  (f : A -> B) l :
  (forall a b, R a b -> S (f a) (f b)) ->
  StronglySorted R l -> StronglySorted S (map f l).
Proof.
  intros Hf. induction 1 as [|x l Hs IH Hall]; simpl; constructor;
    [exact IH|].
  rewrite Forall_forall in *. intros y Hy. apply in_map_iff in Hy.
  destruct Hy as (a & <- & Ha). apply Hf, Hall, Ha.
Qed.

(** X16. Without a documentId and a conceptId, and when the driver does not
    fail, [getKnowledgeGraph] returns a well-formed graph whose edges are
    relationships of the store of weight at least [minWeight] (one half
    when it is left out or zero), heaviest first, and at most [maxNodes]
    of them (a hundred when it is left out or zero): the bound is on the
    edges, there can be twice as many nodes. *)
Theorem getKnowledgeGraph_limits minWeight maxNodes s :
  fuse s = None ->
  exists g,
    getKnowledgeGraph minWeight maxNodes s = (Ok g, s) /\
    wellFormed g /\
    (length (kg_edges g) <= orDefault maxNodes 100)%nat /\
    StronglySorted (fun a b => ke_weight b <= ke_weight a) (kg_edges g) /\
    forall e, In e (kg_edges g) ->
      minWeightOr minWeight <= ke_weight e /\
      exists r, In r (relationships (tables s)) /\
                ke_source e = r_source_id r /\
                ke_target e = r_target_id r /\
                ke_label e = r_relationship_type r /\
                ke_weight e = r_weight r.
Proof.
  intros Hf. unfold getKnowledgeGraph, tryCatch, bind.
  rewrite (query_quiet _ Hf). unfold ret.
  eexists. split; [reflexivity|].
  destruct (buildGraph_facts
              (graphRows (minWeightOr minWeight) (orDefault maxNodes 100)
                 (tables s))) as [Hwf Hedges].
  split; [exact Hwf|]. rewrite Hedges. unfold graphRows.
  rewrite map_map.
  set (picked := firstn _ _).
  assert (Hsorted : StronglySorted heavierFirst picked)
    by apply StronglySorted_firstn, sortByWeight_sorted.
  split; [|split].
  - rewrite length_map. unfold picked. rewrite length_firstn. lia.
  - apply StronglySorted_map with (R := heavierFirst); [|exact Hsorted].
    intros a b Hab. exact Hab.
  - intros e He. apply in_map_iff in He. destruct He as (r & <- & Hr).
    unfold picked in Hr. apply ExtractiveFacts.in_firstn in Hr.
    apply sortByWeight_In, filter_In in Hr. destruct Hr as [Hin Hw].
    apply Qle_bool_iff in Hw. split; [exact Hw|].
    exists r. repeat split. exact Hin.
Qed.

Lemma getKnowledgeGraph_limits_witness :
  exists g,
    getKnowledgeGraph None (Some 2%nat) Sample.passedTwice
    = (Ok g, Sample.passedTwice) /\
    (length (kg_edges g) <= 2)%nat.
Proof.
  destruct (@getKnowledgeGraph_limits None (Some 2%nat) Sample.passedTwice
              eq_refl) as (g & Hrun & _ & Hlen & _).
  exists g. split; [exact Hrun|exact Hlen].
Defined.

(** On the sample graph (two concepts of one document, extracted twice)
    only the two heaviest of the three edges are returned, with the three
    nodes they join. *)
Example getKnowledgeGraph_sample :
  let g := fst (getKnowledgeGraph None (Some 2%nat) Sample.passedTwice) in
  match g with
  | Ok g =>
      map ke_weight (kg_edges g) = [2; 2] /\
      map kn_type (kg_nodes g) = [NDocument; NTopic; NConcept] /\
      map kn_label (kg_nodes g)
      = [str "Unknown Document"; str "Rocq"; str "Proof"]
  | Throw _ => False
  end.
Proof. vm_compute. repeat split. Qed.

End GraphViewFacts.

(* ================================================================== *)
(** ** A document from indexing to deletion *)

Module LifecycleFacts.

Import Json Sql Service Readers Hoare.

(** *** The ids of chunks *)

Lemma to_uint_not_Nil n : Nat.to_uint n <> Decimal.Nil.
Proof.
  intros H. pose proof (Unsigned.of_to n) as Hn. rewrite H in Hn.
  cbn in Hn. subst n. discriminate.
Qed.

Lemma N_of_ascii_inj a b : N_of_ascii a = N_of_ascii b -> a = b.
Proof.
  intros H. rewrite <- (ascii_N_embedding a), <- (ascii_N_embedding b), H.
  reflexivity.
Qed.

Lemma map_inj {A B} (f : A -> B) :
  (forall a b, f a = f b -> a = b) ->
  forall l l', map f l = map f l' -> l = l'.
Proof.
  intros Hf. induction l as [|x l IH]; intros [|y l'] H; simpl in H;
    try discriminate; [reflexivity|].
  injection H as H1 H2. f_equal; auto.
Qed.

Lemma str_inj a b : str a = str b -> a = b.
Proof.
  unfold str. intros H. apply (map_inj N_of_ascii_inj) in H.
  rewrite <- (string_of_list_ascii_of_string a),
          <- (string_of_list_ascii_of_string b), H.
  reflexivity.
Qed.

Lemma numToString_inj i j : numToString i = numToString j -> i = j.
Proof.
  unfold numToString. intros H. apply str_inj in H.
  assert (Hu : Nat.to_uint i = Nat.to_uint j).
  { pose proof (NilZero.usu (Nat.to_uint i) (@to_uint_not_Nil i)) as A.
    pose proof (NilZero.usu (Nat.to_uint j) (@to_uint_not_Nil j)) as B.
    rewrite H in A. rewrite A in B. injection B as B. exact B. }
  rewrite <- (Unsigned.of_to i), <- (Unsigned.of_to j), Hu. reflexivity.
Qed.

Lemma mkChunk_id_inj md x i y j :
  ch_id (Chunker.mkChunk md x i) = ch_id (Chunker.mkChunk md y j) -> i = j.
Proof.
  cbn [ch_id Chunker.mkChunk]. intros H.
  apply app_inv_head in H. apply app_inv_head in H.
  apply app_inv_head in H. apply numToString_inj. exact H.
Qed.

Lemma app_same_length (a : jsstring) : forall b x y,
  length a = length b -> a ++ x = b ++ y -> a = b.
Proof.
  induction a as [|h a IH]; intros [|h' b] x y Hl He;
    simpl in *; try discriminate; [reflexivity|].
  injection He as -> He. f_equal. eapply IH; eauto.
Qed.

Section WithConfig.

Variable cfg : Config.

Lemma chunkDocument_numbered text md i c :
  nth_error (Chunker.chunkDocument cfg text md) i = Some c ->
  c = Chunker.mkChunk md (ch_content c) i.
Proof. apply (ChunkerFacts.chunkDocument_chain cfg text md). Qed.

Lemma numbered_seq {A} (f : A -> nat) (l : list A) : forall k,
  (forall i c, nth_error l i = Some c -> f c = k + i) ->
  map f l = seq k (length l).
Proof.
  induction l as [|x l IH]; intros k H; simpl; [reflexivity|].
  f_equal.
  - rewrite (H 0 x eq_refl). lia.
  - apply IH. intros i c Hc. rewrite (H (S i) c Hc). lia.
Qed.

Lemma chunkDocument_ids_NoDup text md :
  NoDup (map ch_id (Chunker.chunkDocument cfg text md)).
Proof.
  apply NoDup_nth_error. intros i j Hi Hij.
  rewrite length_map in Hi.
  rewrite !nth_error_map in Hij.
  destruct (nth_error (Chunker.chunkDocument cfg text md) i) as [c|] eqn:Ec.
  - destruct (nth_error (Chunker.chunkDocument cfg text md) j) as [d|] eqn:Ed;
      [|discriminate].
    injection Hij as Hij.
    rewrite (chunkDocument_numbered Ec), (chunkDocument_numbered Ed) in Hij.
    exact (mkChunk_id_inj Hij).
  - apply nth_error_None in Ec. lia.
Qed.

Lemma chunkDocument_indices text md :
  map ch_index (Chunker.chunkDocument cfg text md)
  = seq 0 (length (Chunker.chunkDocument cfg text md)).
Proof.
  apply numbered_seq. intros i c Hc.
  rewrite (chunkDocument_numbered Hc). reflexivity.
Qed.

(** X17. No two chunks of a document have the same chunk id
    [chunk_<document id>_<index>], and the chunks of two documents have
    different ids as soon as the document ids differ and have the same
    length, as digests have. *)
Theorem chunk_ids_distinct (text text' : jsstring)
  (md md' : DocumentMetadata) :
  NoDup (map ch_id (Chunker.chunkDocument cfg text md)) /\
  (length (md_id md) = length (md_id md') ->
   md_id md <> md_id md' ->
   forall c c', In c (Chunker.chunkDocument cfg text md) ->
     In c' (Chunker.chunkDocument cfg text' md') -> ch_id c <> ch_id c').
Proof.
  split; [apply chunkDocument_ids_NoDup|].
  intros Hlen Hne c c' Hc Hc' Heq.
  apply In_nth_error in Hc, Hc'. destruct Hc as [i Hc], Hc' as [j Hc'].
  rewrite (chunkDocument_numbered Hc), (chunkDocument_numbered Hc') in Heq.
  cbn [ch_id Chunker.mkChunk] in Heq. apply app_inv_head in Heq.
  apply Hne. exact (app_same_length Hlen Heq).
Qed.

End WithConfig.

(** The metadata of a second document. *)
Definition otherMetadata : DocumentMetadata :=
  {| md_id := str "two"; md_title := str "other.txt";
     md_path := str "/kb/other.txt"; md_type := TText; md_size := 0;
     md_created := 0%N; md_modified := 0%N; md_indexed := 0%N;
     md_author := None; md_tags := None; md_summary := None;
     md_keyPoints := None; md_pageCount := None; md_wordCount := None |}.

Lemma chunk_ids_distinct_witness :
  NoDup (map ch_id (Chunker.chunkDocument Sample.cfg (str "one")
                      ChunkerFacts.sampleMetadata)) /\
  forall c c',
    In c (Chunker.chunkDocument Sample.cfg (str "one")
            ChunkerFacts.sampleMetadata) ->
    In c' (Chunker.chunkDocument Sample.cfg (str "one") otherMetadata) ->
    ch_id c <> ch_id c'.
Proof.
  destruct (chunk_ids_distinct Sample.cfg (str "one") (str "one")
              ChunkerFacts.sampleMetadata otherMetadata) as [H1 H2].
  split; [exact H1|]. apply H2; [reflexivity|discriminate].
Defined.

(** *** Reading back what was indexed *)

Lemma find_absent {A} (f : A -> bool) l :
  (forall x, In x l -> f x = false) -> find f l = None.
Proof.
  induction l as [|a l IH]; intros H; simpl; [reflexivity|].
  rewrite (H a (or_introl eq_refl)). apply IH. intros x Hx. apply H.
  right. exact Hx.
Qed.

Lemma jsstring_eqb_neq a b : a <> b -> jsstring_eqb a b = false.
Proof.
  intros H. destruct (jsstring_eqb a b) eqn:E; [|reflexivity].
  apply DeleteFacts.jsstring_eqb_eq in E. contradiction.
Qed.

Lemma increasing_sorted {A} (f : A -> nat) (l : list A) : forall k,
  map f l = seq k (length l) ->
  StronglySorted (fun a b => f a <= f b) l.
Proof.
  induction l as [|x l IH]; intros k H; [constructor|].
  simpl in H. injection H as Hx Hl. constructor; [exact (IH _ Hl)|].
  apply Forall_forall. intros y Hy.
  assert (Hin : In (f y) (seq (S k) (length l)))
    by (rewrite <- Hl; apply in_map; exact Hy).
  apply in_seq in Hin. lia.
Qed.

(** [ORDER BY index_num] leaves rows alone that are in order already. *)
Lemma orderByIndex_fixed l :
  StronglySorted (fun a b => c_index_num a <= c_index_num b) l ->
  orderByIndex l = l.
Proof.
  induction 1 as [|a l Hs IH Ha]; [reflexivity|].
  cbn [orderByIndex fold_right]. fold (orderByIndex l). rewrite IH.
  destruct l as [|d r]; [reflexivity|]. cbn [insertByIndex].
  inversion Ha as [|? ? Hd _]; subst.
  apply Nat.leb_le in Hd. rewrite Hd. reflexivity.
Qed.

Section WithEnv.

Variable env : Env.
Variable cfg : Config.

(** No chunk row belongs to the document of [path] or carries one of its
    chunk ids: what holds before the file is indexed for the first time. *)
Definition unseen (path : jsstring) (t : Tables) : Prop :=
  forall r, In r (document_chunks t) ->
    c_document_id r <> sha256 env path /\
    forall i,
      c_id r <> str "chunk_" ++ sha256 env path ++ str "_" ++ numToString i.

Lemma query_run {A} (g : Tables -> A) s :
  query g s
  = match fuse s with
    | Some 0 => (Throw SqliteError, setFuse None s)
    | Some (S n) => (Ok (g (tables s)), setFuse (Some n) s)
    | None => (Ok (g (tables s)), s)
    end.
Proof.
  unfold query, bind, tick, gets. destruct (fuse s) as [[|n]|]; reflexivity.
Qed.

Lemma getDocumentContent_quiet documentId s :
  fuse s = None ->
  getDocumentContent documentId s
  = (Ok (join [LF; LF]
           (map c_content (orderByIndex (chunksOf documentId (tables s))))),
     s).
Proof.
  intros Hf. unfold getDocumentContent, tryCatch, bind.
  rewrite (query_quiet _ Hf). reflexivity.
Qed.

(** The rows of the document after a call for a file that was not indexed
    before: none, or the row of the first chunk. *)
Lemma outcome_chunks path info data s r s' :
  unseen path (tables s) ->
  IndexFacts.outcome env cfg path info data s r s' ->
  map c_content (orderByIndex (chunksOf (sha256 env path) (tables s')))
  = firstn 1 (IndexFacts.chunkTexts cfg (fd_content data)).
Proof.
  intros Hnew (md & tM & Hmd & HM & _ & _ & _ & Hcase).
  destruct Hmd as (Hmid & _).
  destruct HM as (d & _ & _ & _ & Hchunks & _).
  rewrite <- (IndexFacts.chunkTexts_of cfg (fd_content data) md).
  assert (Hnone : chunksOf (sha256 env path) (tables s) = []).
  { apply ContentFacts.chunksOf_none. intros x Hx. apply (Hnew x Hx). }
  destruct (Chunker.chunkDocument cfg (fd_content data) md) as [|c rest]
    eqn:Ec.
  - destruct Hcase as [_ Hrows]. unfold chunksOf in *.
    rewrite Hrows, Hnone. reflexivity.
  - destruct Hcase as (_ & -> & _).
    assert (Hc : nth_error (Chunker.chunkDocument cfg (fd_content data) md) 0
                 = Some c) by (rewrite Ec; reflexivity).
    assert (Hrows : document_chunks (SaveFacts.upsertChunk (chunkRow c) tM)
                    = document_chunks (tables s) ++ [chunkRow c]).
    { rewrite IndexFacts.upsertChunk_rows, Hchunks.
      rewrite find_absent; [reflexivity|].
      intros x Hx. apply jsstring_eqb_neq.
      rewrite (chunkDocument_numbered Hc). cbn [c_id chunkRow ch_id
                                                 Chunker.mkChunk].
      rewrite Hmid. apply (Hnew x Hx). }
    unfold chunksOf in *. rewrite Hrows, filter_app, Hnone.
    cbn [filter app chunkRow c_document_id].
    rewrite (IndexFacts.chunkDocument_documentId (cfg:=cfg)
               (text:=fd_content data) (md:=md) (c:=c))
      by (rewrite Ec; left; reflexivity).
    rewrite Hmid, DeleteFacts.jsstring_eqb_refl. reflexivity.
Qed.

(** X18. After a call of [indexDocument] for a file that can be read and was
    not indexed before, with no database fault and no other document at the
    path, the document reads back as the text of its first chunk, if it
    has a chunk, and as the empty string otherwise. *)
Theorem indexDocument_then_content (path : jsstring) (options : IndexOptions)
  (s : State) (info : FileInfo) (data : FileData) (r : Result jsstring)
  (s' : State) :
  SaveFacts.uniqueIds (tables s) -> txn s = None -> fuse s = None ->
  IndexFacts.readable env path info data ->
  IndexFacts.pathTaken env path (tables s) = false ->
  unseen path (tables s) ->
  indexDocument env cfg path options s = (r, s') ->
  fuse s' = None ->
  getDocumentContent (sha256 env path) s'
  = (Ok (join [LF; LF]
           (firstn 1 (IndexFacts.chunkTexts cfg (fd_content data)))), s').
Proof.
  intros Hu Ht Hf Hread Htaken Hnew Hrun Hf'.
  destruct (@IndexFacts.indexDocument_run env cfg path options s info data
              Hu Ht Hf Hread Htaken) as (r0 & s0 & Hrun0 & Hout).
  rewrite Hrun in Hrun0. injection Hrun0 as <- <-.
  rewrite (getDocumentContent_quiet (sha256 env path) Hf'),
    (outcome_chunks Hnew Hout).
  reflexivity.
Qed.

(** X19. After a call of [indexDocument] for a file that can be read, with
    no database fault and no other document at the path, [getDocument] never
    answers [null] for the digest of the path, whether the call returned or
    threw at the first chunk: it returns the document with that id, the
    path, the base name as title and the detected type, or throws a
    [DatabaseError] when a stored JSON column does not parse. *)
Theorem indexDocument_then_getDocument (path : jsstring)
  (options : IndexOptions) (s : State) (info : FileInfo) (data : FileData)
  (r : Result jsstring) (s' : State) :
  SaveFacts.uniqueIds (tables s) -> txn s = None -> fuse s = None ->
  IndexFacts.readable env path info data ->
  IndexFacts.pathTaken env path (tables s) = false ->
  indexDocument env cfg path options s = (r, s') ->
  fuse s' = None ->
  match fst (getDocument env (sha256 env path) s') with
  | Ok (Some v) =>
      dv_id v = sha256 env path /\ dv_path v = path /\
      dv_title v = basename env path /\ dv_type v = fi_type info
  | Ok None => False
  | Throw e => e = DatabaseError
  end.
Proof.
  intros Hu Ht Hf Hread Htaken Hrun Hf'.
  destruct (@IndexFacts.indexDocument_run env cfg path options s info data
              Hu Ht Hf Hread Htaken) as (r0 & s0 & Hrun0 & Hout).
  rewrite Hrun in Hrun0. injection Hrun0 as <- <-.
  destruct (IndexFacts.outcome_after Hout)
    as (_ & _ & _ & _ & d & Hsel & H1 & H2 & H3 & H4).
  unfold getDocument, tryCatch, bind. rewrite (query_quiet _ Hf'), Hsel.
  unfold liftResult.
  destruct (parseOrEmpty env (d_tags d)); [|reflexivity].
  destruct (parseOrEmpty env (d_key_points d)); [|reflexivity].
  cbn. repeat split; assumption.
Qed.

(** *** A deleted document *)

Lemma getDocument_absent documentId s :
  fuse s = None -> selectDocument documentId (tables s) = None ->
  getDocument env documentId s = (Ok None, s).
Proof.
  intros Hf Hsel. unfold getDocument, tryCatch, bind.
  rewrite (query_quiet _ Hf), Hsel. reflexivity.
Qed.

Lemma selectDocument_stored documentId t :
  DeleteFacts.stored documentId t = false ->
  selectDocument documentId t = None.
Proof.
  unfold DeleteFacts.stored, selectDocument. intros H.
  apply find_absent. intros d Hd.
  destruct (jsstring_eqb (d_id d) documentId) eqn:E; [|reflexivity].
  rewrite <- H. symmetry. apply existsb_exists. exists d. auto.
Qed.

Section WithNumber.

Context {F : Type} {num : Number F}.

(** [getSimilarDocuments] looks the document up in the tables it is run
    on, and what it returns never names the document itself. *)
Lemma getSimilarDocuments_facts documentId limit s rs s' :
  getSimilarDocuments (F := F) env documentId limit s = (Ok rs, s') ->
  selectDocument documentId (tables s) <> None /\
  Forall (fun r => sr_documentId r <> documentId) rs.
Proof.
  unfold getSimilarDocuments, tryCatch, bind.
  destruct (getDocument env documentId s) as [[[v|]|e] s1] eqn:Eg;
    try (cbn; discriminate).
  destruct (getDocumentContent documentId s1) as [[content|e] s2];
    try (cbn; discriminate).
  destruct (searchDocuments env content _ s2) as [[results|e] s3];
    try (cbn; discriminate).
  cbn. intros H. injection H as <- <-. split.
  - intros Hsel. revert Eg. unfold getDocument, tryCatch, bind.
    rewrite query_run, Hsel.
    destruct (fuse s) as [[|n]|]; cbn; discriminate.
  - apply Forall_forall. intros r Hr. apply filter_In in Hr.
    destruct Hr as [_ Hr]. intros Heq.
    apply DeleteFacts.jsstring_eqb_eq in Heq. rewrite Heq in Hr.
    discriminate.
Qed.

Lemma getSimilarDocuments_throws documentId limit s :
  ReadFacts.onlyThrows KnowledgeBaseError
    (fst (getSimilarDocuments (F := F) env documentId limit s)).
Proof. unfold getSimilarDocuments. apply ReadFacts.wrapped_throws. Qed.

Lemma getSimilarDocuments_absent documentId limit s :
  selectDocument documentId (tables s) = None ->
  fst (getSimilarDocuments (F := F) env documentId limit s)
  = Throw KnowledgeBaseError.
Proof.
  intros Hsel.
  destruct (getSimilarDocuments env documentId limit s) as [[rs|e] s'] eqn:E.
  - destruct (getSimilarDocuments_facts E) as [H _]. contradiction.
  - pose proof (getSimilarDocuments_throws documentId limit s) as H.
    rewrite E in H. cbn in H |- *. rewrite H. reflexivity.
Qed.

(** X20. What [getSimilarDocuments] returns never contains the document asked
    about, and it throws a [KnowledgeBaseError] for a document that is not
    stored. *)
Theorem getSimilarDocuments_excludes_itself (documentId : jsstring)
  (limit : option nat) (s : State) :
  match fst (getSimilarDocuments (F := F) env documentId limit s) with
  | Ok rs =>
      Forall (fun r => sr_documentId r <> documentId) rs /\
      DeleteFacts.stored documentId (tables s) = true
  | Throw e => e = KnowledgeBaseError
  end /\
  (DeleteFacts.stored documentId (tables s) = false ->
   fst (getSimilarDocuments (F := F) env documentId limit s)
   = Throw KnowledgeBaseError).
Proof.
  split.
  - destruct (getSimilarDocuments env documentId limit s) as [[rs|e] s'] eqn:E.
    + destruct (getSimilarDocuments_facts E) as [H1 H2]. cbn.
      split; [exact H2|].
      destruct (DeleteFacts.stored documentId (tables s)) eqn:Es;
        [reflexivity|].
      elim H1. apply selectDocument_stored. exact Es.
    + pose proof (getSimilarDocuments_throws documentId limit s) as H.
      rewrite E in H. exact H.
  - intros Hs. apply getSimilarDocuments_absent.
    apply selectDocument_stored. exact Hs.
Qed.

(** X21. Once [deleteDocument] has returned, the document is gone for every
    reader: [getDocument] answers [null], [getDocumentContent] the empty
    string, and [getSimilarDocuments] throws a [KnowledgeBaseError]. *)
Theorem deleted_document_is_gone (documentId : jsstring)
  (limit : option nat) (s : State) (b : bool) (s' : State) :
  txn s = None ->
  deleteDocument documentId s = (Ok b, s') ->
  fuse s' = None ->
  getDocument env documentId s' = (Ok None, s') /\
  getDocumentContent documentId s' = (Ok [], s') /\
  fst (getSimilarDocuments (F := F) env documentId limit s')
  = Throw KnowledgeBaseError.
Proof.
  intros Ht Hrun Hf.
  destruct (wp_run_eq Hrun (@DeleteFacts.deleteDocument_wp documentId s Ht))
    as (Htab & _ & _).
  assert (Hsel : selectDocument documentId (tables s') = None).
  { apply selectDocument_stored. rewrite Htab.
    apply DeleteFacts.stored_deleted. }
  split; [exact (getDocument_absent Hf Hsel)|]. split.
  - rewrite (getDocumentContent_quiet documentId Hf), Htab,
      DeleteFacts.chunksOf_deleted. reflexivity.
  - exact (getSimilarDocuments_absent limit Hsel).
Qed.

End WithNumber.

(** *** Errors of indexDocument *)

(** X22. Whatever goes wrong in [indexDocument], the caller sees an error of
    the service's own hierarchy; a path that is no readable file gives a
    [FileProcessingError] before anything is written. *)
Theorem indexDocument_errors (path : jsstring) (options : IndexOptions)
  (s : State) :
  match fst (indexDocument env cfg path options s) with
  | Ok _ => True
  | Throw e => isKnowledgeBaseError e = true
  end /\
  ((forall info data, ~ IndexFacts.readable env path info data) ->
   indexDocument env cfg path options s = (Throw FileProcessingError, s)).
Proof.
  split.
  - unfold indexDocument, tryCatch.
    destruct (bind _ _ s) as [[id|e] s1] eqn:E; cbn; [exact I|].
    destruct (isKnowledgeBaseError e) eqn:Ek; cbn;
      [exact Ek|reflexivity].
  - intros Hno. unfold indexDocument, tryCatch, bind, processFile.
    destruct (fsStat env path) as [[info| | |]|] eqn:Es; try reflexivity.
    destruct (fi_read info) as [data|e] eqn:Er; [|reflexivity].
    elim (Hno info data). split; assumption.
Qed.

End WithEnv.

Lemma indexDocument_then_content_witness :
  getDocumentContent (Sample.digest Sample.aPath) Sample.indexedOnce
  = (Ok (join [LF; LF]
           (firstn 1 (IndexFacts.chunkTexts Sample.cfg
                        (fd_content (Sample.textData "hello"))))),
     Sample.indexedOnce).
Proof.
  apply (@indexDocument_then_content Sample.env Sample.cfg Sample.aPath
           Sample.plain initialState (Sample.textInfo "hello")
           (Sample.textData "hello") (Throw DatabaseError)
           Sample.indexedOnce).
  - constructor.
  - reflexivity.
  - reflexivity.
  - split; reflexivity.
  - reflexivity.
  - intros r [].
  - vm_compute. reflexivity.
  - reflexivity.
Defined.

(** The text that is read back for the sample. *)
Example getDocumentContent_sample :
  fst (getDocumentContent (Sample.digest Sample.aPath) Sample.indexedOnce)
  = Ok (str "hello").
Proof. vm_compute. reflexivity. Qed.

Lemma indexDocument_then_getDocument_witness :
  match
    fst (getDocument FallbackFacts.sourceEnv (Sample.digest Sample.aPath)
           (snd (indexDocument FallbackFacts.sourceEnv Sample.cfg
                   Sample.aPath Sample.plain initialState)))
  with
  | Ok (Some v) =>
      dv_id v = Sample.digest Sample.aPath /\
      dv_path v = Sample.aPath /\
      dv_title v = basename FallbackFacts.sourceEnv Sample.aPath /\
      dv_type v = TText
  | Ok None => False
  | Throw e => e = DatabaseError
  end.
Proof.
  apply (@indexDocument_then_getDocument FallbackFacts.sourceEnv Sample.cfg
           Sample.aPath Sample.plain initialState
           (Sample.textInfo "hello") (Sample.textData "hello")
           (fst (indexDocument FallbackFacts.sourceEnv Sample.cfg
                   Sample.aPath Sample.plain initialState))).
  - constructor.
  - reflexivity.
  - reflexivity.
  - split; reflexivity.
  - reflexivity.
  - vm_compute. reflexivity.
  - vm_compute. reflexivity.
Defined.

(** On the sample, the view is there and carries the base name. *)
Example getDocument_sample :
  option_map (fun v => (dv_title v, dv_tags v))
    (match
       fst (getDocument FallbackFacts.sourceEnv (Sample.digest Sample.aPath)
              (snd (indexDocument FallbackFacts.sourceEnv Sample.cfg
                      Sample.aPath Sample.plain initialState)))
     with
     | Ok v => v
     | Throw _ => None
     end)
  = Some (str "a.txt", JArr []).
Proof. vm_compute. reflexivity. Qed.

Lemma getSimilarDocuments_excludes_itself_witness :
  fst (getSimilarDocuments (num := Vector.RNumber) Sample.env (str "nothing")
         None initialState)
  = Throw KnowledgeBaseError.
Proof.
  apply (proj2 (getSimilarDocuments_excludes_itself (num := Vector.RNumber)
                  Sample.env (str "nothing") None initialState)).
  reflexivity.
Defined.

Lemma deleted_document_is_gone_witness :
  let s' := snd (deleteDocument (Sample.digest Sample.aPath)
                   Sample.indexedWithConcepts) in
  getDocument Sample.env (Sample.digest Sample.aPath) s' = (Ok None, s') /\
  getDocumentContent (Sample.digest Sample.aPath) s' = (Ok [], s') /\
  fst (getSimilarDocuments (num := Vector.RNumber) Sample.env
         (Sample.digest Sample.aPath) None s')
  = Throw KnowledgeBaseError.
Proof.
  apply (@deleted_document_is_gone Sample.env R Vector.RNumber
           (Sample.digest Sample.aPath) None Sample.indexedWithConcepts true).
  - reflexivity.
  - vm_compute. reflexivity.
  - vm_compute. reflexivity.
Defined.

Lemma indexDocument_errors_witness :
  indexDocument Sample.env Sample.cfg (str "/nowhere") Sample.plain
    initialState
  = (Throw FileProcessingError, initialState).
Proof.
  apply (proj2 (indexDocument_errors Sample.env Sample.cfg (str "/nowhere")
                  Sample.plain initialState)).
  intros info data [H _]. vm_compute in H. discriminate.
Defined.

End LifecycleFacts.

(* ================================================================== *)
(** ** The parts of a long document *)

Module PartsFacts.

Import Json Sql Service JSFacts.

Lemma join_snoc sep (g : list jsstring) p :
  g <> [] -> join sep (g ++ [p]) = join sep g ++ sep ++ p.
Proof.
  induction g as [|x g IH]; intros Hg; [contradiction|].
  destruct g as [|y g]; [reflexivity|].
  change (join sep ((x :: y :: g) ++ [p]))
    with (x ++ sep ++ join sep ((y :: g) ++ [p])).
  rewrite IH by discriminate.
  change (join sep (x :: y :: g)) with (x ++ sep ++ join sep (y :: g)).
  rewrite <- !app_assoc. reflexivity.
Qed.

Lemma join_nonblank sep (g : list jsstring) :
  g <> [] -> Forall (fun p => blank p = false) g ->
  blank (join sep g) = false.
Proof.
  intros Hg Hall. destruct g as [|x g]; [contradiction|].
  inversion Hall as [|? ? Hx _]; subst.
  rewrite ChunkerFacts.join_cons, blank_app, Hx. reflexivity.
Qed.

Section Split.

Variable size : nat.

(** A group of paragraphs that makes one part: a single paragraph, or
    several that exceed the size by the two line feeds at most. *)
Definition part (g : list jsstring) : Prop :=
  g <> [] /\ (length g = 1 \/ length (join [LF; LF] g) <= size + 2).

(** The parts pushed and the part being built, over the paragraphs [acc]
    read so far. *)
Definition splitInv (acc : list jsstring) (st : list jsstring * jsstring)
  : Prop :=
  exists groups g,
    List.concat groups ++ g = acc /\
    fst st = map (join [LF; LF]) groups /\
    snd st = join [LF; LF] g /\
    Forall part groups /\
    Forall (fun p => blank p = false) g /\
    (g <> [] -> part g).

Lemma splitStep_inv acc st p :
  splitInv acc st ->
  splitInv (acc ++ filter ChunkerFacts.nonblank [p]) (splitStep size 0 st p).
Proof.
  intros (groups & g & Hacc & Hchunks & Hcur & Hparts & Hnb & Hopen).
  destruct st as [chunks cur]. cbn [fst snd] in Hchunks, Hcur.
  unfold splitStep. rewrite truthy_trim, negb_involutive.
  cbn [filter]. unfold ChunkerFacts.nonblank.
  destruct (blank p) eqn:Hp; cbn [negb].
  - rewrite app_nil_r. exists groups, g. auto 7.
  - destruct ((size <? length cur + length p) && (0 <? length cur)) eqn:Hc.
    + apply andb_true_iff in Hc. destruct Hc as [_ Hpos].
      apply Nat.ltb_lt in Hpos.
      assert (Hg : g <> []).
      { intros ->. rewrite Hcur in Hpos. simpl in Hpos. lia. }
      exists (groups ++ [g]), [p]. cbn [fst snd Nat.ltb Nat.leb].
      split; [rewrite concat_app; simpl; rewrite app_nil_r, <- Hacc,
                <- app_assoc; reflexivity|].
      split; [rewrite map_app, Hchunks, Hcur; reflexivity|].
      split; [reflexivity|].
      split; [apply Forall_app; split; [exact Hparts|]; constructor; auto|].
      split; [constructor; auto|].
      intros _. split; [discriminate|left; reflexivity].
    + exists groups, (g ++ [p]). cbn [fst snd].
      split; [rewrite <- Hacc, <- app_assoc; reflexivity|].
      split; [exact Hchunks|].
      destruct g as [|x g'].
      * rewrite Hcur. cbn. split; [reflexivity|].
        split; [exact Hparts|]. split; [constructor; auto|].
        intros _. split; [discriminate|left; reflexivity].
      * assert (Hne : x :: g' <> []) by discriminate.
        assert (Hb : blank cur = false)
          by (rewrite Hcur; apply join_nonblank; assumption).
        assert (Ht : JS.truthy cur = true).
        { destruct cur; [discriminate|reflexivity]. }
        rewrite Ht. split; [rewrite join_snoc, Hcur by exact Hne;
                            reflexivity|].
        split; [exact Hparts|].
        split; [apply Forall_app; split; [exact Hnb|constructor; auto]|].
        intros _. split; [destruct g'; discriminate|]. right.
        rewrite join_snoc by exact Hne. rewrite <- Hcur.
        rewrite !length_app. cbn [length].
        apply andb_false_iff in Hc. destruct Hc as [Hc|Hc].
        -- apply Nat.ltb_ge in Hc. lia.
        -- apply Nat.ltb_ge in Hc. destruct cur; [discriminate|].
           simpl in Hc. lia.
Qed.

Lemma splitLoop_inv ps : forall acc st,
  splitInv acc st ->
  splitInv (acc ++ filter ChunkerFacts.nonblank ps)
    (fold_left (splitStep size 0) ps st).
Proof.
  induction ps as [|p ps IH]; intros acc st H.
  - simpl. rewrite app_nil_r. exact H.
  - cbn [fold_left].
    change (p :: ps) with ([p] ++ ps). rewrite filter_app, app_assoc.
    apply IH, splitStep_inv, H.
Qed.

(** X23. With no overlap, as [generateSummary] and [extractConcepts] call it,
    [splitTextIntoChunks] loses nothing: the parts are the non-blank
    paragraphs of the text, in order, grouped and joined by blank lines.  A
    part of several paragraphs has at most [chunkSize + 2] code units; only
    a part that is a single paragraph can be longer. *)
Theorem splitTextIntoChunks_partition (text : jsstring) :
  exists groups,
    List.concat groups
    = filter ChunkerFacts.nonblank (splitBlankLines text) /\
    splitTextIntoChunks text size 0 = map (join [LF; LF]) groups /\
    Forall part groups.
Proof.
  unfold splitTextIntoChunks.
  assert (H0 : splitInv [] ([], [])).
  { exists [], []. split; [reflexivity|]. split; [reflexivity|].
    split; [reflexivity|]. split; [constructor|]. split; [constructor|].
    intros Hx. contradiction. }
  pose proof (splitLoop_inv (splitBlankLines text) H0) as H.
  cbn [app] in H.
  destruct (fold_left _ _ _) as [chunks cur].
  destruct H as (groups & g & Hacc & Hchunks & Hcur & Hparts & Hnb & Hopen).
  cbn [fst snd] in Hchunks, Hcur.
  rewrite truthy_trim.
  destruct g as [|x g'].
  - rewrite Hcur. cbn. exists groups. rewrite app_nil_r in Hacc. auto.
  - assert (Hne : x :: g' <> []) by discriminate.
    assert (Hb : blank cur = false)
      by (rewrite Hcur; apply join_nonblank; assumption).
    rewrite Hb. cbn [negb].
    exists (groups ++ [x :: g']).
    split; [rewrite concat_app; simpl; rewrite app_nil_r; exact Hacc|].
    split; [rewrite map_app, Hchunks, Hcur; reflexivity|].
    apply Forall_app. split; [exact Hparts|]. constructor; auto.
Qed.

End Split.

(** Two paragraphs of two units fit when [chunkSize] is four, and the
    part that joins them has six. *)
Example splitTextIntoChunks_two_over :
  map (@length N)
    (splitTextIntoChunks (str "ab" ++ [LF; LF] ++ str "cd") 4 0)
  = [6].
Proof. vm_compute. reflexivity. Qed.

(** X24. With a positive overlap, [splitTextIntoChunks] gives the texts of the
    chunks of [chunkDocument] for the same size and overlap. *)
Theorem splitTextIntoChunks_as_chunkDocument (cfg : Config)
  (text : jsstring) (md : DocumentMetadata) :
  0 < chunkOverlap cfg ->
  splitTextIntoChunks text (chunkSize cfg) (chunkOverlap cfg)
  = map ch_content (Chunker.chunkDocument cfg text md).
Proof.
  intros Ho. unfold splitTextIntoChunks, Chunker.chunkDocument,
    Chunker.chunkLoop.
  assert (H : forall ps chunks cs cur idx,
            chunks = map ch_content cs ->
            let '(chunks', cur') :=
              fold_left (splitStep (chunkSize cfg) (chunkOverlap cfg)) ps
                (chunks, cur) in
            let '(cs', cur'', _) :=
              fold_left (Chunker.chunkStep cfg md) ps (cs, cur, idx) in
            chunks' = map ch_content cs' /\ cur' = cur'').
  { induction ps as [|p ps IH]; intros chunks cs cur idx Hc.
    - simpl. auto.
    - cbn [fold_left]. unfold splitStep at 2, Chunker.chunkStep at 2.
      destruct (negb (JS.truthy (trim p))); [apply IH; exact Hc|].
      destruct ((chunkSize cfg <? length cur + length p)
                && (0 <? length cur)).
      + rewrite (proj2 (Nat.ltb_lt 0 (chunkOverlap cfg)) Ho).
        apply IH. rewrite map_app, Hc. reflexivity.
      + apply IH. exact Hc. }
  specialize (H (splitBlankLines text) [] [] [] 0 eq_refl).
  destruct (fold_left (splitStep _ _) _ _) as [chunks' cur'].
  destruct (fold_left (Chunker.chunkStep cfg md) _ _) as [[cs' cur''] idx'].
  destruct H as [-> ->].
  destruct (JS.truthy (trim cur'')); [|reflexivity].
  rewrite map_app. reflexivity.
Qed.

Lemma splitTextIntoChunks_as_chunkDocument_witness :
  splitTextIntoChunks
    (str "ab cd ef" ++ [LF; LF] ++ str "gh ij" ++ [LF; LF] ++ str "kl") 12 2
  = map ch_content
      (Chunker.chunkDocument (mkConfig (Some 12) (Some 2) None)
         (str "ab cd ef" ++ [LF; LF] ++ str "gh ij" ++ [LF; LF] ++ str "kl")
         ChunkerFacts.sampleMetadata).
Proof.
  apply (@splitTextIntoChunks_as_chunkDocument
           (mkConfig (Some 12) (Some 2) None)).
  vm_compute. lia.
Defined.

End PartsFacts.

(* ================================================================== *)
(** ** Listing and batching the files of a directory *)

Module DirectoryFacts.

Import Json Sql Service Readers Hoare ProgressFacts.

Definition isBroken (node : FsNode) : bool :=
  match node with FsBroken => true | _ => false end.

Definition isFile (node : FsNode) : bool :=
  match node with FsFile _ => true | _ => false end.

(** The paths of the files that are entries of the directory itself. *)
Definition filesOf (env : Env) (dirPath : jsstring)
  (entries : list (jsstring * FsNode)) : list jsstring :=
  map (fun e => pathJoin env dirPath (fst e))
    (filter (fun e => isFile (snd e)) entries).

(** X25. Without [recursive], [getFilesInDirectory] lists the files that are
    entries of the directory, in the order of [readdirSync], and throws
    when one entry, whatever its kind would be, cannot be examined; on
    something that is not a directory it throws.  With [recursive], what it
    lists contains the files of the directory itself. *)
Theorem getFilesInDirectory_flat (env : Env) (dirPath : jsstring)
  (node : FsNode) :
  getFilesInDirectory env dirPath node false
  = match node with
    | FsDir entries =>
        if existsb (fun e => isBroken (snd e)) entries then Throw FsError
        else Ok (filesOf env dirPath entries)
    | _ => Throw FsError
    end /\
  match node, getFilesInDirectory env dirPath node true with
  | FsDir entries, Ok files => incl (filesOf env dirPath entries) files
  | FsDir _, Throw _ => True
  | _, r => r = Throw FsError
  end.
Proof.
  destruct node as [info|entries| |]; try (split; reflexivity).
  split.
  - cbn [getFilesInDirectory].
    induction entries as [|[file child] rest IH]; [reflexivity|].
    rewrite IH. unfold filesOf. cbn [existsb filter snd fst].
    destruct child; cbn [isBroken isFile orb]; try reflexivity;
      destruct (existsb _ rest); reflexivity.
  - cbn [getFilesInDirectory].
    induction entries as [|[file child] rest IH].
    + intros x [].
    + unfold filesOf in *. cbn [filter snd fst].
      destruct child as [info|sub| |]; cbn [isFile];
        try reflexivity.
      * match goal with
        | |- context [match ?w rest with _ => _ end] =>
            destruct (w rest) as [more|e]
        end; [|exact IH].
        cbn [map app fst]. intros x [<-|Hx]; [left; reflexivity|].
        right. apply IH. exact Hx.
      * match goal with
        | |- context [getFilesInDirectory ?a ?b ?c ?d] =>
            destruct (getFilesInDirectory a b c d) as [found|e] eqn:Ef
        end.
        -- match goal with
           | |- context [match ?w rest with _ => _ end] =>
               destruct (w rest) as [more|e]
           end; [|exact IH].
           intros x Hx. apply in_or_app. right. apply IH. exact Hx.
        -- exact I.
      * match goal with
        | |- context [match ?w rest with _ => _ end] =>
            destruct (w rest) as [more|e]
        end; [|exact IH].
        exact IH.
Qed.

(** *** The batches *)

Lemma batchesOf_nil {A} fuel size : @batchesOf A fuel size [] = [].
Proof. destruct fuel; reflexivity. Qed.

Lemma batchesOf_shape {A} size : 1 <= size ->
  forall fuel (l : list A), length l <= fuel ->
    Forall (fun b => 1 <= length b <= size) (batchesOf fuel size l) /\
    (forall i b, nth_error (batchesOf fuel size l) i = Some b ->
       S i < length (batchesOf fuel size l) -> length b = size).
Proof.
  intros Hsize. induction fuel as [|fuel IH]; intros l Hl.
  - split; [constructor|]. intros [|i] b H; discriminate.
  - destruct l as [|a l]; [split; [constructor|intros [|i] b H; discriminate]|].
    cbn [batchesOf].
    assert (Hrest : length (skipn size (a :: l)) <= fuel).
    { rewrite length_skipn. cbn [length] in Hl |- *. lia. }
    destruct (IH _ Hrest) as [Hall Hfull]. split.
    + constructor; [|exact Hall]. rewrite length_firstn. cbn [length]. lia.
    + intros [|i] b Hb Hi.
      * injection Hb as <-. rewrite length_firstn. cbn [length] in Hi.
        destruct (skipn size (a :: l)) as [|y r] eqn:Es.
        -- rewrite batchesOf_nil in Hi. cbn [length] in Hi. lia.
        -- assert (Hlen : length (skipn size (a :: l)) = S (length r))
             by (rewrite Es; reflexivity).
           rewrite length_skipn in Hlen. cbn [length] in Hlen |- *. lia.
      * cbn [nth_error] in Hb. cbn [length] in Hi.
        apply (Hfull i b Hb). lia.
Qed.

(** X26. The batch loop handles every file once and in order: the batches,
    one after the other, are the list; no batch is empty or has more than
    [batchSize] files, and only the last can have fewer. *)
Theorem batches_partition {A : Type} (size : nat) (l : list A) :
  1 <= size ->
  List.concat (batches size l) = l /\
  Forall (fun b => 1 <= length b <= size) (batches size l) /\
  (forall i b, nth_error (batches size l) i = Some b ->
     S i < length (batches size l) -> length b = size).
Proof.
  intros Hsize. split; [apply batches_concat; exact Hsize|].
  apply batchesOf_shape; [exact Hsize|]. apply Nat.le_refl.
Qed.

Lemma batches_partition_witness :
  List.concat (batches 2 [1; 2; 3; 4; 5]) = [1; 2; 3; 4; 5] /\
  Forall (fun b => 1 <= length b <= 2) (batches 2 [1; 2; 3; 4; 5]) /\
  (forall i b, nth_error (batches 2 [1; 2; 3; 4; 5]) i = Some b ->
     S i < length (batches 2 [1; 2; 3; 4; 5]) -> length b = 2).
Proof. apply (@batches_partition nat 2 [1; 2; 3; 4; 5]). lia. Defined.

(** *** What a run selects *)

Section WithEnv.

Variable env : Env.
Variable cfg : Config.

Lemma selected_length options files :
  length (selected env options files) <= length files /\
  (forall n, do_maxFiles options = Some (S n) ->
     length (selected env options files) <= S n) /\
  (match do_maxFiles options with Some (S _) => False | _ => True end ->
   match do_fileTypes options with Some (_ :: _) => False | _ => True end ->
   selected env options files = files).
Proof.
  unfold selected.
  set (filtered := match do_fileTypes options with
                   | Some (t :: ts) => filter _ files
                   | _ => files
                   end).
  assert (Hf : length filtered <= length files).
  { unfold filtered. destruct (do_fileTypes options) as [[|t ts]|];
      try apply Nat.le_refl. apply filter_length_le. }
  split; [|split].
  - destruct (do_maxFiles options) as [[|n]|]; try exact Hf.
    rewrite length_firstn. lia.
  - intros n ->. rewrite length_firstn. lia.
  - intros Hm Ht. destruct (do_maxFiles options) as [[|n]|];
      try contradiction; unfold filtered;
      destruct (do_fileTypes options) as [[|t ts]|];
      try contradiction; reflexivity.
Qed.

(** X27. A run of [indexDirectory] that lists the files counts at most
    [maxFiles] of them when that is a positive number; [maxFiles = 0]
    limits nothing, and neither does an empty [fileTypes]: the total is then
    the number of files listed.  Afterwards [getIndexingProgress] returns
    the snapshot that the run returned. *)
Theorem indexDirectory_limits (dirPath : jsstring)
  (options : DirectoryOptions) (s : State) (root : FsNode)
  (files : list jsstring) :
  fsStat env dirPath = Some root ->
  getFilesInDirectory env dirPath root (do_recursive options) = Ok files ->
  quiet options -> 1 <= maxConcurrentProcessing cfg ->
  exists p s',
    indexDirectory env cfg dirPath options s = (Ok p, s') /\
    getIndexingProgress s' = (Ok p, s') /\
    total p <= length files /\
    (forall n, do_maxFiles options = Some (S n) -> total p <= S n) /\
    (match do_maxFiles options with Some (S _) => False | _ => True end ->
     match do_fileTypes options with Some (_ :: _) => False | _ => True end ->
     total p = length files).
Proof.
  intros Hstat Hfiles Hq Hsize.
  pose proof (@indexDirectory_wp env cfg dirPath options root files s
                Hstat Hfiles Hq Hsize) as Hwp.
  unfold wp in Hwp.
  destruct (indexDirectory env cfg dirPath options s) as [[p|e] s'];
    [|contradiction].
  destruct Hwp as [(Htotal & _) Hp].
  destruct (selected_length options files) as (H1 & H2 & H3).
  exists p, s'. split; [reflexivity|].
  split; [unfold getIndexingProgress, gets; rewrite Hp; reflexivity|].
  rewrite Htotal. split; [exact H1|]. split; [exact H2|].
  intros Hm Ht. rewrite (H3 Hm Ht). reflexivity.
Qed.

(** *** The graph pass and the documents *)

(** X28. [extractConcepts] returns whatever happens in it, leaves no
    transaction open, and writes to the concepts and the relationships
    only: the documents, their chunks and the full-text rows are those of
    before. *)
Theorem extractConcepts_graph_only (content documentId : jsstring)
  (s : State) :
  txn s = None ->
  exists s',
    extractConcepts env content documentId s = (Ok tt, s') /\
    txn s' = None /\
    documents (tables s') = documents (tables s) /\
    document_chunks (tables s') = document_chunks (tables s) /\
    documents_fts (tables s') = documents_fts (tables s).
Proof.
  intros Ht.
  pose proof (@PassFacts.extractConcepts_wp env
                (fun t => IndexFacts.sameDocs (tables s) t)) as Hwp.
  assert (Hstep : forall t g t',
            PassFacts.GraphStep env t g ->
            IndexFacts.sameDocs (tables s) t -> g t = Ok t' ->
            IndexFacts.sameDocs (tables s) t').
  { intros t g t' Hs (A & B & C) Hg.
    destruct (IndexFacts.GraphStep_sameDocs Hs Hg) as (A' & B' & C').
    repeat split; congruence. }
  specialize (Hwp Hstep content documentId s Ht).
  cbv beta in Hwp.
  assert (H0 : IndexFacts.sameDocs (tables s) (tables s))
    by (repeat split).
  specialize (Hwp H0). unfold wp in Hwp.
  destruct (extractConcepts env content documentId s) as [[[]|e] s'];
    [|contradiction].
  destruct Hwp as (Ht' & A & B & C). exists s'. auto.
Qed.

End WithEnv.

Lemma indexDirectory_limits_witness :
  exists p s',
    indexDirectory Sample.env Sample.cfg (str "/kb")
      {| do_recursive := false; do_fileTypes := Some [];
         do_generateEmbeddings := false; do_extractKeyPoints := false;
         do_generateSummary := false; do_maxFiles := Some 2;
         do_onProgress := None |} initialState
    = (Ok p, s') /\
    getIndexingProgress s' = (Ok p, s') /\
    total p <= 3 /\ total p <= 2.
Proof.
  destruct (@indexDirectory_limits Sample.env Sample.cfg (str "/kb")
              {| do_recursive := false; do_fileTypes := Some [];
                 do_generateEmbeddings := false;
                 do_extractKeyPoints := false;
                 do_generateSummary := false; do_maxFiles := Some 2;
                 do_onProgress := None |} initialState
              (FsDir Sample.files)
              [str "/kb/a.txt"; str "/kb/b.txt"; str "/kb/c.txt"])
    as (p & s' & H1 & H2 & H3 & H4 & _).
  - reflexivity.
  - vm_compute. reflexivity.
  - exact I.
  - vm_compute. lia.
  - exists p, s'. split; [exact H1|]. split; [exact H2|].
    split; [exact H3|]. apply (H4 1). reflexivity.
Defined.

Lemma extractConcepts_graph_only_witness :
  exists s',
    extractConcepts Sample.env (str "hello") (Sample.digest Sample.aPath)
      Sample.answering
    = (Ok tt, s') /\
    txn s' = None /\
    documents (tables s') = documents (tables Sample.answering) /\
    document_chunks (tables s') = document_chunks (tables Sample.answering) /\
    documents_fts (tables s') = documents_fts (tables Sample.answering).
Proof.
  apply (@extractConcepts_graph_only Sample.env (str "hello")
           (Sample.digest Sample.aPath) Sample.answering).
  reflexivity.
Defined.

End DirectoryFacts.
